(** * A first-fit allocator over a fixed arena: simplified_smm.c

    The program keeps an implicit list of blocks inside one region obtained
    from mmap.  Every block is a packed 9-byte header (an 8-byte size_t
    [size] followed by a 1-byte [status]) and [size] payload bytes.  The
    development embeds the arena as the list of its bytes, the three globals
    as fields of a state record, and the functions [mm_sbrk], [mm_print],
    [enoughToSplit], [mm_malloc], [mm_free] and [mm_combine_nearby_free] as
    functions over that state.  The loop of [main] that runs the operations
    is embedded over the same state and the table [pointers].

    - Addresses and [size_t] values are integers below [2 ^ 64]; pointer
      and [size_t] arithmetic wrap around, and a [size_t] passed for an
      [int] keeps its low 32 bits.
    - A header is read and written byte by byte, little-endian.  mmap maps
      whole pages, so the mapped region can be longer than the arena: a load
      or a store between [heap_end] and the end of the last page works like
      one inside the arena.  A load or a store that leaves the mapped pages
      has no defined result in C; it is the outcome [Fault].
    - The loops of the program are driven by the arena contents, so their
      embedding takes a fuel argument and answers [OutOfFuel] when it is
      used up; the results below hold for every fuel above the number of
      blocks. *)

From Stdlib Require Import ZArith Lia String.
From stdpp Require Import base tactics option numbers list.

Local Open Scope Z_scope.

(** * The program

    ** Machine arithmetic *)

Module Machine.

(** [size_t] and pointers are 64 bits wide, [int] is 32 bits wide. *)
Definition modulus64 : Z := 2 ^ 64.
Definition modulus32 : Z := 2 ^ 32.

(** Unsigned wrap-around of [size_t] arithmetic. *)
Definition wrap64 (v : Z) : Z := v mod modulus64.

(** Addition and subtraction on [size_t]. *)
Definition size_add (a b : Z) : Z := wrap64 (a + b).
Definition size_sub (a b : Z) : Z := wrap64 (a - b).

(** Byte-granular pointer arithmetic on [void *] (a GNU extension), the
    offset being any integer. *)
Definition ptr_add (p d : Z) : Z := wrap64 (p + d).

(** Conversion of a [size_t] to [int]: the low 32 bits, read as a signed
    number. *)
Definition to_int (v : Z) : Z := (v + 2 ^ 31) mod modulus32 - 2 ^ 31.

(** Conversion of a [size_t] to [long] for printing with [%ld]. *)
Definition to_long (v : Z) : Z := (v + 2 ^ 63) mod modulus64 - 2 ^ 63.

Definition is_size (v : Z) : Prop := 0 <= v < modulus64.
Definition is_int (v : Z) : Prop := - 2 ^ 31 <= v < 2 ^ 31.

End Machine.
Import Machine.

(** ** Outcomes of a run *)

Inductive outcome (A : Type) : Type :=
| Ok (a : A)
| Fault
| OutOfFuel.
Arguments Ok {A} a.
Arguments Fault {A}.
Arguments OutOfFuel {A}.

#[global] Instance outcome_ret : MRet outcome := fun _ a => Ok a.
#[global] Instance outcome_bind : MBind outcome := fun _ _ f m =>
  match m with
  | Ok a => f a
  | Fault => Fault
  | OutOfFuel => OutOfFuel
  end.

(** ** The globals and the arena *)

Definition NULL : Z := 0.
Definition MAP_FAILED : Z := modulus64 - 1.
Definition HEAP_SIZE : Z := 8000.
Definition META_DATA_STATUS_FREE : Z := 102.      (* 'f' *)
Definition META_DATA_STATUS_OCCUPIED : Z := 111.  (* 'o' *)
Definition meta_data_size : Z := 9.               (* sizeof(struct MetaData), packed *)

(** [heap] holds the bytes of the pages mmap returned; byte [i] lives at
    address [heap_start + i].  mmap maps whole pages, so the list can be
    longer than the [HEAP_SIZE] bytes between [heap_start] and [heap_end]:
    the bytes from [heap_end] to the end of the last page can be read and
    written like the others. *)
Record state : Type := mkState {
  heap_start : Z;
  heap_end : Z;
  heap_current_break : Z;
  heap : list Z
}.

Definition set_break (s : state) (b : Z) : state :=
  mkState (heap_start s) (heap_end s) b (heap s).

Definition set_heap (s : state) (h : list Z) : state :=
  mkState (heap_start s) (heap_end s) (heap_current_break s) h.

(** What mmap maps for a request of [len] bytes: [len] rounded up to whole
    pages. *)
Definition mapped_size (page len : Z) : Z := (len + page - 1) / page * page.

(** The state [main] sets up before it runs the operations: mmap returned
    [base], the address of zero-filled pages that hold [HEAP_SIZE] bytes. *)
Definition initial_paged (page base : Z) : state :=
  mkState base (base + HEAP_SIZE) base
    (replicate (Z.to_nat (mapped_size page HEAP_SIZE)) 0).

(** Pages of 4096 bytes: the region holds 8192 bytes. *)
Definition PAGE_SIZE : Z := 4096.
Definition initial (base : Z) : state := initial_paged PAGE_SIZE base.

(** The state before [main] has called mmap. *)
Definition uninitialised : state := mkState NULL NULL NULL [].

(** ** Loads and stores *)

Definition in_mapping (s : state) (a : Z) (n : nat) : bool :=
  bool_decide (heap_start s <= a /\ a + Z.of_nat n <= heap_start s + Z.of_nat (length (heap s))).

Definition offset (s : state) (a : Z) : nat := Z.to_nat (a - heap_start s).

Definition load_bytes (s : state) (a : Z) (n : nat) : outcome (list Z) :=
  if in_mapping s a n then Ok (take n (drop (offset s a) (heap s))) else Fault.

Definition store_bytes (s : state) (a : Z) (bs : list Z) : outcome state :=
  if in_mapping s a (length bs)
  then Ok (set_heap s (list_inserts (offset s a) bs (heap s)))
  else Fault.

(** Little-endian layout of an unsigned integer over [n] bytes. *)
Fixpoint le_encode (n : nat) (v : Z) : list Z :=
  match n with
  | O => []
  | S n' => v mod 256 :: le_encode n' (v / 256)
  end.

Fixpoint le_decode (bs : list Z) : Z :=
  match bs with
  | [] => 0
  | b :: bs' => b + 256 * le_decode bs'
  end.

(** [md->size] and [md->status] for the header at address [md]. *)
Definition load_size (s : state) (md : Z) : outcome Z :=
  bs ← load_bytes s md 8; Ok (le_decode bs).

Definition store_size (s : state) (md : Z) (v : Z) : outcome state :=
  store_bytes s md (le_encode 8 v).

Definition load_status (s : state) (md : Z) : outcome Z :=
  bs ← load_bytes s (md + 8) 1; Ok (le_decode bs).

Definition store_status (s : state) (md : Z) (c : Z) : outcome state :=
  store_bytes s (md + 8) [c].

(** ** mm_sbrk *)

Definition mm_sbrk (sz : Z) (s : state) : Z * state :=
  if (heap_start s =? NULL) || (heap_end s =? NULL) || (heap_current_break s =? NULL)
  then (MAP_FAILED, s)
  else if sz =? 0 then (heap_current_break s, s)
  else if (0 <? sz) && (ptr_add (heap_current_break s) sz <=? heap_end s)
  then (heap_current_break s, set_break s (ptr_add (heap_current_break s) sz))
  else if (sz <? 0) && (heap_start s <=? ptr_add (heap_current_break s) sz)
  then (heap_current_break s, set_break s (ptr_add (heap_current_break s) sz))
  else (MAP_FAILED, s).

(** ** mm_print *)

(** One printed line: the block number, "FREE" or "OCCP", the size as [%ld]
    shows it, and "byte" or "bytes". *)
Record line : Type := mkLine {
  line_no : Z;
  line_status : string;
  line_size : Z;
  line_unit : string
}.

(** The loop of [mm_print]; the result holds the lines printed and the value
    of [cur] when the loop is left. *)
Fixpoint mm_print_loop (fuel : nat) (s : state) (brk cur i : Z) : outcome (list line * Z) :=
  match fuel with
  | O => OutOfFuel
  | S fuel' =>
      if cur <? brk then
        st ← load_status s cur;
        sz ← load_size s cur;
        let l := mkLine i
                   (if st =? META_DATA_STATUS_FREE then "FREE" else "OCCP")
                   (to_long sz)
                   (if sz =? 1 then "byte" else "bytes") in
        r ← mm_print_loop fuel' s brk (ptr_add cur (size_add meta_data_size sz)) (to_int (i + 1));
        Ok (l :: r.1, r.2)
      else Ok ([], cur)
  end.

Definition mm_print (fuel : nat) (s : state) : outcome (list line) :=
  let cur_heap_break := (mm_sbrk 0 s).1 in
  r ← mm_print_loop fuel s cur_heap_break (heap_start s) 1; Ok r.1.

(** ** mm_malloc *)

Definition enoughToSplit (s : state) (md : Z) (size : Z) : outcome bool :=
  sz ← load_size s md; Ok (size_add size meta_data_size <? sz).

(** The code after the loop of [mm_malloc]: grow the arena for a new block,
    or grow it for the last block. The value of [mm_sbrk] is used unchecked. *)
Definition mm_malloc_grow (size lastBlock : Z) (s : state) : outcome (Z * state) :=
  occupied ← (if lastBlock =? NULL then Ok true
              else st ← load_status s lastBlock; Ok (st =? META_DATA_STATUS_OCCUPIED));
  if (occupied : bool) then
    let '(start, s1) := mm_sbrk (to_int (size_add size meta_data_size)) s in
    s2 ← store_size s1 start size;
    s3 ← store_status s2 start META_DATA_STATUS_OCCUPIED;
    Ok (ptr_add start meta_data_size, s3)
  else
    lsz ← load_size s lastBlock;
    let remainingSize := to_int (size_sub size lsz) in
    let '(_, s1) := mm_sbrk remainingSize s in
    s2 ← store_size s1 lastBlock size;
    s3 ← store_status s2 lastBlock META_DATA_STATUS_OCCUPIED;
    Ok (ptr_add lastBlock meta_data_size, s3).

(** The block at [cur] satisfies the request: split it when it is large
    enough, mark it occupied, return its payload. *)
Definition mm_malloc_take (size cur : Z) (s : state) : outcome (Z * state) :=
  split ← enoughToSplit s cur size;
  s3 ← (if (split : bool) then
          let new_md := ptr_add (ptr_add cur meta_data_size) size in
          sz ← load_size s cur;
          s1 ← store_size s new_md (size_sub (size_sub sz size) meta_data_size);
          s2 ← store_status s1 new_md META_DATA_STATUS_FREE;
          store_size s2 cur size
        else Ok s);
  s4 ← store_status s3 cur META_DATA_STATUS_OCCUPIED;
  Ok (ptr_add cur meta_data_size, s4).

Fixpoint mm_malloc_loop (fuel : nat) (size brk cur lastBlock : Z) (s : state)
  : outcome (Z * state) :=
  match fuel with
  | O => OutOfFuel
  | S fuel' =>
      if cur <? brk then
        st ← load_status s cur;
        fits ← (if st =? META_DATA_STATUS_FREE
                then sz ← load_size s cur; Ok (size <=? sz)
                else Ok false);
        if (fits : bool) then mm_malloc_take size cur s
        else
          sz ← load_size s cur;
          mm_malloc_loop fuel' size brk (ptr_add cur (size_add meta_data_size sz)) cur s
      else mm_malloc_grow size lastBlock s
  end.

Definition mm_malloc (fuel : nat) (size : Z) (s : state) : outcome (Z * state) :=
  let cur_heap_break := (mm_sbrk 0 s).1 in
  mm_malloc_loop fuel size cur_heap_break (heap_start s) NULL s.

(** ** mm_free *)

Definition mm_free (p : Z) (s : state) : outcome state :=
  store_status s (ptr_add p (- meta_data_size)) META_DATA_STATUS_FREE.

(** ** mm_combine_nearby_free *)

(** How the inner loop is left: its condition is false, [break], or
    [return]. *)
Inductive inner_exit : Type := ExitCond | ExitBreak | ExitReturn.

Fixpoint combine_inner (fuel : nat) (brk cur : Z) (s : state) : outcome (inner_exit * state) :=
  match fuel with
  | O => OutOfFuel
  | S fuel' =>
      if cur <? brk then
        st ← load_status s cur;
        if st =? META_DATA_STATUS_FREE then
          sz ← load_size s cur;
          let next := ptr_add (ptr_add cur meta_data_size) sz in
          if next <? brk then
            nst ← load_status s next;
            if nst =? META_DATA_STATUS_FREE then
              nsz ← load_size s next;
              s' ← store_size s cur (size_add sz (size_add meta_data_size nsz));
              combine_inner fuel' brk cur s'
            else Ok (ExitBreak, s)
          else Ok (ExitReturn, s)
        else Ok (ExitCond, s)
      else Ok (ExitCond, s)
  end.

Fixpoint combine_outer (fuel : nat) (brk cur : Z) (s : state) : outcome state :=
  match fuel with
  | O => OutOfFuel
  | S fuel' =>
      if cur <? brk then
        r ← combine_inner fuel brk cur s;
        match r with
        | (ExitReturn, s1) => Ok s1
        | (_, s1) =>
            sz ← load_size s1 cur;
            combine_outer fuel' brk (ptr_add cur (size_add meta_data_size sz)) s1
        end
      else Ok s
  end.

Definition mm_combine_nearby_free (fuel : nat) (s : state) : outcome state :=
  let cur_heap_break := (mm_sbrk 0 s).1 in
  combine_outer fuel cur_heap_break (heap_start s) s.

(** * The vocabulary of the statements

    ** The block list an arena holds *)

Record block : Type := mkBlock {
  block_size : Z;
  block_status : Z
}.

Definition is_free (b : block) : bool := block_status b =? META_DATA_STATUS_FREE.

Definition status_ok (b : block) : Prop :=
  block_status b = META_DATA_STATUS_FREE \/ block_status b = META_DATA_STATUS_OCCUPIED.

(** Bytes a block takes: its header and its payload. *)
Definition footprint (b : block) : Z := meta_data_size + block_size b.

Fixpoint span (bl : list block) : Z :=
  match bl with
  | [] => 0
  | b :: bl' => footprint b + span bl'
  end.

(** The header at address [a] reads as block [b]. *)
Definition header_at (s : state) (a : Z) (b : block) : Prop :=
  load_status s a = Ok (block_status b) /\
  load_size s a = Ok (block_size b) /\
  0 <= block_size b.

(** Walking from [a], each header leading to the next by
    [meta_data_size + size], reads the blocks [bl]. *)
Fixpoint layout (s : state) (a : Z) (bl : list block) : Prop :=
  match bl with
  | [] => True
  | b :: bl' => header_at s a b /\ layout s (a + footprint b) bl'
  end.

(** The walk from [heap_start] reads [bl] and ends on the break. *)
Definition blocks_of (s : state) (bl : list block) : Prop :=
  layout s (heap_start s) bl /\ heap_start s + span bl = heap_current_break s.

(** Where mmap can have put the arena: the arena lies within the mapped
    pages, the break lies within the arena, and neither the pages nor an
    [int] offset from them reaches the ends of the 64-bit address space. *)
Definition arena_ok (s : state) : Prop :=
  heap_end s <= heap_start s + Z.of_nat (length (heap s)) /\
  2 ^ 31 <= heap_start s /\
  heap_start s + Z.of_nat (length (heap s)) + 2 ^ 31 < modulus64 /\
  Z.of_nat (length (heap s)) < 2 ^ 31 /\
  heap_start s <= heap_current_break s <= heap_end s.

Definition wf (s : state) (bl : list block) : Prop :=
  arena_ok s /\ blocks_of s bl /\ Forall status_ok bl.

(** The blocks of a list with the addresses of their headers. *)
Fixpoint addressed (a : Z) (bl : list block) : list (Z * block) :=
  match bl with
  | [] => []
  | b :: bl' => (a, b) :: addressed (a + footprint b) bl'
  end.

(** [s'] holds the bytes of [s] everywhere in [lo, hi). *)
Definition same_bytes (s s' : state) (lo hi : Z) : Prop :=
  forall b n, lo <= b -> b + Z.of_nat n <= hi -> load_bytes s' b n = load_bytes s b n.

(** ** What mm_print prints for a block list *)

Definition line_of (i : Z) (b : block) : line :=
  mkLine i
    (if is_free b then "FREE" else "OCCP")
    (to_long (block_size b))
    (if block_size b =? 1 then "byte" else "bytes").

Fixpoint lines_of (i : Z) (bl : list block) : list line :=
  match bl with
  | [] => []
  | b :: bl' => line_of i b :: lines_of (to_int (i + 1)) bl'
  end.

(** ** What mm_malloc does to a block list *)

(** A block satisfies a request when it is free and large enough. *)
Definition fits (size : Z) (b : block) : bool :=
  is_free b && (size <=? block_size b).

(** The value of [lastBlock] after the scan has walked over [bl] from [a]. *)
Fixpoint last_header (a lastBlock : Z) (bl : list block) : Z :=
  match bl with
  | [] => lastBlock
  | b :: bl' => last_header (a + footprint b) a bl'
  end.

(** What becomes of a free block [b] that satisfies a request of [size]. *)
Definition take_blocks (size : Z) (b : block) : list block :=
  if size + meta_data_size <? block_size b
  then [mkBlock size META_DATA_STATUS_OCCUPIED;
        mkBlock (block_size b - size - meta_data_size) META_DATA_STATUS_FREE]
  else [mkBlock (block_size b) META_DATA_STATUS_OCCUPIED].

(** The growth [mm_malloc] asks of [mm_sbrk] when no block fits: room for a
    header and the payload, or only what the free last block lacks. *)
Definition needed_growth (size : Z) (bl : list block) : Z :=
  match last bl with
  | Some b => if is_free b then size - block_size b else size + meta_data_size
  | None => size + meta_data_size
  end.

(** ** Frames: what a run of stores leaves alone *)

Definition same_globals (s s' : state) : Prop :=
  heap_start s' = heap_start s /\ heap_end s' = heap_end s /\
  heap_current_break s' = heap_current_break s /\
  length (heap s') = length (heap s).

(** [s'] holds the bytes of [s] everywhere outside [lo, hi). *)
Definition frame (s s' : state) (lo hi : Z) : Prop :=
  forall l h, h <= lo \/ hi <= l -> same_bytes s s' l h.

(** ** Runs of free blocks *)

(** A run is a block with the blocks that follow it in the same run. *)
Definition run : Type := block * list block.

Definition run_blocks (r : run) : list block := r.1 :: r.2.

Definition flatten (gs : list run) : list block := concat (map run_blocks gs).

(** The maximal runs of a block list: consecutive free blocks are grouped,
    every other block stands alone. *)
Fixpoint runs (bl : list block) : list run :=
  match bl with
  | [] => []
  | b :: rest =>
      match runs rest with
      | (r, g) :: gs =>
          if is_free b && is_free r then (b, r :: g) :: gs
          else (b, []) :: (r, g) :: gs
      | [] => [(b, [])]
      end
  end.

(** A run of several blocks holds free blocks only. *)
Definition is_run (r : run) : Prop :=
  Forall (fun x => is_free r.1 = true /\ is_free x = true) r.2.

(** No run can be extended: two neighbours are never both free. *)
Fixpoint maximal (gs : list run) : Prop :=
  match gs with
  | r1 :: gs' =>
      match gs' with
      | r2 :: _ => ~ (is_free r1.1 = true /\ is_free r2.1 = true)
      | [] => True
      end /\ maximal gs'
  | [] => True
  end.

(** The block a run collapses to: the first header stays, the payload
    swallows the other blocks of the run, headers included. *)
Definition merge_run (r : run) : block :=
  mkBlock (block_size r.1 + span r.2) (block_status r.1).

Definition coalesce (bl : list block) : list block := map merge_run (runs bl).

Definition sum_sizes (bl : list block) : Z := foldr (fun b acc => block_size b + acc) 0 bl.

(** How the inner loop of [mm_combine_nearby_free] ends on a free run
    followed by [tail]. *)
Definition exit_for (tail : list block) : inner_exit :=
  match tail with
  | [] => ExitReturn
  | _ :: _ => ExitBreak
  end.

(** The block after a free run, if there is one, is not free. *)
Definition stops (tail : list block) : Prop :=
  match tail with
  | [] => True
  | t :: _ => is_free t = false
  end.

(** ** Reachable states *)

(** An allocation succeeded when the payload it returned lies below the
    break. *)
Definition allocated (p size : Z) (s' : state) : Prop :=
  p + size <= heap_current_break s'.

(** The states [main] can get to from a fresh arena by successful calls of
    [mm_malloc], calls of [mm_free] on the payload of a block of the list,
    and calls of [mm_combine_nearby_free].  After a call of [mm_malloc],
    [main] fills the payload with spaces; [reach_fill] stands for any bytes
    written into the payload of a block of the list. *)
Inductive reachable : state -> Prop :=
| reach_initial page base :
    0 < page -> mapped_size page HEAP_SIZE < 2 ^ 31 ->
    2 ^ 31 <= base -> base + mapped_size page HEAP_SIZE + 2 ^ 31 < modulus64 ->
    reachable (initial_paged page base)
| reach_malloc s fuel size p s' :
    reachable s -> is_size size ->
    mm_malloc fuel size s = Ok (p, s') -> allocated p size s' ->
    reachable s'
| reach_free s bl a b s' :
    reachable s -> blocks_of s bl -> In (a, b) (addressed (heap_start s) bl) ->
    mm_free (a + meta_data_size) s = Ok s' ->
    reachable s'
| reach_combine s fuel s' :
    reachable s -> mm_combine_nearby_free fuel s = Ok s' ->
    reachable s'
| reach_fill s bl a b bs s' :
    reachable s -> blocks_of s bl -> In (a, b) (addressed (heap_start s) bl) ->
    Z.of_nat (length bs) <= block_size b ->
    store_bytes s (a + meta_data_size) bs = Ok s' ->
    reachable s'.

(** ** Concrete arenas *)

(** An address mmap can return on a 64-bit machine. *)
Definition base0 : Z := 139637976727552.

Definition after_malloc (fuel : nat) (size : Z) (s : state) : state :=
  match mm_malloc fuel size s with
  | Ok (_, s') => s'
  | _ => s
  end.

Definition after_free (p : Z) (s : state) : state :=
  match mm_free p s with
  | Ok s' => s'
  | _ => s
  end.

Definition FREE (size : Z) : block := mkBlock size META_DATA_STATUS_FREE.
Definition OCCUPIED (size : Z) : block := mkBlock size META_DATA_STATUS_OCCUPIED.

(** malloc a 2; free a: one free block of size 2. *)
Definition arena_free2 : state :=
  after_free (base0 + 9) (after_malloc 4 2 (initial base0)).

(** malloc a 30; malloc b 5; free a: a free block of size 30 before an
    occupied one. *)
Definition arena_free30_occ5 : state :=
  after_free (base0 + 9) (after_malloc 4 5 (after_malloc 4 30 (initial base0))).

(** malloc a 2; malloc b 10; malloc c 5; free a; free b; free c. *)
Definition arena_free_2_10_5 : state :=
  after_free (base0 + 39)
    (after_free (base0 + 20)
       (after_free (base0 + 9)
          (after_malloc 4 5 (after_malloc 4 10 (after_malloc 4 2 (initial base0)))))).

(** malloc a 3; malloc b 4; malloc c 5; free a; free b; free c. *)
Definition arena_free_3_4_5 : state :=
  after_free (base0 + 34)
    (after_free (base0 + 21)
       (after_free (base0 + 9)
          (after_malloc 4 5 (after_malloc 4 4 (after_malloc 4 3 (initial base0)))))).

(** The arena after: malloc a 10; malloc b 5; free a; malloc c 3;
    combine_nearby_free. *)
Definition arena_scenario : state :=
  match mm_combine_nearby_free 4
          (after_malloc 4 3
             (after_free (base0 + 9)
                (after_malloc 4 5 (after_malloc 4 10 (initial base0))))) with
  | Ok s => s
  | _ => initial base0
  end.

(** malloc a 7970; malloc b 5; free b: 7 bytes are left above the break,
    below a free block of size 5. *)
Definition arena_tail_free5 : state :=
  after_free (base0 + 7988)
    (after_malloc 4 5 (after_malloc 4 7970 (initial base0))).

(** * The driver: main

    [main] first reads the operations into three arrays, then maps the arena
    and runs the operations in order.  The run is embedded from the arrays
    on: one [operation] holds the entries of [operation_types],
    [pointer_chars] and [malloc_sizes] at one index, and the list of
    operations has [sz_operations] entries.  The first loop, which fills the
    arrays with scanf, and the call of munmap after the last operation are
    not embedded.  What [printf] writes is kept as a list of events, one
    for each call. *)

Definition MAX_POINTERS : Z := 26.
Definition OPERATION_TYPE_MALLOC : Z := 77.               (* 'M' *)
Definition OPERATION_TYPE_FREE : Z := 70.                 (* 'F' *)
Definition OPERATION_TYPE_COMBINE_NEARBY_FREE : Z := 67.  (* 'C' *)
Definition CHAR_a : Z := 97.                              (* 'a' *)
Definition CHAR_SPACE : Z := 32.                          (* ' ' *)

Record operation : Type := mkOperation {
  operation_type : Z;   (* operation_types[i], a char *)
  pointer_char : Z;     (* pointer_chars[i], a char *)
  malloc_size : Z       (* malloc_sizes[i], an int *)
}.

Inductive event : Type :=
| PrintMalloc (block_name block_size : Z)   (* === malloc c n === *)
| PrintMallocError (block_name : Z)         (* malloc Error: c is pointing to ... *)
| PrintFree (block_name : Z)                (* === free c === *)
| PrintFreeError (block_name : Z)           (* free Error: c is pointing to NULL *)
| PrintCombine                              (* === Combine nearby free blocks === *)
| PrintBlock (l : line)                     (* a line of mm_print *)
| PrintMmapError.                           (* Error in creating heap using mmap *)

(** [pointers[block_name - 'a']], read and written; an index outside the
    array has no defined result. *)
Definition get_pointer (pointers : list Z) (block_name : Z) : outcome Z :=
  let i := block_name - CHAR_a in
  if (0 <=? i) && (i <? MAX_POINTERS) then
    match pointers !! Z.to_nat i with
    | Some p => Ok p
    | None => Fault
    end
  else Fault.

Definition set_pointer (pointers : list Z) (block_name : Z) (p : Z) : outcome (list Z) :=
  let i := block_name - CHAR_a in
  if (0 <=? i) && (i <? MAX_POINTERS) && (i <? Z.of_nat (length pointers))
  then Ok (<[Z.to_nat i := p]> pointers)
  else Fault.

(** The loop that fills the payload with spaces: [j] is an int, compared
    with the size_t [block_size] as an unsigned number. *)
Fixpoint fill_loop (fuel : nat) (target block_size j : Z) (s : state) : outcome state :=
  match fuel with
  | O => OutOfFuel
  | S fuel' =>
      if wrap64 j <? block_size then
        s' ← store_bytes s (ptr_add target j) [CHAR_SPACE];
        fill_loop fuel' target block_size (to_int (j + 1)) s'
      else Ok s
  end.

Definition print_blocks (fuel : nat) (s : state) : outcome (list event) :=
  ls ← mm_print fuel s; Ok (map PrintBlock ls).

(** One turn of the loop over the operations. *)
Definition run_operation (fuel : nat) (op : operation) (s : state) (pointers : list Z)
  : outcome (list event * state * list Z) :=
  if operation_type op =? OPERATION_TYPE_MALLOC then
    let block_name := pointer_char op in
    let block_size := wrap64 (malloc_size op) in
    p ← get_pointer pointers block_name;
    if negb (p =? NULL) then
      Ok ([PrintMalloc block_name (to_long block_size); PrintMallocError block_name],
          s, pointers)
    else
      r ← mm_malloc fuel block_size s;
      let '(target, s1) := r in
      s2 ← (if negb (target =? NULL) then fill_loop fuel target block_size 0 s1
            else Ok s1);
      pointers' ← set_pointer pointers block_name target;
      out ← print_blocks fuel s2;
      Ok (PrintMalloc block_name (to_long block_size) :: out, s2, pointers')
  else if operation_type op =? OPERATION_TYPE_FREE then
    let block_name := pointer_char op in
    p ← get_pointer pointers block_name;
    if p =? NULL then
      Ok ([PrintFree block_name; PrintFreeError block_name], s, pointers)
    else
      s1 ← mm_free p s;
      pointers' ← set_pointer pointers block_name NULL;
      out ← print_blocks fuel s1;
      Ok (PrintFree block_name :: out, s1, pointers')
  else if operation_type op =? OPERATION_TYPE_COMBINE_NEARBY_FREE then
    s1 ← mm_combine_nearby_free fuel s;
    out ← print_blocks fuel s1;
    Ok (PrintCombine :: out, s1, pointers)
  else Ok ([], s, pointers).

Fixpoint run_operations (fuel : nat) (ops : list operation) (s : state) (pointers : list Z)
  : outcome (list event * state * list Z) :=
  match ops with
  | [] => Ok ([], s, pointers)
  | op :: ops' =>
      r ← run_operation fuel op s pointers;
      let '(out, s1, pointers1) := r in
      r' ← run_operations fuel ops' s1 pointers1;
      let '(out', s2, pointers2) := r' in
      Ok (out ++ out', s2, pointers2)
  end.

(** [main] from the call of mmap on, [base] being what mmap returned and
    [page] the size of a page. *)
Definition main_run (fuel : nat) (page base : Z) (ops : list operation)
  : outcome (list event * state * list Z) :=
  if base =? MAP_FAILED then
    Ok ([PrintMmapError], uninitialised, replicate (Z.to_nat MAX_POINTERS) NULL)
  else run_operations fuel ops (initial_paged page base)
         (replicate (Z.to_nat MAX_POINTERS) NULL).

(** ** Requests that were served

    [main] does not look at what [mm_malloc] did.  A turn is served when it
    does not call [mm_malloc], or when the payload [mm_malloc] returned for
    it lies below the break; a run is served when each of its turns is. *)
Definition turn_served (fuel : nat) (op : operation) (s : state) (pointers : list Z)
  : bool :=
  if operation_type op =? OPERATION_TYPE_MALLOC then
    match get_pointer pointers (pointer_char op) with
    | Ok p =>
        if p =? NULL then
          match mm_malloc fuel (wrap64 (malloc_size op)) s with
          | Ok (target, s1) =>
              target + wrap64 (malloc_size op) <=? heap_current_break s1
          | _ => true
          end
        else true
    | _ => true
    end
  else true.

Fixpoint served (fuel : nat) (ops : list operation) (s : state) (pointers : list Z)
  : bool :=
  match ops with
  | [] => true
  | op :: ops' =>
      turn_served fuel op s pointers &&
      match run_operation fuel op s pointers with
      | Ok (_, s1, pointers1) => served fuel ops' s1 pointers1
      | _ => true
      end
  end.

(** ** What main's table of pointers holds *)

(** Every pointer of the table that is not NULL is the payload of a block
    of the list that is not free, and no two entries hold the same one. *)
Definition table_ok (s : state) (bl : list block) (pointers : list Z) : Prop :=
  length pointers = Z.to_nat MAX_POINTERS /\
  (forall (k : nat) p, pointers !! k = Some p -> p <> NULL ->
     exists b, In (p - meta_data_size, b) (addressed (heap_start s) bl) /\
               is_free b = false) /\
  (forall (k1 k2 : nat) p, k1 <> k2 ->
     pointers !! k1 = Some p -> pointers !! k2 = Some p -> p = NULL).

(** What holds between two turns of the loop of [main]: the arena is one
    that the calls of [main] can produce, and the table of pointers agrees
    with its block list. *)
Definition main_inv (s : state) (pointers : list Z) : Prop :=
  reachable s /\ exists bl, wf s bl /\ table_ok s bl pointers.

(** ** A run of main

    The input
      5 / malloc a 10 / malloc b 5 / free a / malloc c 3 / combine_nearby_free
    as [main] holds it after the first loop.  The entries of [pointer_chars]
    and [malloc_sizes] that the first loop does not write are given as 0. *)

Definition op_malloc (block_name size : Z) : operation :=
  mkOperation OPERATION_TYPE_MALLOC block_name size.
Definition op_free (block_name : Z) : operation :=
  mkOperation OPERATION_TYPE_FREE block_name 0.
Definition op_combine : operation :=
  mkOperation OPERATION_TYPE_COMBINE_NEARBY_FREE 0 0.

Definition scenario_ops : list operation :=
  [op_malloc 97 10; op_malloc 98 5; op_free 97; op_malloc 99 3; op_combine].

Definition no_pointers : list Z := replicate (Z.to_nat MAX_POINTERS) NULL.

(** The arena and the table of pointers at the end of that run. *)
Definition scenario_state : state :=
  match main_run 12 PAGE_SIZE base0 scenario_ops with
  | Ok (_, s, _) => s
  | _ => initial base0
  end.

Definition scenario_pointers : list Z :=
  match main_run 12 PAGE_SIZE base0 scenario_ops with
  | Ok (_, _, pointers) => pointers
  | _ => no_pointers
  end.

(** The addresses of the size fields of the free blocks of a list. *)
Fixpoint free_size_fields (a : Z) (bl : list block) : list Z :=
  match bl with
  | [] => []
  | b :: bl' =>
      (if is_free b then [a] else []) ++ free_size_fields (a + footprint b) bl'
  end.

(** No two neighbours of the list are both free. *)
Fixpoint no_free_neighbours (bl : list block) : Prop :=
  match bl with
  | b1 :: bl' =>
      match bl' with
      | b2 :: _ => ~ (is_free b1 = true /\ is_free b2 = true)
      | [] => True
      end /\ no_free_neighbours bl'
  | [] => True
  end.

(** * Tactics *)

Ltac globals_lia :=
  repeat match goal with
         | H : same_globals _ _ |- _ => destruct H as (?&?&?&?)
         end;
  lia.

(** Takes the first step of a run that ended well: the step ended well
    too. *)
Tactic Notation "bind_step" ident(x) ident(E) :=
  lazymatch goal with
  | |- (?m ≫= _) = Ok _ -> _ =>
      destruct m as [x| |] eqn:E;
      [lazymatch goal with
       | |- (Ok ?a ≫= ?f) = ?r -> ?G => change (f a = r -> G); cbv beta
       end
      |done|done]
  end.

(** Evaluates a closed statement about a concrete arena. *)
Ltac evaluate :=
  vm_compute;
  repeat match goal with
         | |- _ /\ _ => split
         | |- True => exact I
         | |- _ = _ => reflexivity
         | |- _ -> False => let H := fresh in intros H; discriminate H
         | |- Forall _ _ => constructor
         | |- _ \/ _ => first [left; reflexivity | right; reflexivity]
         end.

(** * The proofs

    ** Facts about machine arithmetic *)

Lemma wrap64_small v : 0 <= v < modulus64 -> wrap64 v = v.
Proof. intros H. unfold wrap64. apply Z.mod_small. exact H. Qed.

Lemma wrap64_range v : 0 <= wrap64 v < modulus64.
Proof. unfold wrap64, modulus64. apply Z.mod_pos_bound. lia. Qed.

Lemma ptr_add_small p d : 0 <= p + d < modulus64 -> ptr_add p d = p + d.
Proof. apply wrap64_small. Qed.

Lemma size_add_small a b : 0 <= a + b < modulus64 -> size_add a b = a + b.
Proof. apply wrap64_small. Qed.

Lemma size_sub_small a b : 0 <= a - b < modulus64 -> size_sub a b = a - b.
Proof. apply wrap64_small. Qed.

Lemma to_int_small v : is_int v -> to_int v = v.
Proof.
  unfold is_int, to_int, modulus32. intros H.
  rewrite Z.mod_small by lia. lia.
Qed.

Lemma to_int_range v : is_int (to_int v).
Proof.
  unfold is_int, to_int, modulus32.
  pose proof (Z.mod_pos_bound (v + 2 ^ 31) (2 ^ 32)). lia.
Qed.

Lemma to_long_small v : - 2 ^ 63 <= v < 2 ^ 63 -> to_long v = v.
Proof.
  unfold to_long, modulus64. intros H.
  rewrite Z.mod_small by lia. lia.
Qed.

(** ** Facts about the byte encoding *)

Lemma length_le_encode n v : length (le_encode n v) = n.
Proof. revert v. induction n as [|n IH]; intros v; simpl; [done|]. by rewrite IH. Qed.

Lemma le_decode_encode n v : le_decode (le_encode n v) = v mod 256 ^ Z.of_nat n.
Proof.
  revert v. induction n as [|n IH]; intros v.
  - simpl. by rewrite Z.mod_1_r.
  - cbn [le_encode le_decode]. rewrite IH.
    rewrite Nat2Z.inj_succ, Z.pow_succ_r by lia.
    rewrite (Z.rem_mul_r v 256 (256 ^ Z.of_nat n)) by lia. lia.
Qed.

Lemma le_decode_encode_size v : is_size v -> le_decode (le_encode 8 v) = v.
Proof.
  intros H. rewrite le_decode_encode. apply Z.mod_small. exact H.
Qed.

(** ** Facts about loads and stores *)

Lemma in_mapping_true s a n :
  in_mapping s a n = true <->
  heap_start s <= a /\ a + Z.of_nat n <= heap_start s + Z.of_nat (length (heap s)).
Proof. unfold in_mapping. apply bool_decide_eq_true. Qed.

Lemma load_bytes_Ok s a n bs :
  load_bytes s a n = Ok bs ->
  heap_start s <= a /\ a + Z.of_nat n <= heap_start s + Z.of_nat (length (heap s)).
Proof.
  unfold load_bytes. destruct (in_mapping s a n) eqn:E; [|done].
  intros _. by apply in_mapping_true.
Qed.

Lemma store_bytes_Ok s a bs s' :
  store_bytes s a bs = Ok s' ->
  s' = set_heap s (list_inserts (offset s a) bs (heap s)) /\
  heap_start s <= a /\
  a + Z.of_nat (length bs) <= heap_start s + Z.of_nat (length (heap s)).
Proof.
  unfold store_bytes. destruct (in_mapping s a (length bs)) eqn:E; [|done].
  intros [= <-]. split; [done|]. by apply in_mapping_true.
Qed.

Lemma store_bytes_in_mapping s a bs :
  heap_start s <= a ->
  a + Z.of_nat (length bs) <= heap_start s + Z.of_nat (length (heap s)) ->
  store_bytes s a bs = Ok (set_heap s (list_inserts (offset s a) bs (heap s))).
Proof.
  intros H1 H2. unfold store_bytes.
  assert (in_mapping s a (length bs) = true) as -> by (apply in_mapping_true; lia).
  done.
Qed.

Lemma store_bytes_globals s a bs s' :
  store_bytes s a bs = Ok s' ->
  heap_start s' = heap_start s /\ heap_end s' = heap_end s /\
  heap_current_break s' = heap_current_break s /\
  length (heap s') = length (heap s).
Proof.
  intros H. apply store_bytes_Ok in H as (-> & _ & _). simpl.
  by rewrite length_inserts.
Qed.

Lemma load_store_same s a bs s' :
  store_bytes s a bs = Ok s' -> load_bytes s' a (length bs) = Ok bs.
Proof.
  intros H. apply store_bytes_Ok in H as (-> & H1 & H2).
  unfold load_bytes.
  assert (in_mapping (set_heap s (list_inserts (offset s a) bs (heap s))) a (length bs) = true)
    as ->.
  { apply in_mapping_true. simpl. rewrite length_inserts. lia. }
  f_equal. unfold offset. simpl.
  apply list_eq. intros i.
  destruct (decide (i < length bs)%nat) as [Hi|Hi].
  - rewrite lookup_take_lt by done. rewrite lookup_drop.
    rewrite list_lookup_inserts by lia. f_equal. lia.
  - rewrite lookup_take_ge by lia. symmetry. apply lookup_ge_None. lia.
Qed.

Lemma load_store_other s a bs s' b n :
  store_bytes s a bs = Ok s' ->
  b + Z.of_nat n <= a \/ a + Z.of_nat (length bs) <= b ->
  load_bytes s' b n = load_bytes s b n.
Proof.
  intros H Hd. apply store_bytes_Ok in H as (-> & H1 & H2).
  unfold load_bytes.
  assert (in_mapping (set_heap s (list_inserts (offset s a) bs (heap s))) b n = in_mapping s b n)
    as ->.
  { unfold in_mapping. simpl. by rewrite length_inserts. }
  destruct (in_mapping s b n) eqn:E; [|done].
  apply in_mapping_true in E as [E1 E2].
  f_equal. unfold offset. simpl.
  apply list_eq. intros i.
  destruct (decide (i < n)%nat) as [Hi|Hi].
  - rewrite !lookup_take_lt by done. rewrite !lookup_drop.
    destruct Hd as [Hd|Hd].
    + apply list_lookup_inserts_lt. lia.
    + apply list_lookup_inserts_ge. lia.
  - by rewrite !lookup_take_ge by lia.
Qed.

Lemma list_inserts_id (l k : list Z) i :
  take (length k) (drop i l) = k -> list_inserts i k l = l.
Proof.
  intros H. apply list_eq. intros j.
  destruct (decide (j < i)%nat) as [Hj|Hj].
  { by rewrite list_lookup_inserts_lt. }
  destruct (decide (i + length k <= j)%nat) as [Hk|Hk].
  { by rewrite list_lookup_inserts_ge. }
  assert (j < length l)%nat as Hl.
  { apply (f_equal length) in H. rewrite length_take, length_drop in H. lia. }
  rewrite list_lookup_inserts by lia.
  rewrite <- H at 1. rewrite lookup_take_lt by lia. rewrite lookup_drop.
  f_equal. lia.
Qed.

Lemma store_bytes_id s a bs :
  load_bytes s a (length bs) = Ok bs -> store_bytes s a bs = Ok s.
Proof.
  unfold load_bytes, store_bytes.
  destruct (in_mapping s a (length bs)); [|done].
  intros [= H]. rewrite list_inserts_id by done. by destruct s.
Qed.

Lemma load_bytes_set_break s b a n : load_bytes (set_break s b) a n = load_bytes s a n.
Proof. reflexivity. Qed.

Lemma bind_Ok {A B} (a : A) (f : A -> outcome B) : (Ok a ≫= f) = f a.
Proof. reflexivity. Qed.

(** ** The block list an arena holds *)

Lemma same_bytes_refl s lo hi : same_bytes s s lo hi.
Proof. by intros b n _ _. Qed.

Lemma same_bytes_mono s s' lo hi lo' hi' :
  same_bytes s s' lo hi -> lo <= lo' -> hi' <= hi -> same_bytes s s' lo' hi'.
Proof. intros H ? ? b n ? ?. apply H; lia. Qed.

Lemma same_bytes_trans s1 s2 s3 lo hi :
  same_bytes s1 s2 lo hi -> same_bytes s2 s3 lo hi -> same_bytes s1 s3 lo hi.
Proof. intros H12 H23 b n ? ?. rewrite H23, H12; auto. Qed.

Lemma same_bytes_store s a bs s' lo hi :
  store_bytes s a bs = Ok s' ->
  hi <= a \/ a + Z.of_nat (length bs) <= lo ->
  same_bytes s s' lo hi.
Proof.
  intros H Hd b n ? ?. eapply load_store_other; [exact H|]. lia.
Qed.

Lemma same_bytes_set_break s b lo hi : same_bytes s (set_break s b) lo hi.
Proof. by intros a n _ _. Qed.

Lemma header_at_same_bytes s s' a b :
  same_bytes s s' a (a + meta_data_size) -> header_at s a b -> header_at s' a b.
Proof.
  unfold meta_data_size, header_at, load_status, load_size.
  intros H (H1 & H2 & H3).
  rewrite !H by lia. done.
Qed.

Lemma span_nonneg s a bl : layout s a bl -> 0 <= span bl.
Proof.
  revert a. induction bl as [|b bl IH]; intros a; simpl; [lia|].
  intros [(_ & _ & Hb) Hl]. apply IH in Hl. unfold footprint, meta_data_size. lia.
Qed.

Lemma layout_same_bytes s s' a bl :
  same_bytes s s' a (a + span bl) -> layout s a bl -> layout s' a bl.
Proof.
  revert a. induction bl as [|b bl IH]; intros a Hs; simpl; [done|].
  intros [Hh Hl]. pose proof (span_nonneg _ _ _ Hl) as Hn.
  pose proof Hh as (_ & _ & Hb).
  simpl in Hs. unfold footprint, meta_data_size in *. split.
  - eapply header_at_same_bytes; [|exact Hh].
    eapply same_bytes_mono; [exact Hs| |]; unfold meta_data_size; lia.
  - apply IH; [|exact Hl].
    eapply same_bytes_mono; [exact Hs| |]; lia.
Qed.

Lemma layout_app s a l1 l2 :
  layout s a (l1 ++ l2) <-> layout s a l1 /\ layout s (a + span l1) l2.
Proof.
  revert a. induction l1 as [|b l1 IH]; intros a; simpl.
  - rewrite Z.add_0_r. tauto.
  - rewrite IH, Z.add_assoc. tauto.
Qed.

Lemma span_app l1 l2 : span (l1 ++ l2) = span l1 + span l2.
Proof. induction l1 as [|b l1 IH]; simpl; lia. Qed.

Lemma header_at_in_mapping s a b :
  header_at s a b ->
  heap_start s <= a /\ a + meta_data_size <= heap_start s + Z.of_nat (length (heap s)).
Proof.
  unfold header_at, load_status, load_size, meta_data_size. intros (H1 & H2 & _).
  destruct (load_bytes s (a + 8) 1) eqn:E1; try done.
  destruct (load_bytes s a 8) eqn:E2; try done.
  apply load_bytes_Ok in E1, E2. lia.
Qed.

(** Determinism of the walk: a state has one block list. *)
Lemma layout_unique s a l1 l2 :
  layout s a l1 -> layout s a l2 -> span l1 = span l2 -> l1 = l2.
Proof.
  revert a l2. induction l1 as [|b1 l1 IH]; intros a [|b2 l2]; simpl.
  - done.
  - intros _ [(_ & _ & H) Hl] E. apply span_nonneg in Hl.
    unfold footprint, meta_data_size in E. lia.
  - intros [(_ & _ & H) Hl] _ E. apply span_nonneg in Hl.
    unfold footprint, meta_data_size in E. lia.
  - intros [(Hs1 & Hz1 & _) Hl1] [(Hs2 & Hz2 & _) Hl2] E.
    assert (b1 = b2) as ->.
    { destruct b1, b2; simpl in *. congruence. }
    f_equal. apply (IH _ _ Hl1 Hl2). lia.
Qed.

(** ** Stores to a header *)

Lemma store_size_spec s a v s' :
  store_size s a v = Ok s' -> is_size v ->
  load_size s' a = Ok v /\
  load_status s' a = load_status s a /\
  (forall lo hi, hi <= a \/ a + 8 <= lo -> same_bytes s s' lo hi) /\
  heap_start s' = heap_start s /\ heap_end s' = heap_end s /\
  heap_current_break s' = heap_current_break s /\
  length (heap s') = length (heap s).
Proof.
  unfold store_size. intros H Hv.
  pose proof (store_bytes_globals _ _ _ _ H) as (G1 & G2 & G3 & G4).
  repeat split; try done.
  - unfold load_size.
    pose proof (load_store_same _ _ _ _ H) as L.
    rewrite length_le_encode in L. rewrite L, bind_Ok.
    by rewrite le_decode_encode_size.
  - unfold load_status. erewrite load_store_other; [done|exact H|].
    rewrite length_le_encode. lia.
  - intros lo hi Hd. eapply same_bytes_store; [exact H|].
    rewrite length_le_encode. lia.
Qed.

Lemma store_status_spec s a c s' :
  store_status s a c = Ok s' ->
  load_status s' a = Ok c /\
  load_size s' a = load_size s a /\
  (forall lo hi, hi <= a + 8 \/ a + 9 <= lo -> same_bytes s s' lo hi) /\
  heap_start s' = heap_start s /\ heap_end s' = heap_end s /\
  heap_current_break s' = heap_current_break s /\
  length (heap s') = length (heap s).
Proof.
  unfold store_status. intros H.
  pose proof (store_bytes_globals _ _ _ _ H) as (G1 & G2 & G3 & G4).
  repeat split; try done.
  - unfold load_status.
    pose proof (load_store_same _ _ _ _ H) as L. simpl in L.
    rewrite L. simpl. f_equal. lia.
  - unfold load_size. erewrite load_store_other; [done|exact H|].
    simpl. lia.
  - intros lo hi Hd. eapply same_bytes_store; [exact H|].
    simpl. lia.
Qed.

Lemma store_size_in_mapping s a v :
  heap_start s <= a ->
  a + 8 <= heap_start s + Z.of_nat (length (heap s)) ->
  exists s', store_size s a v = Ok s'.
Proof.
  intros H1 H2. unfold store_size. eexists. apply store_bytes_in_mapping.
  - exact H1.
  - rewrite length_le_encode. lia.
Qed.

Lemma store_status_in_mapping s a c :
  heap_start s <= a + 8 ->
  a + 9 <= heap_start s + Z.of_nat (length (heap s)) ->
  exists s', store_status s a c = Ok s'.
Proof.
  intros H1 H2. unfold store_status. eexists. apply store_bytes_in_mapping.
  - exact H1.
  - simpl. lia.
Qed.

Lemma store_status_id s a c :
  load_status s a = Ok c -> store_status s a c = Ok s.
Proof.
  unfold load_status, store_status. intros H.
  apply store_bytes_id. simpl.
  destruct (load_bytes s (a + 8) 1) as [bs| |] eqn:E; try done.
  simpl in H. injection H as H.
  assert (length bs = 1%nat) as Hlen.
  { unfold load_bytes in E. destruct (in_mapping s (a + 8) 1) eqn:Ein; [|done].
    injection E as <-. apply in_mapping_true in Ein.
    rewrite length_take, length_drop. unfold offset. lia. }
  destruct bs as [|b [|? ?]]; try done. simpl in H. f_equal. f_equal. lia.
Qed.

Lemma layout_replace s s' a pre mid mid' post :
  layout s a (pre ++ mid ++ post) ->
  span mid' = span mid ->
  (forall lo hi, hi <= a + span pre \/ a + span pre + span mid <= lo -> same_bytes s s' lo hi) ->
  layout s' (a + span pre) mid' ->
  layout s' a (pre ++ mid' ++ post).
Proof.
  intros Hl Hsp Hfr Hmid.
  apply layout_app in Hl as [Hpre Hl]. apply layout_app in Hl as [_ Hpost].
  apply layout_app. split; [|apply layout_app; split].
  - eapply layout_same_bytes; [|exact Hpre]. apply Hfr. lia.
  - exact Hmid.
  - rewrite Hsp. eapply layout_same_bytes; [|exact Hpost]. apply Hfr. lia.
Qed.

(** ** mm_sbrk on a placed arena *)

Lemma arena_ok_initialised s :
  arena_ok s ->
  (heap_start s =? NULL) || (heap_end s =? NULL) || (heap_current_break s =? NULL) = false.
Proof.
  unfold arena_ok, NULL. intros (H1 & H2 & H3 & H4 & H5).
  rewrite !orb_false_iff, !Z.eqb_neq. lia.
Qed.

Lemma mm_sbrk_zero s : arena_ok s -> mm_sbrk 0 s = (heap_current_break s, s).
Proof. intros H. unfold mm_sbrk. by rewrite arena_ok_initialised. Qed.

Lemma mm_sbrk_grow s d :
  arena_ok s -> 0 < d -> heap_current_break s + d <= heap_end s ->
  mm_sbrk d s = (heap_current_break s, set_break s (heap_current_break s + d)).
Proof.
  intros H Hd Hle. unfold mm_sbrk. rewrite arena_ok_initialised by done.
  pose proof H as (H1 & H2 & H3 & H4 & H5). unfold modulus64 in H3.
  rewrite ptr_add_small by (unfold modulus64; lia).
  assert ((d =? 0) = false) as -> by (apply Z.eqb_neq; lia).
  assert ((0 <? d) = true) as -> by (apply Z.ltb_lt; lia).
  assert ((heap_current_break s + d <=? heap_end s) = true) as -> by (apply Z.leb_le; lia).
  done.
Qed.

Lemma mm_sbrk_grow_fail s d :
  arena_ok s -> is_int d -> 0 < d -> heap_end s < heap_current_break s + d ->
  mm_sbrk d s = (MAP_FAILED, s).
Proof.
  intros H Hi Hd Hle. unfold mm_sbrk. rewrite arena_ok_initialised by done.
  pose proof H as (H1 & H2 & H3 & H4 & H5). unfold modulus64 in H3.
  unfold is_int in Hi.
  rewrite ptr_add_small by (unfold modulus64; lia).
  assert ((d =? 0) = false) as -> by (apply Z.eqb_neq; lia).
  assert ((d <? 0) = false) as -> by (apply Z.ltb_ge; lia).
  assert ((heap_current_break s + d <=? heap_end s) = false) as -> by (apply Z.leb_gt; lia).
  by rewrite andb_false_r.
Qed.

Lemma mm_sbrk_shrink s d :
  arena_ok s -> is_int d -> d < 0 -> heap_start s <= heap_current_break s + d ->
  mm_sbrk d s = (heap_current_break s, set_break s (heap_current_break s + d)).
Proof.
  intros H Hi Hd Hle. unfold mm_sbrk. rewrite arena_ok_initialised by done.
  pose proof H as (H1 & H2 & H3 & H4 & H5). unfold modulus64 in H3.
  unfold is_int in Hi.
  rewrite ptr_add_small by (unfold modulus64; lia).
  assert ((d =? 0) = false) as -> by (apply Z.eqb_neq; lia).
  assert ((0 <? d) = false) as -> by (apply Z.ltb_ge; lia).
  assert ((d <? 0) = true) as -> by (apply Z.ltb_lt; lia).
  assert ((heap_start s <=? heap_current_break s + d) = true) as -> by (apply Z.leb_le; lia).
  done.
Qed.

Lemma mm_sbrk_shrink_fail s d :
  arena_ok s -> is_int d -> d < 0 -> heap_current_break s + d < heap_start s ->
  mm_sbrk d s = (MAP_FAILED, s).
Proof.
  intros H Hi Hd Hle. unfold mm_sbrk. rewrite arena_ok_initialised by done.
  pose proof H as (H1 & H2 & H3 & H4 & H5). unfold modulus64 in H3.
  unfold is_int in Hi.
  rewrite ptr_add_small by (unfold modulus64; lia).
  assert ((d =? 0) = false) as -> by (apply Z.eqb_neq; lia).
  assert ((0 <? d) = false) as -> by (apply Z.ltb_ge; lia).
  assert ((heap_start s <=? heap_current_break s + d) = false) as -> by (apply Z.leb_gt; lia).
  by rewrite andb_false_r.
Qed.

Lemma mm_sbrk_uninitialised s d :
  heap_start s = NULL \/ heap_end s = NULL \/ heap_current_break s = NULL ->
  mm_sbrk d s = (MAP_FAILED, s).
Proof.
  intros H. unfold mm_sbrk.
  assert ((heap_start s =? NULL) || (heap_end s =? NULL) || (heap_current_break s =? NULL) = true)
    as ->; [|done].
  rewrite !orb_true_iff, !Z.eqb_eq. tauto.
Qed.

(** Whatever the request, [mm_sbrk] either leaves the state alone or moves
    the break by the request, inside the arena. *)
Lemma mm_sbrk_cases s d :
  arena_ok s -> is_int d ->
  (mm_sbrk d s = (MAP_FAILED, s) /\ d <> 0) \/
  (mm_sbrk d s = (heap_current_break s, set_break s (heap_current_break s + d)) /\
   heap_start s <= heap_current_break s + d <= heap_end s).
Proof.
  intros H Hi. pose proof H as (H1 & H2 & H3 & H4 & H5).
  destruct (Z.lt_trichotomy d 0) as [Hd|[->|Hd]].
  - destruct (Z.le_gt_cases (heap_start s) (heap_current_break s + d)).
    + right. split; [by apply mm_sbrk_shrink|lia].
    + left. split; [by apply mm_sbrk_shrink_fail|lia].
  - right. rewrite mm_sbrk_zero by done. rewrite Z.add_0_r. split; [by destruct s|lia].
  - destruct (Z.le_gt_cases (heap_current_break s + d) (heap_end s)).
    + right. split; [by apply mm_sbrk_grow|lia].
    + left. split; [by apply mm_sbrk_grow_fail|lia].
Qed.

(** ** The walk of mm_print *)

Lemma mm_print_loop_S fuel s brk cur i :
  mm_print_loop (S fuel) s brk cur i =
  if cur <? brk then
    st ← load_status s cur;
    sz ← load_size s cur;
    let l := mkLine i
               (if st =? META_DATA_STATUS_FREE then "FREE" else "OCCP")
               (to_long sz)
               (if sz =? 1 then "byte" else "bytes") in
    r ← mm_print_loop fuel s brk (ptr_add cur (size_add meta_data_size sz)) (to_int (i + 1));
    Ok (l :: r.1, r.2)
  else Ok ([], cur).
Proof. reflexivity. Qed.

(** One step of a walk: the next header is [footprint b] further, no
    wrap-around on the way. *)
Lemma next_header cur brk b rest s a :
  layout s a rest -> 0 <= cur -> 0 <= block_size b ->
  cur + footprint b + span rest <= brk -> brk < modulus64 ->
  cur < brk /\
  ptr_add cur (size_add meta_data_size (block_size b)) = cur + footprint b /\
  ptr_add (ptr_add cur meta_data_size) (block_size b) = cur + footprint b.
Proof.
  intros Hl Hc Hb Hle Hbrk. apply span_nonneg in Hl.
  unfold footprint, meta_data_size in *.
  rewrite (size_add_small 9 (block_size b)) by lia.
  rewrite (ptr_add_small cur 9) by lia.
  rewrite !ptr_add_small by lia.
  lia.
Qed.

Lemma mm_print_loop_layout s brk bl : forall fuel cur i,
  layout s cur bl -> 0 <= cur -> cur + span bl = brk -> brk < modulus64 ->
  mm_print_loop (S (length bl + fuel)) s brk cur i = Ok (lines_of i bl, brk).
Proof.
  induction bl as [|b bl IH]; intros fuel cur i Hl Hc Hsp Hbrk.
  - simpl in Hsp. rewrite mm_print_loop_S.
    assert ((cur <? brk) = false) as -> by (apply Z.ltb_ge; lia).
    f_equal. f_equal. lia.
  - destruct Hl as [(Hst & Hsz & Hnn) Hl]. simpl in Hsp.
    destruct (next_header cur brk b bl s _ Hl) as (Hlt & Hnext & _); try lia.
    rewrite mm_print_loop_S.
    assert ((cur <? brk) = true) as -> by (apply Z.ltb_lt; lia).
    rewrite Hst, bind_Ok, Hsz, bind_Ok. cbv zeta.
    rewrite Hnext. change (length (b :: bl) + fuel)%nat with (S (length bl + fuel)).
    rewrite (IH fuel _ _ Hl) by (unfold footprint, meta_data_size in *; lia).
    done.
Qed.

(** ** The scan of mm_malloc *)

Lemma mm_malloc_loop_S fuel size brk cur lastBlock s :
  mm_malloc_loop (S fuel) size brk cur lastBlock s =
  if cur <? brk then
    st ← load_status s cur;
    fits ← (if st =? META_DATA_STATUS_FREE
            then sz ← load_size s cur; Ok (size <=? sz)
            else Ok false);
    if (fits : bool) then mm_malloc_take size cur s
    else
      sz ← load_size s cur;
      mm_malloc_loop fuel size brk (ptr_add cur (size_add meta_data_size sz)) cur s
  else mm_malloc_grow size lastBlock s.
Proof. reflexivity. Qed.

Lemma mm_malloc_loop_skip size brk s bl : forall fuel cur lastBlock,
  layout s cur bl -> 0 <= cur -> cur + span bl <= brk -> brk < modulus64 ->
  Forall (fun b => fits size b = false) bl ->
  mm_malloc_loop (length bl + fuel) size brk cur lastBlock s =
  mm_malloc_loop fuel size brk (cur + span bl) (last_header cur lastBlock bl) s.
Proof.
  induction bl as [|b bl IH]; intros fuel cur lastBlock Hl Hc Hsp Hbrk Hno.
  - simpl. by rewrite Z.add_0_r.
  - destruct Hl as [(Hst & Hsz & Hnn) Hl]. simpl in Hsp.
    apply Forall_cons in Hno as [Hb Hno].
    destruct (next_header cur brk b bl s _ Hl) as (Hlt & Hnext & _); try lia.
    change (length (b :: bl) + fuel)%nat with (S (length bl + fuel)).
    rewrite mm_malloc_loop_S.
    assert ((cur <? brk) = true) as -> by (apply Z.ltb_lt; lia).
    rewrite Hst, bind_Ok.
    assert ((if block_status b =? META_DATA_STATUS_FREE
             then sz ← load_size s cur; Ok (size <=? sz)
             else Ok false) = Ok false) as ->.
    { unfold fits, is_free in Hb.
      destruct (block_status b =? META_DATA_STATUS_FREE); [|done].
      rewrite Hsz, bind_Ok. simpl in Hb. by rewrite Hb. }
    rewrite bind_Ok, Hsz, bind_Ok, Hnext.
    rewrite (IH fuel _ cur Hl) by (done || unfold footprint, meta_data_size in *; lia).
    simpl. f_equal. lia.
Qed.

Lemma mm_malloc_loop_hit fuel size brk cur lastBlock s b :
  header_at s cur b -> cur < brk -> fits size b = true ->
  mm_malloc_loop (S fuel) size brk cur lastBlock s = mm_malloc_take size cur s.
Proof.
  intros (Hst & Hsz & Hnn) Hlt Hb. rewrite mm_malloc_loop_S.
  assert ((cur <? brk) = true) as -> by (apply Z.ltb_lt; lia).
  rewrite Hst, bind_Ok. unfold fits, is_free in Hb.
  apply andb_true_iff in Hb as [-> Hb]. cbv iota.
  rewrite Hsz, !bind_Ok, Hb. done.
Qed.

Lemma mm_malloc_loop_exit fuel size brk lastBlock s :
  mm_malloc_loop (S fuel) size brk brk lastBlock s = mm_malloc_grow size lastBlock s.
Proof. rewrite mm_malloc_loop_S. by rewrite Z.ltb_irrefl. Qed.

(** ** Frames: what a run of stores leaves alone *)

Lemma same_globals_refl s : same_globals s s.
Proof. by repeat split. Qed.

Lemma same_globals_trans s1 s2 s3 :
  same_globals s1 s2 -> same_globals s2 s3 -> same_globals s1 s3.
Proof. unfold same_globals. intros (?&?&?&?) (?&?&?&?). repeat split; congruence. Qed.

Lemma frame_refl s lo hi : frame s s lo hi.
Proof. intros l h _. apply same_bytes_refl. Qed.

Lemma frame_mono s s' lo hi lo' hi' :
  frame s s' lo hi -> lo' <= lo -> hi <= hi' -> frame s s' lo' hi'.
Proof. intros H ? ? l h ?. apply H. lia. Qed.

Lemma frame_trans s1 s2 s3 lo hi :
  frame s1 s2 lo hi -> frame s2 s3 lo hi -> frame s1 s3 lo hi.
Proof. intros H12 H23 l h ?. eapply same_bytes_trans; [apply H12|apply H23]; done. Qed.

Lemma store_size_frame s a v s' :
  store_size s a v = Ok s' -> is_size v ->
  same_globals s s' /\ frame s s' a (a + 8) /\
  load_size s' a = Ok v /\ load_status s' a = load_status s a.
Proof.
  intros H Hv. destruct (store_size_spec _ _ _ _ H Hv) as (H1 & H2 & H3 & G).
  repeat split; tauto.
Qed.

Lemma store_status_frame s a c s' :
  store_status s a c = Ok s' ->
  same_globals s s' /\ frame s s' (a + 8) (a + 9) /\
  load_status s' a = Ok c /\ load_size s' a = load_size s a.
Proof.
  intros H. destruct (store_status_spec _ _ _ _ H) as (H1 & H2 & H3 & G).
  repeat split; tauto.
Qed.

(** Writing both fields of a header, the size first. *)
Lemma store_header s a v c :
  heap_start s <= a -> a + 9 <= heap_start s + Z.of_nat (length (heap s)) ->
  is_size v ->
  exists s1 s2,
    store_size s a v = Ok s1 /\ store_status s1 a c = Ok s2 /\
    same_globals s s2 /\ frame s s2 a (a + 9) /\
    header_at s2 a (mkBlock v c).
Proof.
  intros H1 H2 Hv.
  destruct (store_size_in_mapping s a v) as [s1 E1]; [lia..|].
  destruct (store_size_frame _ _ _ _ E1 Hv) as (G1 & F1 & Lz1 & Ls1).
  destruct (store_status_in_mapping s1 a c) as [s2 E2].
  { globals_lia. }
  { globals_lia. }
  destruct (store_status_frame _ _ _ _ E2) as (G2 & F2 & Ls2 & Lz2).
  exists s1, s2. repeat split; try done.
  - destruct G1 as (?&?&?&?), G2 as (?&?&?&?). congruence.
  - destruct G1 as (?&?&?&?), G2 as (?&?&?&?). congruence.
  - destruct G1 as (?&?&?&?), G2 as (?&?&?&?). congruence.
  - destruct G1 as (?&?&?&?), G2 as (?&?&?&?). congruence.
  - eapply frame_trans; eapply frame_mono; eauto; lia.
  - simpl. congruence.
  - simpl. unfold is_size in Hv. lia.
Qed.

(** ** Taking a block that fits *)

Lemma span_take_blocks size b : span (take_blocks size b) = footprint b.
Proof.
  unfold take_blocks. destruct (size + meta_data_size <? block_size b); simpl;
    unfold footprint, meta_data_size; simpl; lia.
Qed.

Lemma mm_malloc_take_spec s cur b size :
  header_at s cur b -> 0 <= size <= block_size b ->
  cur + footprint b <= heap_start s + Z.of_nat (length (heap s)) ->
  heap_start s + Z.of_nat (length (heap s)) < modulus64 ->
  0 <= heap_start s ->
  exists s',
    mm_malloc_take size cur s = Ok (cur + meta_data_size, s') /\
    same_globals s s' /\ frame s s' cur (cur + footprint b) /\
    layout s' cur (take_blocks size b).
Proof.
  intros Hh Hsz Hin Hmod Hst0.
  pose proof (header_at_in_mapping _ _ _ Hh) as [Hlo Hhi].
  destruct Hh as (Hst & Hz & Hnn).
  unfold mm_malloc_take, enoughToSplit, take_blocks.
  unfold footprint, meta_data_size in *.
  rewrite Hz, !bind_Ok.
  rewrite (size_add_small size 9) by lia.
  rewrite (ptr_add_small cur 9) by lia.
  destruct (size + 9 <? block_size b) eqn:Esplit.
  - apply Z.ltb_lt in Esplit.
    rewrite (ptr_add_small (cur + 9) size) by lia.
    rewrite (size_sub_small (block_size b) size) by lia.
    rewrite (size_sub_small (block_size b - size) 9) by lia.
    destruct (store_header s (cur + 9 + size) (block_size b - size - 9) META_DATA_STATUS_FREE)
      as (s1 & s2 & E1 & E2 & G2 & F2 & H2); [lia|lia|unfold is_size; lia|].
    rewrite E1, bind_Ok, E2, bind_Ok.
    destruct (store_size_in_mapping s2 cur size) as [s3 E3].
    { globals_lia. }
    { globals_lia. }
    destruct (store_size_frame _ _ _ _ E3) as (G3 & F3 & Lz3 & Ls3); [unfold is_size; lia|].
    rewrite E3, bind_Ok.
    destruct (store_status_in_mapping s3 cur META_DATA_STATUS_OCCUPIED) as [s4 E4].
    { globals_lia. }
    { globals_lia. }
    destruct (store_status_frame _ _ _ _ E4) as (G4 & F4 & Ls4 & Lz4).
    rewrite E4, bind_Ok.
    exists s4. split; [done|]. split; [|split].
    + eauto using same_globals_trans.
    + eapply frame_trans; [|eapply frame_mono; [exact F4|lia..]].
      eapply frame_trans; [|eapply frame_mono; [exact F3|lia..]].
      eapply frame_mono; [exact F2|lia..].
    + simpl. split; [|split; [|done]].
      * repeat split; simpl; [done|congruence|lia].
      * unfold footprint, meta_data_size. simpl.
        replace (cur + (9 + size)) with (cur + 9 + size) by lia.
        eapply header_at_same_bytes; [|exact H2].
        eapply same_bytes_trans; [apply F3|apply F4]; unfold meta_data_size; lia.
  - apply Z.ltb_ge in Esplit.
    destruct (store_status_in_mapping s cur META_DATA_STATUS_OCCUPIED) as [s4 E4]; [lia..|].
    destruct (store_status_frame _ _ _ _ E4) as (G4 & F4 & Ls4 & Lz4).
    rewrite bind_Ok, E4, bind_Ok.
    exists s4. split; [done|]. split; [done|]. split.
    + eapply frame_mono; [exact F4|lia..].
    + simpl. split; [|done]. repeat split; simpl; [done|congruence|lia].
Qed.

(** ** mm_malloc when a block fits *)

Lemma arena_ok_same_globals s s' : same_globals s s' -> arena_ok s -> arena_ok s'.
Proof.
  unfold arena_ok. intros (-> & -> & -> & ->). done.
Qed.

Lemma status_ok_take_blocks size b : Forall status_ok (take_blocks size b).
Proof.
  unfold take_blocks.
  destruct (size + meta_data_size <? block_size b);
    repeat (apply Forall_cons; split); try apply Forall_nil;
    unfold status_ok; simpl; auto.
Qed.

Lemma first_fit_split size bl :
  Forall (fun b => fits size b = false) bl \/
  exists pre b post,
    bl = pre ++ b :: post /\ Forall (fun x => fits size x = false) pre /\ fits size b = true.
Proof.
  induction bl as [|b bl IH]; [by left|].
  destruct (fits size b) eqn:E.
  - right. exists [], b, bl. by repeat split.
  - destruct IH as [IH|(pre & c & post & -> & Hpre & Hc)].
    + left. by constructor.
    + right. exists (b :: pre), c, post. repeat split; [|done]. by constructor.
Qed.

Lemma wf_bounds s bl :
  wf s bl ->
  0 <= heap_start s /\
  heap_start s + Z.of_nat (length (heap s)) < modulus64 /\
  heap_current_break s < modulus64 /\
  heap_current_break s <= heap_start s + Z.of_nat (length (heap s)).
Proof.
  intros ((H1 & H2 & H3 & H4 & H5) & _ & _). unfold modulus64 in *. lia.
Qed.

Lemma mm_malloc_fit s pre b post size fuel :
  wf s (pre ++ b :: post) ->
  Forall (fun x => fits size x = false) pre -> fits size b = true ->
  0 <= size -> (length pre < fuel)%nat ->
  exists s',
    mm_malloc fuel size s = Ok (heap_start s + span pre + meta_data_size, s') /\
    same_globals s s' /\
    frame s s' (heap_start s + span pre) (heap_start s + span pre + footprint b) /\
    wf s' (pre ++ take_blocks size b ++ post).
Proof.
  intros Hwf Hpre Hb Hsize Hfuel.
  pose proof (wf_bounds _ _ Hwf) as (B1 & B2 & B3 & B4).
  destruct Hwf as (Hok & (Hl & Hsp) & Hst).
  pose proof Hl as Hl'. apply layout_app in Hl' as [Hlpre [Hhb Hlpost]].
  pose proof (span_nonneg _ _ _ Hlpre) as Npre.
  pose proof (span_nonneg _ _ _ Hlpost) as Npost.
  rewrite span_app in Hsp. simpl in Hsp.
  assert (0 <= block_size b) as Nb by (destruct Hhb as (_ & _ & ?); done).
  unfold mm_malloc. rewrite mm_sbrk_zero by done. simpl.
  replace fuel with (length pre + S (fuel - S (length pre)))%nat by lia.
  rewrite mm_malloc_loop_skip; [|done|lia| |lia|done].
  2:{ unfold footprint, meta_data_size in *. lia. }
  erewrite mm_malloc_loop_hit; [|exact Hhb| |done].
  2:{ unfold footprint, meta_data_size in *. lia. }
  assert (size <= block_size b) as Hle.
  { unfold fits in Hb. apply andb_true_iff in Hb as [_ Hb]. by apply Z.leb_le. }
  destruct (mm_malloc_take_spec s (heap_start s + span pre) b size)
    as (s' & E & G & F & L); try done; try lia.
  exists s'. split; [done|]. split; [done|]. split; [done|].
  split; [by eapply arena_ok_same_globals|]. split; [split|].
  - destruct G as (-> & _).
    eapply (layout_replace s s' _ pre [b]); [exact Hl|..].
    + rewrite span_take_blocks. simpl. lia.
    + intros lo hi Hd. apply F. simpl in Hd. lia.
    + exact L.
  - destruct G as (-> & _ & -> & _).
    rewrite !span_app, span_take_blocks. lia.
  - apply Forall_app in Hst as [Hst1 Hst2]. apply Forall_cons in Hst2 as [_ Hst2].
    apply Forall_app. split; [done|]. apply Forall_app. split; [|done].
    apply status_ok_take_blocks.
Qed.

(** ** mm_malloc when the arena has to grow *)

Lemma last_header_app a lastBlock bl b :
  last_header a lastBlock (bl ++ [b]) = a + span bl.
Proof.
  revert a lastBlock. induction bl as [|c bl IH]; intros a lastBlock; simpl.
  - lia.
  - rewrite IH. lia.
Qed.

Lemma store_size_outside s a v :
  heap_start s + Z.of_nat (length (heap s)) < a + 8 -> store_size s a v = Fault.
Proof.
  intros H. unfold store_size, store_bytes.
  destruct (in_mapping s a (length (le_encode 8 v))) eqn:E; [|done].
  apply in_mapping_true in E. rewrite length_le_encode in E. lia.
Qed.

Lemma wf_set_break_layout s s' b a bl :
  same_bytes (set_break s b) s' a (a + span bl) -> layout s a bl -> layout s' a bl.
Proof.
  intros H Hl. eapply layout_same_bytes; [exact H|].
  eapply layout_same_bytes; [|exact Hl]. apply same_bytes_set_break.
Qed.

(** The list was empty or its last block occupied: a new block is put at
    the old break. *)
Lemma mm_malloc_grow_new s bl size lastBlock :
  wf s bl -> 0 <= size ->
  lastBlock = NULL \/ load_status s lastBlock = Ok META_DATA_STATUS_OCCUPIED ->
  heap_current_break s + size + meta_data_size <= heap_end s ->
  exists s',
    mm_malloc_grow size lastBlock s = Ok (heap_current_break s + meta_data_size, s') /\
    wf s' (bl ++ [mkBlock size META_DATA_STATUS_OCCUPIED]) /\
    heap_start s' = heap_start s /\ heap_end s' = heap_end s /\
    heap_current_break s' = heap_current_break s + size + meta_data_size /\
    frame s s' (heap_current_break s) (heap_current_break s + meta_data_size).
Proof.
  intros Hwf Hsize Hlast Hroom.
  pose proof (wf_bounds _ _ Hwf) as (B1 & B2 & B3 & B4).
  destruct Hwf as (Hok & (Hl & Hsp) & Hst).
  pose proof Hok as (A1 & A2 & A3 & A4 & A5).
  unfold meta_data_size in *. unfold modulus64 in *.
  unfold mm_malloc_grow.
  assert ((if lastBlock =? NULL then Ok true
           else st ← load_status s lastBlock; Ok (st =? META_DATA_STATUS_OCCUPIED))
          = Ok true) as ->.
  { destruct Hlast as [->|E]; [done|]. destruct (lastBlock =? NULL); [done|].
    by rewrite E. }
  rewrite bind_Ok. unfold meta_data_size.
  rewrite (size_add_small size 9) by (unfold modulus64; lia).
  rewrite to_int_small by (unfold is_int; lia).
  rewrite mm_sbrk_grow by (done || lia).
  set (s1 := set_break s (heap_current_break s + (size + 9))).
  destruct (store_header s1 (heap_current_break s) size META_DATA_STATUS_OCCUPIED)
    as (s2 & s3 & E2 & E3 & G & F & H); [simpl; lia..|unfold is_size, modulus64; lia|].
  rewrite E2, bind_Ok, E3, bind_Ok.
  rewrite (ptr_add_small _ 9) by (unfold modulus64; lia).
  exists s3. split; [done|].
  destruct G as (G1 & G2 & G3 & G4). simpl in G1, G2, G3, G4.
  split; [|repeat split; try congruence; try lia].
  - split; [|split; [split|]].
    + unfold arena_ok. rewrite G1, G2, G3, G4. unfold modulus64. lia.
    + rewrite G1. apply layout_app. split.
      * eapply wf_set_break_layout; [|exact Hl]. apply F. lia.
      * simpl. split; [|done]. by rewrite Hsp.
    + rewrite G1, G3, span_app. simpl. unfold footprint, meta_data_size. simpl. lia.
    + apply Forall_app. split; [done|]. apply Forall_cons. split; [|done].
      by right.
  - intros l h Hd. eapply same_bytes_trans; [apply same_bytes_set_break|].
    by apply F.
Qed.

(** The last block is free and too small: it is enlarged in place. *)
Lemma mm_malloc_grow_last s bl b size :
  wf s (bl ++ [b]) -> is_free b = true -> block_size b < size ->
  heap_current_break s + (size - block_size b) <= heap_end s ->
  exists s',
    mm_malloc_grow size (heap_start s + span bl) s
      = Ok (heap_start s + span bl + meta_data_size, s') /\
    wf s' (bl ++ [mkBlock size META_DATA_STATUS_OCCUPIED]) /\
    heap_start s' = heap_start s /\ heap_end s' = heap_end s /\
    heap_current_break s' = heap_current_break s + (size - block_size b) /\
    frame s s' (heap_start s + span bl) (heap_start s + span bl + meta_data_size).
Proof.
  intros Hwf Hfree Hsmall Hroom.
  pose proof (wf_bounds _ _ Hwf) as (B1 & B2 & B3 & B4).
  destruct Hwf as (Hok & (Hl & Hsp) & Hst).
  pose proof Hok as (A1 & A2 & A3 & A4 & A5).
  apply layout_app in Hl as [Hl [Hb _]].
  pose proof (span_nonneg _ _ _ Hl) as Nbl.
  pose proof (header_at_in_mapping _ _ _ Hb) as [I1 I2].
  destruct Hb as (Hbst & Hbsz & Nb).
  rewrite span_app in Hsp. simpl in Hsp.
  unfold footprint, meta_data_size in *. unfold modulus64 in *.
  unfold is_free in Hfree. apply Z.eqb_eq in Hfree.
  unfold mm_malloc_grow.
  assert ((heap_start s + span bl =? NULL) = false) as ->
    by (apply Z.eqb_neq; unfold NULL; lia).
  rewrite Hbst, !bind_Ok, Hfree.
  change (META_DATA_STATUS_FREE =? META_DATA_STATUS_OCCUPIED) with false.
  cbv iota. rewrite Hbsz, bind_Ok.
  rewrite (size_sub_small size (block_size b)) by (unfold modulus64; lia).
  rewrite to_int_small by (unfold is_int; lia).
  rewrite mm_sbrk_grow by (done || lia).
  set (s1 := set_break s (heap_current_break s + (size - block_size b))).
  destruct (store_header s1 (heap_start s + span bl) size META_DATA_STATUS_OCCUPIED)
    as (s2 & s3 & E2 & E3 & G & F & H); [simpl; lia..|unfold is_size, modulus64; lia|].
  rewrite E2, bind_Ok, E3, bind_Ok.
  rewrite (ptr_add_small _ meta_data_size) by (unfold meta_data_size, modulus64; lia).
  exists s3. split; [done|].
  destruct G as (G1 & G2 & G3 & G4). simpl in G1, G2, G3, G4.
  split; [|repeat split; try congruence; try lia].
  - split; [|split; [split|]].
    + unfold arena_ok. rewrite G1, G2, G3, G4. unfold modulus64. lia.
    + rewrite G1. apply layout_app. split.
      * eapply wf_set_break_layout; [|exact Hl]. apply F. lia.
      * simpl. done.
    + rewrite G1, G3, span_app. simpl. unfold footprint, meta_data_size. simpl. lia.
    + apply Forall_app in Hst as [Hst _].
      apply Forall_app. split; [done|]. apply Forall_cons. split; [|done].
      by right.
  - intros l h Hd. eapply same_bytes_trans; [apply same_bytes_set_break|].
    apply F. unfold meta_data_size in Hd. lia.
Qed.

(** ** Runs of free blocks *)

Lemma flatten_cons r gs : flatten (r :: gs) = r.1 :: r.2 ++ flatten gs.
Proof. reflexivity. Qed.

Lemma flatten_runs bl : flatten (runs bl) = bl.
Proof.
  induction bl as [|b bl IH]; [done|]. simpl.
  destruct (runs bl) as [|[r g] gs]; [by rewrite <- IH|].
  rewrite <- IH. by destruct (is_free b && is_free r).
Qed.

Lemma is_run_runs bl : Forall is_run (runs bl).
Proof.
  induction bl as [|b bl IH]; [constructor|]. simpl.
  destruct (runs bl) as [|[r g] gs]; [by repeat constructor|].
  apply Forall_cons in IH as [Hr Hgs].
  destruct (is_free b && is_free r) eqn:E.
  - apply andb_true_iff in E as [Eb Er].
    constructor; [|done]. unfold is_run in *. simpl in *.
    constructor; [done|]. eapply Forall_impl; [exact Hr|]. simpl. tauto.
  - constructor; [constructor|]. by constructor.
Qed.

Lemma maximal_runs bl : maximal (runs bl).
Proof.
  induction bl as [|b bl IH]; [done|]. simpl.
  destruct (runs bl) as [|[r g] gs]; [done|].
  destruct (is_free b && is_free r) eqn:E.
  - apply andb_true_iff in E as [Eb Er]. destruct IH as [H1 H2].
    split; [|done]. destruct gs as [|r2 gs]; [done|]. simpl in *. tauto.
  - split; [|done]. simpl. intros [H1 H2]. by rewrite H1, H2 in E.
Qed.

Lemma merge_run_single b : merge_run (b, []) = b.
Proof. destruct b. unfold merge_run. simpl. f_equal. lia. Qed.

Lemma footprint_merge_run r : footprint (merge_run r) = span (run_blocks r).
Proof. unfold merge_run, run_blocks, footprint. simpl. unfold footprint. lia. Qed.

Lemma span_coalesce gs : span (map merge_run gs) = span (flatten gs).
Proof.
  induction gs as [|r gs IH]; [done|].
  rewrite flatten_cons. simpl. rewrite span_app, IH, footprint_merge_run. simpl. lia.
Qed.

Lemma span_sum_sizes bl : span bl = sum_sizes bl + meta_data_size * Z.of_nat (length bl).
Proof.
  induction bl as [|b bl IH]; [simpl; lia|].
  cbn [span sum_sizes foldr length]. fold (sum_sizes bl). rewrite IH. unfold footprint. lia.
Qed.

(** The size of a collapsed run, as a sum over the run. *)
Lemma merge_run_size r :
  block_size (merge_run r) =
  sum_sizes (run_blocks r) + meta_data_size * (Z.of_nat (length (run_blocks r)) - 1).
Proof.
  unfold merge_run, run_blocks. cbn [block_size sum_sizes foldr length].
  fold (sum_sizes r.2). rewrite span_sum_sizes. lia.
Qed.

Lemma length_flatten_cons r gs :
  length (flatten (r :: gs)) = S (length r.2 + length (flatten gs)).
Proof. rewrite flatten_cons. simpl. by rewrite length_app. Qed.

(** ** The loops of mm_combine_nearby_free *)

Lemma combine_inner_S fuel brk cur s :
  combine_inner (S fuel) brk cur s =
  if cur <? brk then
    st ← load_status s cur;
    if st =? META_DATA_STATUS_FREE then
      sz ← load_size s cur;
      let next := ptr_add (ptr_add cur meta_data_size) sz in
      if next <? brk then
        nst ← load_status s next;
        if nst =? META_DATA_STATUS_FREE then
          nsz ← load_size s next;
          s' ← store_size s cur (size_add sz (size_add meta_data_size nsz));
          combine_inner fuel brk cur s'
        else Ok (ExitBreak, s)
      else Ok (ExitReturn, s)
    else Ok (ExitCond, s)
  else Ok (ExitCond, s).
Proof. reflexivity. Qed.

Lemma combine_outer_S fuel brk cur s :
  combine_outer (S fuel) brk cur s =
  if cur <? brk then
    r ← combine_inner (S fuel) brk cur s;
    match r with
    | (ExitReturn, s1) => Ok s1
    | (_, s1) =>
        sz ← load_size s1 cur;
        combine_outer fuel brk (ptr_add cur (size_add meta_data_size sz)) s1
    end
  else Ok s.
Proof. reflexivity. Qed.

Lemma combine_inner_run brk tail : forall g b s cur fuel,
  header_at s cur b -> is_free b = true ->
  Forall (fun r => is_free r = true) g ->
  layout s (cur + footprint b) (g ++ tail) -> stops tail ->
  cur + footprint b + span (g ++ tail) = brk ->
  0 <= heap_start s -> brk < modulus64 ->
  (length g < fuel)%nat ->
  exists s',
    combine_inner fuel brk cur s = Ok (exit_for tail, s') /\
    same_globals s s' /\ frame s s' cur (cur + 8) /\
    header_at s' cur (merge_run (b, g)) /\
    (g = [] -> s' = s).
Proof.
  induction g as [|r g IH]; intros b s cur fuel Hb Hfree Hg Hl Hstop Hsp Hst0 Hmod Hfuel.
  - destruct fuel as [|fuel]; [simpl in Hfuel; lia|].
    pose proof (header_at_in_mapping _ _ _ Hb) as [I1 I2].
    pose proof Hb as (Hbst & Hbsz & Nb).
    simpl in Hl, Hsp.
    destruct (next_header cur brk b tail s _ Hl) as (Hlt & _ & Hnext); try lia.
    rewrite combine_inner_S.
    assert ((cur <? brk) = true) as -> by (apply Z.ltb_lt; lia).
    rewrite Hbst, bind_Ok. unfold is_free in Hfree. rewrite Hfree.
    rewrite Hbsz, bind_Ok. cbv zeta. rewrite Hnext.
    exists s. rewrite merge_run_single.
    split; [|by auto using same_globals_refl, frame_refl].
    destruct tail as [|t tail].
    + simpl in Hsp. assert ((cur + footprint b <? brk) = false) as ->
        by (apply Z.ltb_ge; lia). done.
    + destruct Hl as [(Htst & _ & Nt) Hl]. simpl in Hsp, Hstop.
      apply span_nonneg in Hl.
      assert ((cur + footprint b <? brk) = true) as ->.
      { apply Z.ltb_lt. unfold footprint, meta_data_size in *. lia. }
      rewrite Htst, bind_Ok. unfold is_free in Hstop. by rewrite Hstop.
  - destruct fuel as [|fuel]; [simpl in Hfuel; lia|].
    pose proof (header_at_in_mapping _ _ _ Hb) as [I1 I2].
    pose proof Hb as (Hbst & Hbsz & Nb).
    apply Forall_cons in Hg as [Hr Hg].
    pose proof Hl as Hl0.
    simpl in Hl, Hsp. destruct Hl as [(Hrst & Hrsz & Nr) Hl].
    pose proof (span_nonneg _ _ _ Hl) as Nrest.
    destruct (next_header cur brk b (r :: g ++ tail) s _ Hl0) as (Hlt & _ & Hnext);
      try (simpl; lia).
    rewrite combine_inner_S.
    assert ((cur <? brk) = true) as -> by (apply Z.ltb_lt; lia).
    rewrite Hbst, bind_Ok. unfold is_free in Hfree. rewrite Hfree.
    rewrite Hbsz, bind_Ok. cbv zeta. rewrite Hnext.
    assert ((cur + footprint b <? brk) = true) as ->.
    { apply Z.ltb_lt. unfold footprint, meta_data_size in *. lia. }
    rewrite Hrst, bind_Ok. unfold is_free in Hr. rewrite Hr.
    rewrite Hrsz, bind_Ok.
    unfold footprint, meta_data_size in *.
    rewrite (size_add_small 9 (block_size r)) by lia.
    rewrite (size_add_small (block_size b)) by lia.
    destruct (store_size_in_mapping s cur (block_size b + (9 + block_size r)))
      as [s1 E1]; [lia..|].
    destruct (store_size_frame _ _ _ _ E1) as (G1 & F1 & Lz1 & Ls1);
      [unfold is_size; lia|].
    rewrite E1, bind_Ok.
    set (b' := mkBlock (block_size b + (9 + block_size r)) (block_status b)).
    destruct (IH b' s1 cur fuel) as (s' & E & G & F & H & _).
    + repeat split; simpl; [congruence|done|lia].
    + done.
    + done.
    + unfold footprint, meta_data_size. simpl.
      eapply layout_same_bytes; [|].
      * apply F1. right. lia.
      * replace (cur + (9 + (block_size b + (9 + block_size r))))
          with (cur + (9 + block_size b) + (9 + block_size r)) by lia.
        exact Hl.
    + done.
    + unfold footprint, meta_data_size. simpl. lia.
    + globals_lia.
    + done.
    + simpl in Hfuel. lia.
    + exists s'. split; [done|]. split; [eauto using same_globals_trans|].
      split; [eauto using frame_trans|]. split; [|done].
      unfold merge_run in *. simpl in *. unfold footprint, meta_data_size.
      replace (block_size b + (9 + block_size r + span g))
        with (block_size b + (9 + block_size r) + span g) by lia.
      exact H.
Qed.

(** The inner loop is not entered on a block that is not free. *)
Lemma combine_inner_occupied fuel brk cur s b :
  header_at s cur b -> is_free b = false -> cur < brk ->
  combine_inner (S fuel) brk cur s = Ok (ExitCond, s).
Proof.
  intros (Hst & _ & _) Hfree Hlt. rewrite combine_inner_S.
  assert ((cur <? brk) = true) as -> by (apply Z.ltb_lt; lia).
  rewrite Hst, bind_Ok. unfold is_free in Hfree. by rewrite Hfree.
Qed.

Lemma flatten_stops r gs :
  Forall is_run gs -> maximal (r :: gs) -> is_free r.1 = true -> stops (flatten gs).
Proof.
  intros _ [Hm _] Hr. destruct gs as [|[t g] gs]; [done|].
  simpl in *. destruct (is_free t); [|done]. tauto.
Qed.

Lemma combine_outer_runs brk : forall gs s cur fuel,
  Forall is_run gs -> maximal gs ->
  layout s cur (flatten gs) -> cur + span (flatten gs) = brk ->
  0 <= heap_start s -> heap_start s <= cur -> brk < modulus64 ->
  (length (flatten gs) < fuel)%nat ->
  exists s',
    combine_outer fuel brk cur s = Ok s' /\
    same_globals s s' /\ frame s s' cur brk /\
    layout s' cur (map merge_run gs) /\
    (Forall (fun r : run => r.2 = []) gs -> s' = s).
Proof.
  induction gs as [|[b g] gs IH]; intros s cur fuel Hruns Hmax Hl Hsp Hst0 Hcur Hmod Hfuel.
  - destruct fuel as [|fuel]; [simpl in Hfuel; lia|].
    simpl in Hsp. rewrite combine_outer_S.
    assert ((cur <? brk) = false) as -> by (apply Z.ltb_ge; lia).
    exists s. by auto using same_globals_refl, frame_refl.
  - destruct fuel as [|fuel]; [simpl in Hfuel; lia|].
    rewrite length_flatten_cons in Hfuel. simpl in Hfuel.
    apply Forall_cons in Hruns as [Hrun Hruns].
    rewrite flatten_cons in Hl, Hsp. simpl in Hl, Hsp.
    destruct Hl as [Hb Hl].
    pose proof (span_nonneg _ _ _ Hl) as Nrest.
    pose proof Hb as (Hbst & Hbsz & Nb).
    assert (cur < brk) as Hlt by (unfold footprint, meta_data_size in *; lia).
    rewrite combine_outer_S.
    assert ((cur <? brk) = true) as -> by (apply Z.ltb_lt; lia).
    destruct (is_free b) eqn:Hfree.
    + (* a free run *)
      assert (Forall (fun r => is_free r = true) g) as Hg.
      { eapply Forall_impl; [exact Hrun|]. simpl. tauto. }
      destruct (combine_inner_run brk (flatten gs) g b s cur (S fuel))
        as (s1 & E1 & G1 & F1 & H1 & Same1); try done; try lia.
      { eapply flatten_stops; eauto. }
      rewrite E1, bind_Ok.
      destruct gs as [|r2 gs].
      * (* the run reaches the break: return *)
        simpl. exists s1. split; [done|]. split; [done|]. split; [|split].
        -- eapply frame_mono; [exact F1|lia|].
           unfold footprint, meta_data_size in *. lia.
        -- done.
        -- intros Hall. apply Forall_cons in Hall as [Hall _]. simpl in Hall. auto.
      * (* break, then on to the next run *)
        change (exit_for (flatten (r2 :: gs))) with ExitBreak. cbv iota beta.
        destruct H1 as (Hmst & Hmsz & Nm).
        rewrite Hmsz, bind_Ok.
        assert (cur + footprint (merge_run (b, g)) = cur + footprint b + span g) as Haddr.
        { rewrite footprint_merge_run. simpl. lia. }
        rewrite span_app in Hsp.
        pose proof Hl as Hl'. apply layout_app in Hl' as [Hlg Hlrest].
        pose proof (span_nonneg _ _ _ Hlg) as Ng.
        pose proof (span_nonneg _ _ _ Hlrest) as Nr.
        assert (ptr_add cur (size_add meta_data_size (block_size (merge_run (b, g))))
                = cur + footprint b + span g) as ->.
        { rewrite <- Haddr. unfold footprint at 1.
          unfold merge_run, footprint, meta_data_size in *. simpl in *.
          rewrite (size_add_small 9) by lia. rewrite ptr_add_small by lia. done. }
        destruct (IH s1 (cur + footprint b + span g) fuel)
          as (s2 & E2 & G2 & F2 & L2 & Same2).
        -- done.
        -- by destruct Hmax.
        -- eapply layout_same_bytes; [|exact Hlrest].
           apply F1. right. unfold footprint, meta_data_size. lia.
        -- lia.
        -- globals_lia.
        -- unfold footprint, meta_data_size in *. globals_lia.
        -- done.
        -- lia.
        -- rewrite E2. exists s2. split; [done|].
           split; [eauto using same_globals_trans|]. split; [|split].
           ++ eapply frame_trans.
              ** eapply frame_mono; [exact F1|lia|].
                 unfold footprint, meta_data_size in *. lia.
              ** eapply frame_mono; [exact F2| |lia].
                 unfold footprint, meta_data_size in *. lia.
           ++ cbn [map layout]. split.
              ** eapply header_at_same_bytes; [|by repeat split].
                 apply F2. left. unfold footprint, meta_data_size in *. lia.
              ** rewrite Haddr. exact L2.
           ++ intros Hall. apply Forall_cons in Hall as [Hall1 Hall2].
              simpl in Hall1. rewrite Same2 by done. auto.
    + (* a block that is not free *)
      assert (g = []) as ->.
      { destruct g as [|x g]; [done|]. apply Forall_cons in Hrun as [[Hx _] _].
        simpl in Hx. congruence. }
      erewrite combine_inner_occupied; [|exact Hb|done|done].
      rewrite bind_Ok. cbv iota beta. rewrite Hbsz, bind_Ok.
      simpl in Hl, Hsp.
      destruct (next_header cur brk b (flatten gs) s _ Hl) as (_ & Hnext & _); try lia.
      rewrite Hnext.
      destruct (IH s (cur + footprint b) fuel) as (s2 & E2 & G2 & F2 & L2 & Same2);
        try done; try lia.
      { by destruct Hmax. }
      { unfold footprint, meta_data_size in *. lia. }
      rewrite E2. exists s2. split; [done|]. split; [done|]. split; [|split].
      * eapply frame_mono; [exact F2| |lia].
        unfold footprint, meta_data_size in *. lia.
      * cbn [map layout]. rewrite merge_run_single. split; [|done].
        eapply header_at_same_bytes; [|exact Hb].
        apply F2. left. unfold footprint, meta_data_size in *. lia.
      * intros Hall. apply Forall_cons in Hall as [_ Hall2]. auto.
Qed.

(** ** mm_combine_nearby_free, mm_print and mm_free on a well-formed arena *)

Lemma status_ok_coalesce gs :
  Forall status_ok (flatten gs) -> Forall status_ok (map merge_run gs).
Proof.
  induction gs as [|r gs IH]; [done|].
  rewrite flatten_cons. intros H. apply Forall_cons in H as [Hr H].
  apply Forall_app in H as [_ H]. constructor; [exact Hr|auto].
Qed.

Lemma runs_coalesce gs :
  maximal gs -> runs (map merge_run gs) = map (fun r => (merge_run r, [])) gs.
Proof.
  induction gs as [|r gs IH]; [done|].
  intros [Hm Hmax]. cbn [map runs]. rewrite IH by done.
  destruct gs as [|r2 gs]; [done|]. cbn [map].
  assert (is_free (merge_run r) && is_free (merge_run r2) = false) as ->; [|done].
  unfold merge_run, is_free in *. simpl.
  destruct (block_status r.1 =? META_DATA_STATUS_FREE),
           (block_status r2.1 =? META_DATA_STATUS_FREE); try done.
  tauto.
Qed.

(** A list in which no two neighbours are free is its own coalescing. *)
Lemma coalesce_coalesce bl : coalesce (coalesce bl) = coalesce bl.
Proof.
  unfold coalesce. rewrite runs_coalesce by apply maximal_runs.
  rewrite map_map. apply map_ext. intros r. apply merge_run_single.
Qed.

Lemma mm_combine_wf s bl fuel :
  wf s bl -> (length bl < fuel)%nat ->
  exists s',
    mm_combine_nearby_free fuel s = Ok s' /\
    same_globals s s' /\
    frame s s' (heap_start s) (heap_current_break s) /\
    wf s' (coalesce bl) /\
    (Forall (fun r : run => r.2 = []) (runs bl) -> s' = s).
Proof.
  intros Hwf Hfuel.
  pose proof (wf_bounds _ _ Hwf) as (B1 & B2 & B3 & B4).
  destruct Hwf as (Hok & (Hl & Hsp) & Hst).
  unfold mm_combine_nearby_free. rewrite mm_sbrk_zero by done. simpl.
  destruct (combine_outer_runs (heap_current_break s) (runs bl) s (heap_start s) fuel)
    as (s' & E & G & F & L & Same);
    rewrite ?flatten_runs; try done; try lia; try apply is_run_runs; try apply maximal_runs.
  exists s'. split; [done|]. split; [done|]. split; [done|]. split; [|done].
  split; [by eapply arena_ok_same_globals|]. split; [split|].
  - destruct G as (-> & _). exact L.
  - destruct G as (-> & _ & -> & _). unfold coalesce.
    by rewrite span_coalesce, flatten_runs.
  - apply status_ok_coalesce. by rewrite flatten_runs.
Qed.

Lemma mm_print_wf s bl fuel :
  wf s bl -> (length bl < fuel)%nat -> mm_print fuel s = Ok (lines_of 1 bl).
Proof.
  intros Hwf Hfuel.
  pose proof (wf_bounds _ _ Hwf) as (B1 & B2 & B3 & B4).
  destruct Hwf as (Hok & (Hl & Hsp) & Hst).
  unfold mm_print. rewrite mm_sbrk_zero by done. simpl.
  replace fuel with (S (length bl + (fuel - S (length bl))))%nat by lia.
  by rewrite (mm_print_loop_layout s (heap_current_break s) bl _ _ _ Hl).
Qed.

Lemma mm_free_block s pre b post :
  wf s (pre ++ b :: post) ->
  exists s',
    mm_free (heap_start s + span pre + meta_data_size) s = Ok s' /\
    same_globals s s' /\
    frame s s' (heap_start s + span pre + 8) (heap_start s + span pre + 9) /\
    wf s' (pre ++ mkBlock (block_size b) META_DATA_STATUS_FREE :: post) /\
    (is_free b = true -> s' = s).
Proof.
  intros Hwf.
  pose proof (wf_bounds _ _ Hwf) as (B1 & B2 & B3 & B4).
  destruct Hwf as (Hok & (Hl & Hsp) & Hst).
  pose proof Hl as Hl'. apply layout_app in Hl' as [Hlpre [Hb Hlpost]].
  pose proof (span_nonneg _ _ _ Hlpre) as Npre.
  pose proof (header_at_in_mapping _ _ _ Hb) as [I1 I2].
  unfold mm_free, meta_data_size in *.
  rewrite ptr_add_small by lia.
  replace (heap_start s + span pre + 9 + - (9)) with (heap_start s + span pre) by lia.
  destruct (store_status_in_mapping s (heap_start s + span pre) META_DATA_STATUS_FREE)
    as [s' E]; [lia..|].
  destruct (store_status_frame _ _ _ _ E) as (G & F & Ls & Lz).
  exists s'. split; [done|]. split; [done|]. split; [done|]. split.
  - split; [by eapply arena_ok_same_globals|]. split; [split|].
    + pose proof G as (-> & _).
      eapply (layout_replace s s' _ pre [b] [_] post); [exact Hl|done|..].
      * intros lo hi Hd. apply F. simpl in Hd. unfold footprint, meta_data_size in Hd.
        destruct Hb as (_ & _ & Nb). lia.
      * simpl. split; [|done]. destruct Hb as (Hbst & Hbsz & Nb).
        repeat split; simpl; [done|congruence|done].
    + destruct G as (-> & _ & -> & _). rewrite span_app in *. simpl in *.
      unfold footprint in *. simpl. lia.
    + apply Forall_app in Hst as [Hst1 Hst2]. apply Forall_cons in Hst2 as [_ Hst2].
      apply Forall_app. split; [done|]. constructor; [by left|done].
  - intros Hfree. unfold is_free in Hfree. apply Z.eqb_eq in Hfree.
    destruct Hb as (Hbst & _). rewrite Hfree in Hbst.
    rewrite (store_status_id _ _ _ Hbst) in E. congruence.
Qed.

(** ** More fuel never changes a result *)

Lemma mm_malloc_loop_mono fuel : forall fuel' size brk cur lastBlock s r,
  mm_malloc_loop fuel size brk cur lastBlock s = Ok r -> (fuel <= fuel')%nat ->
  mm_malloc_loop fuel' size brk cur lastBlock s = Ok r.
Proof.
  induction fuel as [|fuel IH]; intros fuel' size brk cur lastBlock s r H Hle; [done|].
  destruct fuel' as [|fuel']; [lia|].
  rewrite mm_malloc_loop_S in *.
  destruct (cur <? brk); [|done].
  destruct (load_status s cur) as [st| |]; try done. rewrite bind_Ok in *.
  destruct (if st =? META_DATA_STATUS_FREE
            then sz ← load_size s cur; Ok (size <=? sz)
            else Ok false) as [[|]| |]; try done.
  rewrite bind_Ok in *.
  destruct (load_size s cur) as [sz| |]; try done. rewrite bind_Ok in *.
  apply IH; [done|lia].
Qed.

Lemma mm_malloc_mono fuel fuel' size s r :
  mm_malloc fuel size s = Ok r -> (fuel <= fuel')%nat -> mm_malloc fuel' size s = Ok r.
Proof. unfold mm_malloc. apply mm_malloc_loop_mono. Qed.

Lemma combine_inner_mono fuel : forall fuel' brk cur s r,
  combine_inner fuel brk cur s = Ok r -> (fuel <= fuel')%nat ->
  combine_inner fuel' brk cur s = Ok r.
Proof.
  induction fuel as [|fuel IH]; intros fuel' brk cur s r H Hle; [done|].
  destruct fuel' as [|fuel']; [lia|].
  rewrite combine_inner_S in *.
  destruct (cur <? brk); [|done].
  destruct (load_status s cur) as [st| |]; try done. rewrite bind_Ok in *.
  destruct (st =? META_DATA_STATUS_FREE); [|done].
  destruct (load_size s cur) as [sz| |]; try done. rewrite bind_Ok in *.
  cbv zeta in *.
  destruct (ptr_add (ptr_add cur meta_data_size) sz <? brk); [|done].
  destruct (load_status s _) as [nst| |]; try done. rewrite bind_Ok in *.
  destruct (nst =? META_DATA_STATUS_FREE); [|done].
  destruct (load_size s _) as [nsz| |]; try done. rewrite bind_Ok in *.
  destruct (store_size s cur _) as [s1| |]; try done. rewrite bind_Ok in *.
  apply IH; [done|lia].
Qed.

Lemma combine_outer_mono fuel : forall fuel' brk cur s r,
  combine_outer fuel brk cur s = Ok r -> (fuel <= fuel')%nat ->
  combine_outer fuel' brk cur s = Ok r.
Proof.
  induction fuel as [|fuel IH]; intros fuel' brk cur s r H Hle; [done|].
  destruct fuel' as [|fuel']; [lia|].
  rewrite combine_outer_S in *.
  destruct (cur <? brk); [|done].
  destruct (combine_inner (S fuel) brk cur s) as [[ex s1]| |] eqn:E; try done.
  rewrite (combine_inner_mono _ (S fuel') _ _ _ _ E) by lia.
  rewrite bind_Ok in *.
  destruct ex; try done;
    (destruct (load_size s1 cur) as [sz| |]; try done; rewrite bind_Ok in *;
     apply IH; [done|lia]).
Qed.

Lemma mm_combine_mono fuel fuel' s r :
  mm_combine_nearby_free fuel s = Ok r -> (fuel <= fuel')%nat ->
  mm_combine_nearby_free fuel' s = Ok r.
Proof. unfold mm_combine_nearby_free. apply combine_outer_mono. Qed.

(** ** What a growth that gave room tells about the request *)

Lemma mm_malloc_grow_new_room s size lastBlock p s' :
  arena_ok s -> is_size size ->
  lastBlock = NULL \/ load_status s lastBlock = Ok META_DATA_STATUS_OCCUPIED ->
  mm_malloc_grow size lastBlock s = Ok (p, s') ->
  p + size <= heap_current_break s' ->
  heap_current_break s + size + meta_data_size <= heap_end s.
Proof.
  intros Hok Hsize Hlast H Hroom.
  pose proof Hok as (A1 & A2 & A3 & A4 & A5).
  unfold is_size, meta_data_size, modulus64 in *.
  unfold mm_malloc_grow in H.
  assert ((if lastBlock =? NULL then Ok true
           else st ← load_status s lastBlock; Ok (st =? META_DATA_STATUS_OCCUPIED))
          = Ok true) as E0.
  { destruct Hlast as [->|E]; [done|]. destruct (lastBlock =? NULL); [done|].
    by rewrite E. }
  rewrite E0, bind_Ok in H. unfold meta_data_size in H.
  remember (to_int (size_add size 9)) as d eqn:Ed.
  destruct (mm_sbrk_cases s d Hok) as [[E _]|[E B]].
  { subst d. apply to_int_range. }
  - rewrite E in H. rewrite store_size_outside in H; [done|].
    unfold MAP_FAILED, modulus64. lia.
  - rewrite E in H.
    destruct (store_size _ _ size) as [s2| |] eqn:E2; try done.
    rewrite bind_Ok in H.
    destruct (store_status s2 _ _) as [s3| |] eqn:E3; try done.
    rewrite bind_Ok in H. injection H as <- <-.
    destruct (store_size_frame _ _ _ _ E2) as (G2 & _); [unfold is_size, modulus64; lia|].
    destruct (store_status_frame _ _ _ _ E3) as (G3 & _).
    destruct G2 as (_ & _ & G2 & _), G3 as (_ & _ & G3 & _). simpl in G2.
    rewrite G3, G2 in Hroom.
    rewrite ptr_add_small in Hroom by (unfold modulus64; lia).
    assert (size + 9 <= d) as Hd by lia.
    rewrite (size_add_small size 9) in Ed by (unfold modulus64; lia).
    rewrite to_int_small in Ed by (unfold is_int; lia). lia.
Qed.

Lemma mm_malloc_grow_last_room s size lastBlock b p s' :
  arena_ok s -> is_size size ->
  header_at s lastBlock b -> is_free b = true -> block_size b < size ->
  lastBlock + footprint b = heap_current_break s ->
  mm_malloc_grow size lastBlock s = Ok (p, s') ->
  p + size <= heap_current_break s' ->
  heap_current_break s + (size - block_size b) <= heap_end s.
Proof.
  intros Hok Hsize Hb Hfree Hsmall Hlast H Hroom.
  pose proof Hok as (A1 & A2 & A3 & A4 & A5).
  pose proof (header_at_in_mapping _ _ _ Hb) as [I1 I2].
  destruct Hb as (Hbst & Hbsz & Nb).
  unfold is_size, footprint, meta_data_size, modulus64 in *.
  unfold is_free in Hfree. apply Z.eqb_eq in Hfree.
  unfold mm_malloc_grow in H.
  assert ((lastBlock =? NULL) = false) as E0 by (apply Z.eqb_neq; unfold NULL; lia).
  rewrite E0, Hbst, !bind_Ok, Hfree in H.
  change (META_DATA_STATUS_FREE =? META_DATA_STATUS_OCCUPIED) with false in H.
  cbv iota in H. rewrite Hbsz, bind_Ok in H. cbv zeta in H.
  remember (to_int (size_sub size (block_size b))) as d eqn:Ed.
  assert (exists brk', (mm_sbrk d s).2 = set_break s brk' /\
            (brk' = heap_current_break s \/
             brk' = heap_current_break s + d /\ heap_current_break s + d <= heap_end s))
    as (brk' & E & Hbrk').
  { destruct (mm_sbrk_cases s d Hok) as [[E _]|[E B]].
    { subst d. apply to_int_range. }
    - exists (heap_current_break s). rewrite E. split; [by destruct s|by left].
    - exists (heap_current_break s + d). rewrite E. split; [done|right; lia]. }
  destruct (mm_sbrk d s) as [start s1]. simpl in E. subst s1.
  destruct (store_size _ _ size) as [s2| |] eqn:E2; try done.
  rewrite bind_Ok in H.
  destruct (store_status s2 _ _) as [s3| |] eqn:E3; try done.
  rewrite bind_Ok in H. injection H as <- <-.
  destruct (store_size_frame _ _ _ _ E2) as (G2 & _); [unfold is_size, modulus64; lia|].
  destruct (store_status_frame _ _ _ _ E3) as (G3 & _).
  destruct G2 as (_ & _ & G2 & _), G3 as (_ & _ & G3 & _). simpl in G2.
  rewrite G3, G2 in Hroom.
  rewrite ptr_add_small in Hroom by (unfold meta_data_size, modulus64; lia).
  unfold meta_data_size in Hroom.
  destruct Hbrk' as [->|[-> Hend]]; [lia|].
  assert (size - block_size b <= d) as Hd by lia.
  rewrite (size_sub_small size) in Ed by (unfold modulus64; lia).
  rewrite to_int_small in Ed by (unfold is_int; lia). lia.
Qed.

(** ** Reachable states *)

Lemma addressed_In a0 bl a b :
  In (a, b) (addressed a0 bl) ->
  exists pre post, bl = pre ++ b :: post /\ a = a0 + span pre.
Proof.
  revert a0. induction bl as [|c bl IH]; intros a0; simpl; [done|].
  intros [[= <- <-]|H].
  - exists [], bl. simpl. split; [done|lia].
  - destruct (IH _ H) as (pre & post & -> & ->).
    exists (c :: pre), post. simpl. split; [done|lia].
Qed.

Lemma addressed_app a l1 l2 :
  addressed a (l1 ++ l2) = addressed a l1 ++ addressed (a + span l1) l2.
Proof.
  revert a. induction l1 as [|b l1 IH]; intros a; simpl.
  - by rewrite Z.add_0_r.
  - by rewrite IH, Z.add_assoc.
Qed.

Lemma mapped_size_covers page len : 0 < page -> len <= mapped_size page len.
Proof.
  intros Hp. unfold mapped_size.
  pose proof (Z.div_mod (len + page - 1) page) as Hd.
  pose proof (Z.mod_pos_bound (len + page - 1) page) as Hm. lia.
Qed.

Lemma wf_initial_paged page base :
  0 < page -> mapped_size page HEAP_SIZE < 2 ^ 31 ->
  2 ^ 31 <= base -> base + mapped_size page HEAP_SIZE + 2 ^ 31 < modulus64 ->
  wf (initial_paged page base) [].
Proof.
  intros Hp Hm H1 H2. pose proof (mapped_size_covers page HEAP_SIZE Hp) as Hc.
  unfold wf, arena_ok, blocks_of, initial_paged.
  cbn [heap heap_start heap_end heap_current_break layout span].
  rewrite length_replicate. unfold HEAP_SIZE, modulus64 in *.
  repeat split; try done; lia.
Qed.

Lemma wf_initial base :
  2 ^ 31 <= base -> base + mapped_size PAGE_SIZE HEAP_SIZE + 2 ^ 31 < modulus64 ->
  wf (initial base) [].
Proof. intros H1 H2. by apply wf_initial_paged. Qed.

Lemma wf_unique s l1 l2 : wf s l1 -> wf s l2 -> l1 = l2.
Proof.
  intros (_ & (H1 & E1) & _) (_ & (H2 & E2) & _).
  eapply layout_unique; eauto. lia.
Qed.

Lemma mm_malloc_nofit s bl size fuel :
  wf s bl -> Forall (fun b => fits size b = false) bl -> (length bl < fuel)%nat ->
  mm_malloc fuel size s =
  mm_malloc_grow size (last_header (heap_start s) NULL bl) s.
Proof.
  intros Hwf Hno Hfuel.
  pose proof (wf_bounds _ _ Hwf) as (B1 & B2 & B3 & B4).
  destruct Hwf as (Hok & (Hl & Hsp) & Hst).
  unfold mm_malloc. rewrite mm_sbrk_zero by done. simpl.
  replace fuel with (length bl + S (fuel - S (length bl)))%nat by lia.
  rewrite mm_malloc_loop_skip; [|done|lia|lia|lia|done].
  rewrite Hsp. apply mm_malloc_loop_exit.
Qed.

Lemma nofit_free size b : fits size b = false -> is_free b = true -> block_size b < size.
Proof.
  unfold fits. intros H Hf. rewrite Hf in H. simpl in H. by apply Z.leb_gt in H.
Qed.

Lemma status_ok_free_or_occupied b :
  status_ok b ->
  is_free b = true \/
  (is_free b = false /\ block_status b = META_DATA_STATUS_OCCUPIED).
Proof.
  unfold status_ok, is_free. intros [->| ->]; [by left|by right].
Qed.

(** A successful allocation keeps the arena well formed. *)
Lemma mm_malloc_allocated_wf s bl fuel size p s' :
  wf s bl -> is_size size ->
  mm_malloc fuel size s = Ok (p, s') -> allocated p size s' ->
  exists bl', wf s' bl'.
Proof.
  intros Hwf Hsize H Hroom. unfold allocated in Hroom.
  apply (mm_malloc_mono _ (fuel + S (length bl))) in H; [|lia].
  pose proof Hwf as (Hok & (Hl & Hsp) & Hst).
  destruct (first_fit_split size bl) as [Hno|(pre & b & post & -> & Hpre & Hb)].
  - rewrite (mm_malloc_nofit s bl) in H by (done || lia).
    destruct bl as [|b bl _] using rev_ind.
    + simpl in H.
      pose proof (mm_malloc_grow_new_room _ _ _ _ _ Hok Hsize (or_introl eq_refl) H Hroom)
        as Hr.
      destruct (mm_malloc_grow_new s [] size NULL Hwf) as (s2 & E & Hwf2 & _);
        [unfold is_size in Hsize; lia|by left|done|].
      rewrite E in H. injection H as <- <-. eauto.
    + rewrite last_header_app in H.
      apply Forall_app in Hst as [_ Hstb]. apply Forall_cons in Hstb as [Hstb _].
      apply Forall_app in Hno as [_ Hnob]. apply Forall_cons in Hnob as [Hnob _].
      apply layout_app in Hl as [Hl [Hhb _]].
      rewrite span_app in Hsp. simpl in Hsp.
      destruct (status_ok_free_or_occupied _ Hstb) as [Hfree|[Hfree Hocc]].
      * pose proof (nofit_free _ _ Hnob Hfree) as Hsmall.
        assert (heap_current_break s + (size - block_size b) <= heap_end s) as Hr.
        { eapply mm_malloc_grow_last_room; eauto. lia. }
        destruct (mm_malloc_grow_last s bl b size Hwf) as (s2 & E & Hwf2 & _);
          try done.
        rewrite E in H. injection H as <- <-. eauto.
      * assert (load_status s (heap_start s + span bl) = Ok META_DATA_STATUS_OCCUPIED)
          as Hld by (destruct Hhb as (-> & _); by rewrite Hocc).
        pose proof (mm_malloc_grow_new_room _ _ _ _ _ Hok Hsize (or_intror Hld) H Hroom)
          as Hr.
        destruct (mm_malloc_grow_new s (bl ++ [b]) size (heap_start s + span bl) Hwf)
          as (s2 & E & Hwf2 & _);
          [unfold is_size in Hsize; lia|by right|done|].
        rewrite E in H. injection H as <- <-. eauto.
  - destruct (mm_malloc_fit s pre b post size (fuel + S (length (pre ++ b :: post))) Hwf)
      as (s2 & E & _ & _ & Hwf2); try done.
    + unfold is_size in Hsize. lia.
    + rewrite length_app. lia.
    + rewrite E in H. injection H as <- <-. eauto.
Qed.


(** Bytes written into the payload of a block leave the list as it is. *)
Lemma store_payload_wf s pre b post bs s' :
  wf s (pre ++ b :: post) ->
  Z.of_nat (length bs) <= block_size b ->
  store_bytes s (heap_start s + span pre + meta_data_size) bs = Ok s' ->
  wf s' (pre ++ b :: post).
Proof.
  intros (Hok & (Hl & Hsp) & Hst) Hlen E.
  pose proof (store_bytes_globals _ _ _ _ E) as G.
  assert (same_globals s s') as G' by exact G.
  split; [by eapply arena_ok_same_globals|]. split; [split|done].
  - destruct G as (-> & _).
    pose proof Hl as Hl'. apply layout_app in Hl' as [_ [Hb _]].
    apply (layout_replace s s' _ pre [b] [b] post); [exact Hl|done|..].
    + intros lo hi Hd. eapply same_bytes_store; [exact E|].
      simpl in Hd. unfold footprint, meta_data_size in *.
      destruct Hb as (_ & _ & Nb). lia.
    + simpl. split; [|done].
      eapply header_at_same_bytes; [|exact Hb].
      eapply same_bytes_store; [exact E|]. left. lia.
  - destruct G as (-> & _ & -> & _). exact Hsp.
Qed.

Lemma reachable_wf s : reachable s -> exists bl, wf s bl.
Proof.
  induction 1 as [page base Hp Hm H1 H2|s fuel size p s' _ [bl IH] Hsize H Hroom
                  |s bl a b s' _ [bl0 IH] Hbl Hin H|s fuel s' _ [bl IH] H
                  |s bl a b bs s' _ [bl0 IH] Hbl Hin Hlen H].
  - exists []. by apply wf_initial_paged.
  - eapply mm_malloc_allocated_wf; eauto.
  - assert (bl = bl0) as ->.
    { destruct IH as (_ & (H1 & E1) & _), Hbl as (H2 & E2).
      eapply layout_unique; eauto. lia. }
    destruct (addressed_In _ _ _ _ Hin) as (pre & post & -> & ->).
    destruct (mm_free_block s pre b post IH) as (s2 & E & _ & _ & Hwf2 & _).
    rewrite E in H. injection H as <-. eauto.
  - apply (mm_combine_mono _ (fuel + S (length bl))) in H; [|lia].
    destruct (mm_combine_wf s bl (fuel + S (length bl)) IH) as (s2 & E & _ & _ & Hwf2 & _);
      [lia|].
    rewrite E in H. injection H as <-. eauto.
  - assert (bl = bl0) as ->.
    { destruct IH as (_ & (H1 & E1) & _), Hbl as (H2 & E2).
      eapply layout_unique; eauto. lia. }
    destruct (addressed_In _ _ _ _ Hin) as (pre & post & -> & ->).
    eexists. eapply store_payload_wf; eauto.
Qed.

(** ** Blocks of a walk do not overlap *)

Lemma addressed_bounds s a bl x :
  layout s a bl -> In x (addressed a bl) ->
  a <= x.1 /\ x.1 + footprint x.2 <= a + span bl.
Proof.
  revert a. induction bl as [|b bl IH]; intros a; simpl; [done|].
  intros [(_ & _ & Nb) Hl] [<-|Hin].
  - simpl. apply span_nonneg in Hl. unfold footprint, meta_data_size. lia.
  - destruct (IH _ Hl Hin). unfold footprint, meta_data_size in *. lia.
Qed.

Lemma addressed_ordered s a bl (i j : nat) x y :
  layout s a bl -> (i < j)%nat ->
  addressed a bl !! i = Some x -> addressed a bl !! j = Some y ->
  x.1 + footprint x.2 <= y.1.
Proof.
  revert a i j. induction bl as [|b bl IH]; intros a i j; simpl; [done|].
  intros [Hb Hl] Hij Hi Hj.
  destruct j as [|j]; [lia|]. simpl in Hj.
  destruct i as [|i].
  - simpl in Hi. injection Hi as <-. simpl.
    apply list_elem_of_lookup_2, list_elem_of_In in Hj.
    by destruct (addressed_bounds _ _ _ _ Hl Hj).
  - simpl in Hi. eapply (IH _ i j); eauto. lia.
Qed.

(** ** Concrete arenas *)

(** With a header of 9 bytes the free block of size 10 is too small to be
    split by a request of 3, and nothing is left to combine. *)
Example print_scenario :
  mm_print 4 arena_scenario
  = Ok [mkLine 1 "OCCP" 10 "bytes"; mkLine 2 "OCCP" 5 "bytes"].
Proof. vm_compute. reflexivity. Qed.

Example print_free_2_10_5 :
  mm_print 4 arena_free_2_10_5
  = Ok [mkLine 1 "FREE" 2 "bytes"; mkLine 2 "FREE" 10 "bytes"; mkLine 3 "FREE" 5 "bytes"].
Proof. vm_compute. reflexivity. Qed.

Example print_one_byte :
  mm_print 4 (after_malloc 4 1 (initial base0)) = Ok [mkLine 1 "OCCP" 1 "byte"].
Proof. vm_compute. reflexivity. Qed.

Example malloc_zero_bytes :
  mm_print 4 (after_malloc 4 0 (initial base0)) = Ok [mkLine 1 "OCCP" 0 "bytes"].
Proof. vm_compute. reflexivity. Qed.

Lemma wf_arena_free2 : wf arena_free2 [FREE 2].
Proof. evaluate. Qed.

Lemma wf_arena_free30_occ5 : wf arena_free30_occ5 [FREE 30; OCCUPIED 5].
Proof. evaluate. Qed.

Lemma wf_arena_free_2_10_5 : wf arena_free_2_10_5 [FREE 2; FREE 10; FREE 5].
Proof. evaluate. Qed.

Lemma wf_arena_free_3_4_5 : wf arena_free_3_4_5 [FREE 3; FREE 4; FREE 5].
Proof. evaluate. Qed.

(** ** What the statements of the claims rest on *)

Lemma blocks_of_unique s l1 l2 : blocks_of s l1 -> blocks_of s l2 -> l1 = l2.
Proof.
  intros (H1 & E1) (H2 & E2). eapply layout_unique; eauto. lia.
Qed.

Lemma not_free_single r : is_run r -> is_free r.1 = false -> r.2 = [].
Proof.
  destruct r as [b [|x g]]; [done|]. unfold is_run. simpl.
  intros H Hb. apply Forall_cons in H as [[H _] _]. congruence.
Qed.

(** Blocks that are not free are at the same address, with the same
    header, after the runs are collapsed. *)
Lemma addressed_coalesce gs : forall a x b,
  Forall is_run gs ->
  In (x, b) (addressed a (flatten gs)) -> is_free b = false ->
  In (x, b) (addressed a (map merge_run gs)).
Proof.
  induction gs as [|r gs IH]; intros a x b Hruns Hin Hb; [done|].
  apply Forall_cons in Hruns as [Hr Hruns].
  rewrite flatten_cons in Hin. cbn [map addressed] in *.
  destruct Hin as [[= <- <-]|Hin].
  - left. f_equal. rewrite (surjective_pairing r).
    rewrite (not_free_single r Hr Hb). by rewrite merge_run_single.
  - rewrite addressed_app in Hin. apply in_app_or in Hin as [Hin|Hin].
    + exfalso. destruct (addressed_In _ _ _ _ Hin) as (pre & post & E & _).
      unfold is_run in Hr. rewrite E in Hr.
      apply Forall_app in Hr as [_ Hr]. apply Forall_cons in Hr as [[_ Hr] _].
      congruence.
    + right. rewrite footprint_merge_run. simpl.
      apply IH; [done| |done].
      replace (a + (footprint r.1 + span r.2)) with (a + footprint r.1 + span r.2) by lia.
      exact Hin.
Qed.

Lemma length_runs bl : (length (runs bl) <= length bl)%nat.
Proof.
  induction bl as [|b bl IH]; [done|]. simpl.
  destruct (runs bl) as [|[r g] gs]; [simpl; lia|].
  destruct (is_free b && is_free r); simpl in *; lia.
Qed.

Lemma length_coalesce bl : (length (coalesce bl) <= length bl)%nat.
Proof. unfold coalesce. rewrite length_map. apply length_runs. Qed.

Lemma mm_malloc_take_ptr size cur s p s' :
  mm_malloc_take size cur s = Ok (p, s') -> p = ptr_add cur meta_data_size.
Proof.
  unfold mm_malloc_take.
  destruct (enoughToSplit s cur size) as [split| |]; try done. rewrite bind_Ok.
  destruct (if split then _ else _) as [s3| |]; try done. rewrite bind_Ok.
  destruct (store_status s3 cur _) as [s4| |]; try done. rewrite bind_Ok.
  by intros [= <- _].
Qed.

Lemma mm_malloc_grow_nonnull size lastBlock s p s' :
  arena_ok s ->
  lastBlock = NULL \/ 0 < lastBlock < heap_current_break s ->
  mm_malloc_grow size lastBlock s = Ok (p, s') -> p <> NULL.
Proof.
  intros Hok Hlast. pose proof Hok as (A1 & A2 & A3 & A4 & A5).
  unfold mm_malloc_grow, NULL in *. unfold modulus64 in A3.
  destruct (if lastBlock =? 0 then Ok true else _) as [[|]| |] eqn:Eocc; try done;
    rewrite bind_Ok.
  - destruct (mm_sbrk_cases s (to_int (size_add size meta_data_size)) Hok
                (to_int_range _)) as [[E _]|[E _]]; rewrite E.
    + destruct (store_size s MAP_FAILED size) as [s2| |]; try done. rewrite bind_Ok.
      destruct (store_status s2 MAP_FAILED _) as [s3| |]; try done. rewrite bind_Ok.
      intros [= <- _]. vm_compute. discriminate.
    + destruct (store_size _ _ size) as [s2| |]; try done. rewrite bind_Ok.
      destruct (store_status s2 _ _) as [s3| |]; try done. rewrite bind_Ok.
      intros [= <- _]. unfold meta_data_size.
      rewrite ptr_add_small by (unfold modulus64; lia). lia.
  - assert (lastBlock <> 0) as Hnz.
    { intros ->. simpl in Eocc. discriminate. }
    destruct Hlast as [->|Hlast]; [done|].
    destruct (load_size s lastBlock) as [lsz| |]; try done. rewrite bind_Ok.
    cbv zeta. destruct (mm_sbrk _ s) as [start s1].
    destruct (store_size s1 lastBlock size) as [s2| |]; try done. rewrite bind_Ok.
    destruct (store_status s2 lastBlock _) as [s3| |]; try done. rewrite bind_Ok.
    intros [= <- _]. unfold meta_data_size.
    rewrite ptr_add_small by (unfold modulus64; lia). lia.
Qed.

Lemma mm_malloc_loop_nonnull s size fuel : forall cur lastBlock p s',
  arena_ok s -> 0 <= cur ->
  lastBlock = NULL \/ 0 < lastBlock < heap_current_break s ->
  mm_malloc_loop fuel size (heap_current_break s) cur lastBlock s = Ok (p, s') ->
  p <> NULL.
Proof.
  induction fuel as [|fuel IH]; intros cur lastBlock p s' Hok Hcur Hlast; [done|].
  pose proof Hok as (A1 & A2 & A3 & A4 & A5). unfold modulus64 in A3.
  rewrite mm_malloc_loop_S.
  destruct (cur <? heap_current_break s) eqn:Elt.
  - apply Z.ltb_lt in Elt.
    destruct (load_status s cur) as [st| |]; try done. rewrite bind_Ok.
    destruct (if st =? META_DATA_STATUS_FREE then _ else _) as [[|]| |]; try done;
      rewrite bind_Ok.
    + intros H. apply mm_malloc_take_ptr in H as ->. unfold meta_data_size, NULL.
      rewrite ptr_add_small by (unfold modulus64; lia). lia.
    + destruct (load_size s cur) as [sz| |]; try done. rewrite bind_Ok.
      apply IH; [done|apply wrap64_range|].
      destruct (decide (cur = 0)) as [->|Hnz]; [by left|right; lia].
  - by apply mm_malloc_grow_nonnull.
Qed.

Lemma store_header_break s a v c s1 s2 :
  store_size s a v = Ok s1 -> store_status s1 a c = Ok s2 ->
  heap_current_break s2 = heap_current_break s.
Proof.
  intros E1 E2. apply store_bytes_globals in E1 as (_ & _ & E1 & _).
  apply store_bytes_globals in E2 as (_ & _ & E2 & _). congruence.
Qed.

Lemma reachable_scenario : reachable arena_scenario.
Proof.
  assert (reachable (initial base0)) as R0 by (apply reach_initial; evaluate).
  assert (reachable (after_malloc 4 10 (initial base0))) as R1.
  { apply (reach_malloc (initial base0) 4 10 (base0 + 9)); [exact R0|evaluate..]. }
  assert (reachable (after_malloc 4 5 (after_malloc 4 10 (initial base0)))) as R2.
  { apply (reach_malloc _ 4 5 (base0 + 28) _ R1); evaluate. }
  assert (reachable (after_free (base0 + 9)
            (after_malloc 4 5 (after_malloc 4 10 (initial base0))))) as R3.
  { apply (reach_free _ [OCCUPIED 10; OCCUPIED 5] base0 (OCCUPIED 10) _ R2).
    - evaluate.
    - left. reflexivity.
    - vm_compute. reflexivity. }
  assert (reachable (after_malloc 4 3 (after_free (base0 + 9)
            (after_malloc 4 5 (after_malloc 4 10 (initial base0)))))) as R4.
  { apply (reach_malloc _ 4 3 (base0 + 9) _ R3); evaluate. }
  apply (reach_combine _ 4 _ R4). vm_compute. reflexivity.
Defined.

(** * The claims *)

(** ** C1: a request the arena cannot meet

    What the program keeps of the claim.  When no block satisfies the
    request and the growth the request needs (the size and a header when
    the list is empty or ends with an occupied block, the size less the size
    of the last block when that block is free) is more than the arena has
    left, the request to [mm_sbrk] answers MAP_FAILED and leaves the state
    alone, and the break is where it was if [mm_malloc] returns. *)
Lemma mm_malloc_exhausted (s : state) (bl : list block) (n : Z) (fuel : nat) :
  wf s bl -> Forall (fun b => fits n b = false) bl ->
  0 <= n -> n + meta_data_size < 2 ^ 31 ->
  heap_end s - heap_current_break s < needed_growth n bl ->
  (length bl < fuel)%nat ->
  mm_sbrk (needed_growth n bl) s = (MAP_FAILED, s) /\
  (forall p s', mm_malloc fuel n s = Ok (p, s') ->
     heap_current_break s' = heap_current_break s).
Proof.
  intros Hwf Hno Hn Hint Hfull Hfuel.
  pose proof Hwf as (Hok & (Hl & Hsp) & Hst).
  pose proof Hok as (A1 & A2 & A3 & A4 & A5).
  unfold meta_data_size in *. unfold modulus64 in A3.
  assert (0 < needed_growth n bl /\ is_int (needed_growth n bl)) as [Hpos Hgint].
  { unfold needed_growth, is_int, meta_data_size.
    destruct (last bl) as [b|] eqn:Elast; [|lia].
    destruct (is_free b) eqn:Hfree; [|lia].
    apply last_Some in Elast as [pre ->].
    apply Forall_app in Hno as [_ Hno]. apply Forall_cons in Hno as [Hno _].
    pose proof (nofit_free _ _ Hno Hfree).
    apply layout_app in Hl as [_ [(_ & _ & Nb) _]]. lia. }
  assert (mm_sbrk (needed_growth n bl) s = (MAP_FAILED, s)) as Hsbrk
    by (apply mm_sbrk_grow_fail; (done || lia)).
  split; [exact Hsbrk|].
  intros p s' H. rewrite (mm_malloc_nofit s bl) in H by done.
  unfold mm_malloc_grow in H.
  destruct bl as [|b bl _] using rev_ind.
  - change (last_header (heap_start s) NULL []) with NULL in H.
    change (NULL =? NULL) with true in H. cbv iota in H.
    rewrite bind_Ok in H. unfold needed_growth in Hsbrk. simpl in Hsbrk.
    unfold meta_data_size in *.
    rewrite (size_add_small n 9) in H by (unfold modulus64; lia).
    rewrite to_int_small in H by (unfold is_int; lia).
    rewrite Hsbrk in H.
    rewrite store_size_outside in H; [done|]. unfold MAP_FAILED, modulus64. lia.
  - rewrite last_header_app in H.
    apply Forall_app in Hst as [_ Hstb]. apply Forall_cons in Hstb as [Hstb _].
    apply Forall_app in Hno as [_ Hnob]. apply Forall_cons in Hnob as [Hnob _].
    apply layout_app in Hl as [Hl [Hhb _]].
    pose proof (span_nonneg _ _ _ Hl) as Nbl.
    destruct Hhb as (Hbst & Hbsz & Nb).
    assert ((heap_start s + span bl =? NULL) = false) as E0
      by (apply Z.eqb_neq; unfold NULL; lia).
    rewrite E0, Hbst, !bind_Ok in H.
    unfold needed_growth in Hsbrk, Hpos. rewrite last_snoc in Hsbrk, Hpos.
    destruct (status_ok_free_or_occupied _ Hstb) as [Hfree|[Hfree Hocc]];
      rewrite Hfree in Hsbrk, Hpos.
    + unfold is_free in Hfree. apply Z.eqb_eq in Hfree. rewrite Hfree in H.
      change (META_DATA_STATUS_FREE =? META_DATA_STATUS_OCCUPIED) with false in H.
      cbv iota in H. rewrite Hbsz, bind_Ok in H. cbv zeta in H.
      rewrite (size_sub_small n) in H by (unfold modulus64; lia).
      rewrite to_int_small in H by (unfold is_int; lia).
      rewrite Hsbrk in H.
      destruct (store_size s _ n) as [s2| |] eqn:E2; try done. rewrite bind_Ok in H.
      destruct (store_status s2 _ _) as [s3| |] eqn:E3; try done. rewrite bind_Ok in H.
      injection H as _ <-. eapply store_header_break; eauto.
    + rewrite Hocc in H.
      change (META_DATA_STATUS_OCCUPIED =? META_DATA_STATUS_OCCUPIED) with true in H.
      cbv iota in H. unfold meta_data_size in *.
      rewrite (size_add_small n 9) in H by (unfold modulus64; lia).
      rewrite to_int_small in H by (unfold is_int; lia).
      rewrite Hsbrk in H.
      rewrite store_size_outside in H; [done|]. unfold MAP_FAILED, modulus64. lia.
Qed.

Example mm_malloc_exhausted_free2 :
  wf arena_free2 [FREE 2] /\
  mm_sbrk 7998 arena_free2 = (MAP_FAILED, arena_free2) /\
  heap_current_break (after_malloc 2 8000 arena_free2) = heap_current_break arena_free2.
Proof.
  assert (wf arena_free2 [FREE 2]) as Hwf by evaluate.
  destruct (mm_malloc_exhausted arena_free2 [FREE 2] 8000 2 Hwf) as [H1 H2];
    [evaluate|lia|evaluate|evaluate|simpl; lia|].
  split; [exact Hwf|]. split; [exact H1|].
  apply (H2 (base0 + 9)). vm_compute. reflexivity.
Qed.

(** The growth a request needs is, by design, only what a free last block
    lacks.  The request of 8 bytes with its header exceeds the 7 bytes the
    arena has left and no free block holds 8 bytes, yet the last block is
    free and lacks only 3 bytes: [mm_malloc] moves the break by 3 and hands
    out the last block. *)
Lemma mm_malloc_reuses_last_block :
  wf arena_tail_free5 [OCCUPIED 7970; FREE 5] /\
  heap_end arena_tail_free5 - heap_current_break arena_tail_free5 < 8 + meta_data_size /\
  Forall (fun b => fits 8 b = false) [OCCUPIED 7970; FREE 5] /\
  exists p s',
    mm_malloc 3 8 arena_tail_free5 = Ok (p, s') /\
    allocated p 8 s' /\
    heap_current_break s' = heap_current_break arena_tail_free5 + 3 /\
    wf s' [OCCUPIED 7970; OCCUPIED 8] /\
    s' <> arena_tail_free5.
Proof.
  split; [evaluate|]. split; [evaluate|]. split; [evaluate|].
  exists (base0 + 7988), (after_malloc 3 8 arena_tail_free5).
  split; [vm_compute; reflexivity|]. split; [evaluate|]. split; [evaluate|].
  split; [evaluate|].
  intros E. apply (f_equal heap_current_break) in E. vm_compute in E. discriminate E.
Qed.

(** The same slip with an empty list: the header is stored through
    MAP_FAILED. *)
Lemma exhausted_new_block_faults :
  heap_end (initial base0) - heap_current_break (initial base0) < 8000 + meta_data_size /\
  mm_malloc 1 8000 (initial base0) = Fault.
Proof. split; [evaluate|vm_compute; reflexivity]. Qed.

(** C1.  The claim: when the size and a header exceed what the arena has
    left and no free block satisfies the request, the allocation fails and
    no header is written or changed.  The program does not keep it, by a
    slip: [mm_malloc] never looks at what [mm_sbrk] answered.  After
    malloc a 2; free a the arena holds one free block of 2 bytes and 7989
    bytes are left; a request of 8000 bytes fits no block, exceeds what is
    left with or without its header, and [mm_sbrk] refuses the growth; yet
    [mm_malloc] returns the payload of the last block, whose header now
    says 8000 bytes, occupied, although the break did not move: the walk
    from [heap_start] runs over the break and the arena has no block list
    any more. *)
Theorem mm_malloc_exhausted_overwrites :
  wf arena_free2 [FREE 2] /\
  heap_end arena_free2 - heap_current_break arena_free2 < 8000 + meta_data_size /\
  heap_end arena_free2 - heap_current_break arena_free2 < needed_growth 8000 [FREE 2] /\
  Forall (fun b => fits 8000 b = false) [FREE 2] /\
  mm_sbrk (needed_growth 8000 [FREE 2]) arena_free2 = (MAP_FAILED, arena_free2) /\
  exists s',
    mm_malloc 2 8000 arena_free2 = Ok (base0 + 9, s') /\
    heap_current_break s' = heap_current_break arena_free2 /\
    header_at s' base0 (OCCUPIED 8000) /\
    ~ (exists bl, blocks_of s' bl).
Proof.
  split; [evaluate|]. split; [evaluate|]. split; [evaluate|]. split; [evaluate|].
  split; [vm_compute; reflexivity|].
  remember (after_malloc 2 8000 arena_free2) as s' eqn:Es'.
  assert (mm_malloc 2 8000 arena_free2 = Ok (base0 + 9, s')) as E
    by (subst s'; vm_compute; reflexivity).
  assert (heap_current_break s' = heap_current_break arena_free2) as Hsame
    by (subst s'; vm_compute; reflexivity).
  assert (heap_current_break s' = base0 + 11) as Hbrk
    by (subst s'; vm_compute; reflexivity).
  assert (heap_start s' = base0) as Hstart by (subst s'; vm_compute; reflexivity).
  assert (header_at s' base0 (OCCUPIED 8000)) as Hh by (subst s'; evaluate).
  clear Es'. exists s'.
  split; [exact E|]. split; [exact Hsame|]. split; [exact Hh|].
  intros (bl & Hl & Hsp). rewrite Hstart in Hl, Hsp. rewrite Hbrk in Hsp.
  destruct bl as [|b bl].
  - cbn [span] in Hsp. lia.
  - destruct Hl as [(_ & Hsz & _) Hl]. apply span_nonneg in Hl.
    destruct Hh as (_ & Hsz' & _).
    rewrite Hsz' in Hsz. injection Hsz as Hsz.
    cbn [span] in Hsp. unfold footprint, meta_data_size in Hsp.
    rewrite <- Hsz in Hsp. cbn [block_size OCCUPIED] in Hsp. lia.
Qed.

(** C2. In every state reached from a fresh arena by successful calls of
    [mm_malloc], by [mm_free] on blocks of the list and by
    [mm_combine_nearby_free] (and by writes into payloads, as [main] makes
    them), the walk from [heap_start] that advances by
    [meta_data_size + size] (the loop of [mm_print]) ends with its cursor
    exactly on the break, every block of the walk lies between [heap_start]
    and the break, and a block ends before any later block starts. *)
Theorem reachable_contiguous (s : state) :
  reachable s ->
  exists bl fuel,
    mm_print_loop fuel s (heap_current_break s) (heap_start s) 1
    = Ok (lines_of 1 bl, heap_current_break s) /\
    layout s (heap_start s) bl /\
    heap_start s + span bl = heap_current_break s /\
    (forall x, In x (addressed (heap_start s) bl) ->
       heap_start s <= x.1 /\ x.1 + footprint x.2 <= heap_current_break s) /\
    (forall (i j : nat) x y, (i < j)%nat ->
       addressed (heap_start s) bl !! i = Some x ->
       addressed (heap_start s) bl !! j = Some y ->
       x.1 + footprint x.2 <= y.1).
Proof.
  intros Hreach. destruct (reachable_wf s Hreach) as [bl Hwf].
  pose proof (wf_bounds _ _ Hwf) as (B1 & B2 & B3 & B4).
  destruct Hwf as (Hok & (Hl & Hsp) & Hst).
  exists bl, (S (length bl + 0)). split; [|split; [|split; [|split]]].
  - by apply mm_print_loop_layout.
  - exact Hl.
  - exact Hsp.
  - intros x Hx. rewrite <- Hsp. eapply addressed_bounds; eauto.
  - intros i j x y. by apply (addressed_ordered s).
Qed.

Lemma reachable_contiguous_witness :
  reachable arena_scenario /\
  exists bl fuel,
    mm_print_loop fuel arena_scenario (heap_current_break arena_scenario)
      (heap_start arena_scenario) 1
    = Ok (lines_of 1 bl, heap_current_break arena_scenario).
Proof.
  split; [exact reachable_scenario|].
  destruct (reachable_contiguous arena_scenario reachable_scenario)
    as (bl & fuel & H & _).
  exists bl, fuel. exact H.
Defined.

(** C3. When the request [n] is satisfied by the free block [b] of size
    [S], the first in the list that fits, [mm_malloc] returns the payload
    of [b], leaves the break alone, and: if [S > n + meta_data_size] the
    block becomes an occupied block of size [n] followed at once by a new
    free block of size [S - n - meta_data_size]; if [S <= n +
    meta_data_size] the block becomes occupied with its size [S] unchanged.
    The list gains a block exactly when [S > n + meta_data_size]. *)
Theorem mm_malloc_split (s : state) (pre post : list block) (b : block)
    (n : Z) (fuel : nat) :
  wf s (pre ++ b :: post) ->
  Forall (fun x => fits n x = false) pre -> fits n b = true ->
  0 <= n -> (length pre < fuel)%nat ->
  exists s',
    mm_malloc fuel n s = Ok (heap_start s + span pre + meta_data_size, s') /\
    heap_current_break s' = heap_current_break s /\
    (n + meta_data_size < block_size b ->
     wf s' (pre ++ [mkBlock n META_DATA_STATUS_OCCUPIED;
                    mkBlock (block_size b - n - meta_data_size) META_DATA_STATUS_FREE]
                ++ post)) /\
    (block_size b <= n + meta_data_size ->
     wf s' (pre ++ [mkBlock (block_size b) META_DATA_STATUS_OCCUPIED] ++ post)) /\
    (forall bl', blocks_of s' bl' ->
       length bl' = S (length (pre ++ b :: post)) <-> n + meta_data_size < block_size b).
Proof.
  intros Hwf Hpre Hb Hn Hfuel.
  destruct (mm_malloc_fit s pre b post n fuel Hwf Hpre Hb Hn Hfuel)
    as (s' & E & G & F & Hwf').
  exists s'. split; [exact E|]. split; [by destruct G as (_ & _ & G & _)|].
  unfold take_blocks in Hwf'.
  destruct (n + meta_data_size <? block_size b) eqn:Esplit.
  - apply Z.ltb_lt in Esplit. split; [done|]. split; [lia|].
    intros bl' Hbl'. destruct Hwf' as (_ & Hbl & _).
    rewrite (blocks_of_unique _ _ _ Hbl' Hbl).
    repeat first [rewrite length_app | progress simpl]. lia.
  - apply Z.ltb_ge in Esplit. split; [lia|]. split; [done|].
    intros bl' Hbl'. destruct Hwf' as (_ & Hbl & _).
    rewrite (blocks_of_unique _ _ _ Hbl' Hbl).
    repeat first [rewrite length_app | progress simpl]. lia.
Qed.

Lemma mm_malloc_split_witness :
  wf arena_free30_occ5 ([] ++ FREE 30 :: [OCCUPIED 5]) /\
  exists s',
    mm_malloc 1 3 arena_free30_occ5 = Ok (base0 + 9, s') /\
    wf s' [OCCUPIED 3; FREE 18; OCCUPIED 5].
Proof.
  split; [evaluate|].
  destruct (mm_malloc_split arena_free30_occ5 [] [OCCUPIED 5] (FREE 30) 3 1)
    as (s' & E & _ & Hsplit & _); [evaluate|constructor|evaluate|lia|simpl; lia|].
  exists s'. split; [exact E|]. apply Hsplit. evaluate.
Defined.

(** C4. [mm_malloc] takes the first block, in address order, that is free
    and at least as large as the request: it returns the payload of that
    block whatever blocks follow it, the blocks before and after it are as
    they were, and the break does not move.  With free blocks of sizes 2, 10
    and 5 a request of 4 takes the block of size 10. *)
Theorem mm_malloc_first_fit (s : state) (pre post : list block) (b : block)
    (n : Z) (fuel : nat) :
  wf s (pre ++ b :: post) ->
  Forall (fun x => fits n x = false) pre -> fits n b = true ->
  0 <= n -> (length pre < fuel)%nat ->
  exists s',
    mm_malloc fuel n s = Ok (heap_start s + span pre + meta_data_size, s') /\
    wf s' (pre ++ take_blocks n b ++ post) /\
    heap_current_break s' = heap_current_break s /\
    (pre = [FREE 2] -> b = FREE 10 -> post = [FREE 5] -> n = 4 ->
     mm_malloc fuel n s = Ok (heap_start s + 20, s') /\
     wf s' [FREE 2; OCCUPIED 10; FREE 5]).
Proof.
  intros Hwf Hpre Hb Hn Hfuel.
  destruct (mm_malloc_fit s pre b post n fuel Hwf Hpre Hb Hn Hfuel)
    as (s' & E & G & F & Hwf').
  exists s'. split; [exact E|]. split; [exact Hwf'|].
  split; [by destruct G as (_ & _ & G & _)|].
  intros -> -> -> ->. split.
  - rewrite E. f_equal. f_equal. simpl. unfold footprint, meta_data_size. simpl. lia.
  - exact Hwf'.
Qed.

Lemma mm_malloc_first_fit_witness :
  wf arena_free_2_10_5 ([FREE 2] ++ FREE 10 :: [FREE 5]) /\
  exists s',
    mm_malloc 2 4 arena_free_2_10_5 = Ok (base0 + 20, s') /\
    wf s' [FREE 2; OCCUPIED 10; FREE 5].
Proof.
  split; [evaluate|].
  destruct (mm_malloc_first_fit arena_free_2_10_5 [FREE 2] [FREE 5] (FREE 10) 4 2)
    as (s' & _ & _ & _ & H); [evaluate|evaluate|evaluate|lia|simpl; lia|].
  exists s'. apply H; reflexivity.
Defined.

(** C5. When no block satisfies the request [n] and the last block of the
    list is free, of size [L], then [L < n], and if the arena has room for
    [n - L] more bytes [mm_malloc] moves the break up by exactly [n - L],
    gives the last block the size [n] and the status occupied, returns its
    payload, and the list has as many blocks as before.  With a single free
    block of size 2 a request of 10 moves the break by 8. *)
Theorem mm_malloc_grows_last (s : state) (pre : list block) (b : block)
    (n : Z) (fuel : nat) :
  wf s (pre ++ [b]) ->
  Forall (fun x => fits n x = false) (pre ++ [b]) -> is_free b = true ->
  heap_current_break s + (n - block_size b) <= heap_end s ->
  (length (pre ++ [b]) < fuel)%nat ->
  block_size b < n /\
  exists s',
    mm_malloc fuel n s = Ok (heap_start s + span pre + meta_data_size, s') /\
    heap_current_break s' = heap_current_break s + (n - block_size b) /\
    wf s' (pre ++ [mkBlock n META_DATA_STATUS_OCCUPIED]) /\
    (pre = [] -> b = FREE 2 -> n = 10 ->
     heap_current_break s' = heap_current_break s + 8 /\
     wf s' [OCCUPIED 10]).
Proof.
  intros Hwf Hno Hfree Hroom Hfuel.
  assert (block_size b < n) as Hsmall.
  { apply Forall_app in Hno as [_ Hno]. apply Forall_cons in Hno as [Hno _].
    by apply nofit_free. }
  split; [exact Hsmall|].
  rewrite (mm_malloc_nofit s (pre ++ [b])) by done.
  rewrite last_header_app.
  destruct (mm_malloc_grow_last s pre b n Hwf Hfree Hsmall Hroom)
    as (s' & E & Hwf' & _ & _ & Hbrk & _).
  exists s'. split; [exact E|]. split; [exact Hbrk|]. split; [exact Hwf'|].
  intros -> -> ->. split; [|exact Hwf']. rewrite Hbrk. simpl. lia.
Qed.

Lemma mm_malloc_grows_last_witness :
  wf arena_free2 ([] ++ [FREE 2]) /\
  exists s',
    mm_malloc 2 10 arena_free2 = Ok (base0 + 9, s') /\
    heap_current_break s' = heap_current_break arena_free2 + 8 /\
    wf s' [OCCUPIED 10].
Proof.
  split; [evaluate|].
  destruct (mm_malloc_grows_last arena_free2 [] (FREE 2) 10 2)
    as (_ & s' & E & _ & _ & H); [evaluate|evaluate|evaluate|evaluate|simpl; lia|].
  exists s'. split; [exact E|]. apply H; reflexivity.
Defined.

(** C6. One call of [mm_combine_nearby_free] turns the block list into the
    list of its maximal runs, each collapsed to one block.  The runs cover
    the list in order; a run of more than one block holds free blocks only;
    no two neighbouring runs are both free.  A run collapses to a block with
    the status of its first block, whose size is the sum of the sizes of the
    run plus [meta_data_size] for every block of the run but the first.
    The break does not move, and every block that is not free has the same
    address, size and status as before.  Three free blocks of sizes 3, 4
    and 5 become one free block of size [3 + 4 + 5 + 2 * meta_data_size]. *)
Theorem mm_combine_collapses_runs (s : state) (bl : list block) (fuel : nat) :
  wf s bl -> (length bl < fuel)%nat ->
  exists s',
    mm_combine_nearby_free fuel s = Ok s' /\
    wf s' (map merge_run (runs bl)) /\
    heap_current_break s' = heap_current_break s /\
    flatten (runs bl) = bl /\
    Forall is_run (runs bl) /\
    maximal (runs bl) /\
    (forall r, In r (runs bl) ->
       block_status (merge_run r) = block_status r.1 /\
       block_size (merge_run r)
       = sum_sizes (run_blocks r)
         + meta_data_size * (Z.of_nat (length (run_blocks r)) - 1)) /\
    (forall a b, In (a, b) (addressed (heap_start s) bl) -> is_free b = false ->
       In (a, b) (addressed (heap_start s') (map merge_run (runs bl)))) /\
    (bl = [FREE 3; FREE 4; FREE 5] ->
     wf s' [FREE (3 + 4 + 5 + 2 * meta_data_size)]).
Proof.
  intros Hwf Hfuel.
  destruct (mm_combine_wf s bl fuel Hwf Hfuel) as (s' & E & G & F & Hwf' & _).
  exists s'. split; [exact E|]. split; [exact Hwf'|].
  split; [by destruct G as (_ & _ & G & _)|].
  split; [apply flatten_runs|]. split; [apply is_run_runs|].
  split; [apply maximal_runs|]. split; [|split].
  - intros r _. split; [done|]. apply merge_run_size.
  - intros a b Hin Hb. destruct G as (-> & _).
    apply addressed_coalesce; [apply is_run_runs| |done].
    by rewrite flatten_runs.
  - intros ->. exact Hwf'.
Qed.

Lemma mm_combine_collapses_runs_witness :
  wf arena_free_3_4_5 [FREE 3; FREE 4; FREE 5] /\
  exists s',
    mm_combine_nearby_free 4 arena_free_3_4_5 = Ok s' /\
    wf s' [FREE (3 + 4 + 5 + 2 * meta_data_size)].
Proof.
  split; [evaluate|].
  destruct (mm_combine_collapses_runs arena_free_3_4_5 [FREE 3; FREE 4; FREE 5] 4)
    as (s' & E & _ & _ & _ & _ & _ & _ & _ & H); [evaluate|simpl; lia|].
  exists s'. split; [exact E|]. apply H. reflexivity.
Defined.

(** C7. [mm_combine_nearby_free] is idempotent: a second call right after
    a first one returns the state the first call returned, so [mm_print]
    prints the same lines after the one and after the other. *)
Theorem mm_combine_idempotent (s : state) (bl : list block) (fuel1 fuel2 fuel3 : nat) :
  wf s bl ->
  (length bl < fuel1)%nat -> (length bl < fuel2)%nat -> (length bl < fuel3)%nat ->
  exists s1 s2 out,
    mm_combine_nearby_free fuel1 s = Ok s1 /\
    mm_combine_nearby_free fuel2 s1 = Ok s2 /\
    s2 = s1 /\
    mm_print fuel3 s1 = Ok out /\
    mm_print fuel3 s2 = Ok out.
Proof.
  intros Hwf H1 H2 H3.
  destruct (mm_combine_wf s bl fuel1 Hwf H1) as (s1 & E1 & _ & _ & Hwf1 & _).
  pose proof (length_coalesce bl) as Hlen.
  destruct (mm_combine_wf s1 (coalesce bl) fuel2 Hwf1) as (s2 & E2 & _ & _ & _ & Same);
    [lia|].
  assert (s2 = s1) as ->.
  { apply Same. unfold coalesce. rewrite runs_coalesce by apply maximal_runs.
    induction (runs bl) as [|r gs IH]; by constructor. }
  exists s1, s1, (lines_of 1 (coalesce bl)).
  split; [exact E1|]. split; [exact E2|]. split; [done|].
  split; apply mm_print_wf; (done || lia).
Qed.

Lemma mm_combine_idempotent_witness :
  wf arena_free_3_4_5 [FREE 3; FREE 4; FREE 5] /\
  exists s1,
    mm_combine_nearby_free 4 arena_free_3_4_5 = Ok s1 /\
    mm_combine_nearby_free 4 s1 = Ok s1.
Proof.
  split; [evaluate|].
  destruct (mm_combine_idempotent arena_free_3_4_5 [FREE 3; FREE 4; FREE 5] 4 4 4)
    as (s1 & s2 & out & E1 & E2 & -> & _); [evaluate|simpl; lia..|].
  exists s1. split; [exact E1|exact E2].
Defined.

(** C8. [mm_sbrk] keeps its contract.  With one of the three globals still
    NULL it answers MAP_FAILED and changes nothing.  On a placed arena the
    break is never MAP_FAILED, so the failure value cannot be mistaken for
    an answer, and: a request of 0 answers the break without a change; a
    positive request that stays at or below [heap_end] answers the old
    break and leaves the break at the old one plus the request, one that
    does not stay below answers MAP_FAILED and changes nothing; a negative
    request that stays at or above [heap_start] answers the old break and
    leaves the break at the old one plus the request, one that does not
    answers MAP_FAILED and changes nothing.  A request that moves the break
    changes neither [heap_start], [heap_end] nor a byte of the arena.  The
    program has the one failure value MAP_FAILED for the three kinds of
    failure. *)
Theorem mm_sbrk_contract (s : state) (delta : Z) :
  is_int delta ->
  (heap_start s = NULL \/ heap_end s = NULL \/ heap_current_break s = NULL ->
   mm_sbrk delta s = (MAP_FAILED, s)) /\
  (arena_ok s ->
   heap_current_break s <> MAP_FAILED /\
   (delta = 0 -> mm_sbrk delta s = (heap_current_break s, s)) /\
   (0 < delta -> heap_current_break s + delta <= heap_end s ->
    (mm_sbrk delta s).1 = heap_current_break s /\
    heap_current_break (mm_sbrk delta s).2 = heap_current_break s + delta /\
    heap_start (mm_sbrk delta s).2 = heap_start s /\
    heap_end (mm_sbrk delta s).2 = heap_end s /\
    heap (mm_sbrk delta s).2 = heap s) /\
   (0 < delta -> heap_end s < heap_current_break s + delta ->
    mm_sbrk delta s = (MAP_FAILED, s)) /\
   (delta < 0 -> heap_start s <= heap_current_break s + delta ->
    (mm_sbrk delta s).1 = heap_current_break s /\
    heap_current_break (mm_sbrk delta s).2 = heap_current_break s + delta /\
    heap_start (mm_sbrk delta s).2 = heap_start s /\
    heap_end (mm_sbrk delta s).2 = heap_end s /\
    heap (mm_sbrk delta s).2 = heap s) /\
   (delta < 0 -> heap_current_break s + delta < heap_start s ->
    mm_sbrk delta s = (MAP_FAILED, s))).
Proof.
  intros Hint. split.
  - apply mm_sbrk_uninitialised.
  - intros Hok. split; [|split; [|split; [|split; [|split]]]].
    + destruct Hok as (A1 & A2 & A3 & A4 & A5). unfold MAP_FAILED. lia.
    + intros ->. by apply mm_sbrk_zero.
    + intros Hd Hle. by rewrite mm_sbrk_grow.
    + intros. by apply mm_sbrk_grow_fail.
    + intros Hd Hle. by rewrite mm_sbrk_shrink.
    + intros. by apply mm_sbrk_shrink_fail.
Qed.

Lemma mm_sbrk_contract_witness :
  is_int 16 /\ arena_ok (initial base0) /\
  ((mm_sbrk 16 (initial base0)).1 = base0 /\
   heap_current_break (mm_sbrk 16 (initial base0)).2 = base0 + 16 /\
   heap_start (mm_sbrk 16 (initial base0)).2 = base0 /\
   heap_end (mm_sbrk 16 (initial base0)).2 = base0 + 8000 /\
   heap (mm_sbrk 16 (initial base0)).2 = heap (initial base0)) /\
  mm_sbrk 8001 (initial base0) = (MAP_FAILED, initial base0) /\
  mm_sbrk (-1) (initial base0) = (MAP_FAILED, initial base0) /\
  mm_sbrk 16 uninitialised = (MAP_FAILED, uninitialised).
Proof.
  assert (arena_ok (initial base0)) as Hok by evaluate.
  split; [evaluate|]. split; [exact Hok|]. split; [|split; [|split]].
  - destruct (mm_sbrk_contract (initial base0) 16) as [_ H]; [evaluate|].
    destruct (H Hok) as (_ & _ & Hgrow & _). apply Hgrow; evaluate.
  - destruct (mm_sbrk_contract (initial base0) 8001) as [_ H]; [evaluate|].
    destruct (H Hok) as (_ & _ & _ & Hfail & _). apply Hfail; evaluate.
  - destruct (mm_sbrk_contract (initial base0) (-1)) as [_ H]; [evaluate|].
    destruct (H Hok) as (_ & _ & _ & _ & _ & Hfail). apply Hfail; evaluate.
  - destruct (mm_sbrk_contract uninitialised 16) as [H _]; [evaluate|].
    apply H. by left.
Defined.

(** C9. [mm_free] on the payload address of a block of the list writes the
    status byte of that block's header and nothing else: the list is the old
    one with that block free, sizes and the other statuses as they were; the
    three globals and every other byte of the arena are unchanged (no block
    is merged, the break does not move); on a block that is free already the
    whole state is unchanged. *)
Theorem mm_free_only_status (s : state) (pre post : list block) (b : block) :
  wf s (pre ++ b :: post) ->
  let p := heap_start s + span pre + meta_data_size in
  exists s',
    mm_free p s = Ok s' /\
    wf s' (pre ++ mkBlock (block_size b) META_DATA_STATUS_FREE :: post) /\
    heap_start s' = heap_start s /\ heap_end s' = heap_end s /\
    heap_current_break s' = heap_current_break s /\
    (forall a, a <> p - 1 -> load_bytes s' a 1 = load_bytes s a 1) /\
    (is_free b = true -> s' = s).
Proof.
  intros Hwf p.
  destruct (mm_free_block s pre b post Hwf) as (s' & E & G & F & Hwf' & Hid).
  exists s'. split; [exact E|]. split; [exact Hwf'|].
  destruct G as (G1 & G2 & G3 & G4). repeat split; try done.
  intros a Ha. unfold p, meta_data_size in Ha.
  apply (F a (a + 1)); lia.
Qed.

Lemma mm_free_only_status_witness :
  wf arena_free30_occ5 ([FREE 30] ++ OCCUPIED 5 :: []) /\
  exists s',
    mm_free (base0 + 48) arena_free30_occ5 = Ok s' /\
    wf s' [FREE 30; FREE 5].
Proof.
  split; [evaluate|].
  destruct (mm_free_only_status arena_free30_occ5 [FREE 30] [] (OCCUPIED 5))
    as (s' & E & Hwf & _); [evaluate|].
  exists s'. split; [exact E|exact Hwf].
Defined.

(** C10, as the program keeps it. [mm_malloc] never returns the null
    pointer: for every request and every state of a placed arena, a value
    it returns is different from NULL, so the test of its result against
    NULL in [main] never sees a failure. *)
Theorem mm_malloc_never_null (s : state) (n : Z) (fuel : nat) (p : Z) (s' : state) :
  arena_ok s -> mm_malloc fuel n s = Ok (p, s') -> p <> NULL.
Proof.
  intros Hok H. unfold mm_malloc in H. rewrite mm_sbrk_zero in H by done.
  simpl in H. eapply mm_malloc_loop_nonnull; [exact Hok| |by left|exact H].
  destruct Hok as (_ & ? & _). lia.
Qed.

(** The request cannot be met (the one free block is too small and the
    arena cannot grow by 7998 bytes), and the value returned is not NULL. *)
Lemma mm_malloc_never_null_witness :
  arena_ok arena_free2 /\
  mm_malloc 2 8000 arena_free2 = Ok (base0 + 9, after_malloc 2 8000 arena_free2) /\
  base0 + 9 <> NULL.
Proof.
  assert (arena_ok arena_free2) as Hok by evaluate.
  assert (mm_malloc 2 8000 arena_free2 = Ok (base0 + 9, after_malloc 2 8000 arena_free2))
    as E by (vm_compute; reflexivity).
  split; [exact Hok|]. split; [exact E|].
  exact (mm_malloc_never_null arena_free2 8000 2 (base0 + 9) _ Hok E).
Defined.

(** C10 as stated fails: with an empty list and a request the arena cannot
    hold, [mm_sbrk] answers MAP_FAILED and the header is stored through that
    address, outside the arena; no value is returned. *)
Lemma mm_malloc_null_counterexample :
  (forall fuel, mm_malloc (S fuel) 8000 (initial base0) = Fault) /\
  ~ (exists fuel p s', mm_malloc fuel 8000 (initial base0) = Ok (p, s')).
Proof.
  assert (forall fuel, mm_malloc (S fuel) 8000 (initial base0) = Fault) as H.
  { intros fuel. vm_compute. reflexivity. }
  split; [exact H|].
  intros (fuel & p & s' & E). destruct fuel as [|fuel]; [discriminate E|].
  rewrite H in E. discriminate E.
Qed.

(** * Further properties of the program

    ** mm_sbrk *)

Lemma mm_sbrk_same_bytes d s a n : load_bytes (mm_sbrk d s).2 a n = load_bytes s a n.
Proof.
  unfold mm_sbrk.
  repeat match goal with |- context [if ?c then _ else _] => destruct c end; reflexivity.
Qed.

Lemma mm_sbrk_arena_ok s d : arena_ok s -> is_int d -> arena_ok (mm_sbrk d s).2.
Proof.
  intros Hok Hint. destruct (mm_sbrk_cases s d Hok Hint) as [[-> _]|[-> B]]; [done|].
  destruct Hok as (A1 & A2 & A3 & A4 & A5). unfold arena_ok. simpl. lia.
Qed.

(** X1. Whatever int is asked of [mm_sbrk] on a placed arena, the break
    stays between [heap_start] and [heap_end], the bytes of the arena and
    the two bounds are untouched, a failure (MAP_FAILED) changes nothing at
    all, and any other answer is the old break, the new one being the old
    one plus the request. *)
Theorem mm_sbrk_keeps_arena (s : state) (d : Z) :
  arena_ok s -> is_int d ->
  arena_ok (mm_sbrk d s).2 /\
  heap (mm_sbrk d s).2 = heap s /\
  heap_start (mm_sbrk d s).2 = heap_start s /\
  heap_end (mm_sbrk d s).2 = heap_end s /\
  ((mm_sbrk d s).1 = MAP_FAILED -> (mm_sbrk d s).2 = s) /\
  ((mm_sbrk d s).1 <> MAP_FAILED ->
   (mm_sbrk d s).1 = heap_current_break s /\
   heap_current_break (mm_sbrk d s).2 = heap_current_break s + d).
Proof.
  intros Hok Hint. split; [by apply mm_sbrk_arena_ok|].
  destruct (mm_sbrk_cases s d Hok Hint) as [[-> _]|[-> B]]; simpl.
  - repeat split; try done.
  - repeat split; try done.
    intros E. destruct Hok as (A1 & A2 & A3 & A4 & A5).
    unfold MAP_FAILED in E. lia.
Qed.

Lemma mm_sbrk_keeps_arena_witness :
  arena_ok (initial base0) /\ is_int 100 /\
  arena_ok (mm_sbrk 100 (initial base0)).2 /\
  heap_current_break (mm_sbrk 100 (initial base0)).2 = base0 + 100.
Proof.
  assert (arena_ok (initial base0)) as Hok by evaluate.
  assert (is_int 100) as Hint by evaluate.
  destruct (mm_sbrk_keeps_arena (initial base0) 100 Hok Hint)
    as (H1 & _ & _ & _ & _ & H2).
  split; [exact Hok|]. split; [exact Hint|]. split; [exact H1|].
  apply H2. evaluate.
Defined.

(** X2. Growing and shrinking cancel: when a request [d] succeeds, the
    request [- d] right after it succeeds too, answers the break the first
    one left, and gives back the state the first one started from. *)
Theorem mm_sbrk_round_trip (s : state) (d : Z) :
  arena_ok s -> is_int d -> is_int (- d) ->
  (mm_sbrk d s).1 <> MAP_FAILED ->
  mm_sbrk (- d) (mm_sbrk d s).2 = (heap_current_break s + d, s).
Proof.
  intros Hok Hint Hint' Hnf.
  pose proof (mm_sbrk_arena_ok s d Hok Hint) as Hok'.
  destruct (mm_sbrk_cases s d Hok Hint) as [[E _]|[E B]]; rewrite E in *; [done|].
  simpl in *. pose proof Hok as (A1 & A2 & A3 & A4 & A5).
  destruct (Z.lt_trichotomy d 0) as [Hd|[->|Hd]].
  - rewrite mm_sbrk_grow; simpl; try done; try lia.
    f_equal. destruct s. unfold set_break. simpl. f_equal. lia.
  - simpl. rewrite mm_sbrk_zero by done. simpl. f_equal.
    destruct s. unfold set_break. simpl. f_equal. lia.
  - rewrite mm_sbrk_shrink; simpl; try done; try lia.
    f_equal. destruct s. unfold set_break. simpl. f_equal. lia.
Qed.

Lemma mm_sbrk_round_trip_witness :
  arena_ok arena_free2 /\
  mm_sbrk (- 100) (mm_sbrk 100 arena_free2).2 = (base0 + 11 + 100, arena_free2).
Proof.
  assert (arena_ok arena_free2) as Hok by evaluate.
  split; [exact Hok|].
  apply (mm_sbrk_round_trip arena_free2 100 Hok); evaluate.
Defined.

(** ** mm_print *)

Lemma span_length s a bl : layout s a bl -> meta_data_size * Z.of_nat (length bl) <= span bl.
Proof.
  revert a. induction bl as [|b bl IH]; intros a; simpl; [unfold meta_data_size; lia|].
  intros [(_ & _ & Nb) Hl]. apply IH in Hl. unfold footprint, meta_data_size in *. lia.
Qed.

Lemma span_block_size s a bl (i : nat) b :
  layout s a bl -> bl !! i = Some b -> 0 <= block_size b /\ footprint b <= span bl.
Proof.
  revert a i. induction bl as [|c bl IH]; intros a i; [done|].
  intros [(_ & _ & Nc) Hl] Hi. pose proof (span_nonneg _ _ _ Hl) as Nbl.
  destruct i as [|i]; simpl in *.
  - injection Hi as <-. unfold footprint, meta_data_size. lia.
  - destruct (IH _ _ Hl Hi). unfold footprint, meta_data_size in *. lia.
Qed.

Lemma lookup_lines_of bl : forall (k : Z) (i : nat) b,
  0 <= k -> k + Z.of_nat (length bl) < 2 ^ 31 ->
  bl !! i = Some b -> lines_of k bl !! i = Some (line_of (k + Z.of_nat i) b).
Proof.
  induction bl as [|c bl IH]; intros k i b Hk Hlen Hi; [done|].
  simpl in Hlen. destruct i as [|i]; simpl in *.
  - injection Hi as <-. do 2 f_equal. lia.
  - rewrite to_int_small by (unfold is_int; lia).
    rewrite (IH (k + 1) i b) by (done || lia). do 2 f_equal. lia.
Qed.

Lemma length_lines_of bl : forall k, length (lines_of k bl) = length bl.
Proof. induction bl as [|c bl IH]; intros k; simpl; [done|]. by rewrite IH. Qed.

(** X3. On a well-formed arena [mm_print] prints one line for each block,
    in address order: the line of the block at position [i] carries the
    number [i + 1], FREE for a free block and OCCP for any other, the size
    of the payload, and the word byte for the size 1, bytes otherwise. *)
Theorem mm_print_lines (s : state) (bl : list block) (fuel : nat) :
  wf s bl -> (length bl < fuel)%nat ->
  exists out,
    mm_print fuel s = Ok out /\
    length out = length bl /\
    (forall (i : nat) b, bl !! i = Some b ->
       out !! i = Some (mkLine (Z.of_nat i + 1)
                          (if is_free b then "FREE" else "OCCP")
                          (block_size b)
                          (if block_size b =? 1 then "byte" else "bytes"))).
Proof.
  intros Hwf Hfuel. exists (lines_of 1 bl).
  split; [by apply mm_print_wf|]. split; [apply length_lines_of|].
  intros i b Hi.
  destruct Hwf as ((A1 & A2 & A3 & A4 & A5) & (Hl & Hsp) & _).
  pose proof (span_length _ _ _ Hl) as Hlen.
  destruct (span_block_size _ _ _ _ _ Hl Hi) as [Nb Hb].
  unfold footprint, meta_data_size in *.
  rewrite (lookup_lines_of bl 1 i b) by (done || lia).
  unfold line_of. rewrite to_long_small by lia. do 2 f_equal. lia.
Qed.

Lemma mm_print_lines_witness :
  wf arena_free30_occ5 [FREE 30; OCCUPIED 5] /\
  exists out,
    mm_print 3 arena_free30_occ5 = Ok out /\
    out !! 1%nat = Some (mkLine 2 "OCCP" 5 "bytes").
Proof.
  assert (wf arena_free30_occ5 [FREE 30; OCCUPIED 5]) as Hwf by evaluate.
  split; [exact Hwf|].
  destruct (mm_print_lines arena_free30_occ5 [FREE 30; OCCUPIED 5] 3 Hwf)
    as (out & E & _ & H); [simpl; lia|].
  exists out. split; [exact E|]. apply (H 1%nat (OCCUPIED 5)). reflexivity.
Defined.

(** ** mm_free *)

Lemma store_byte_commute s a b c s1 s2 :
  store_bytes s a [c] = Ok s1 -> store_bytes s1 b [c] = Ok s2 ->
  exists s1', store_bytes s b [c] = Ok s1' /\ store_bytes s1' a [c] = Ok s2.
Proof.
  intros E1 E2.
  apply store_bytes_Ok in E1 as (-> & A1 & A2).
  apply store_bytes_Ok in E2 as (-> & B1 & B2).
  simpl in *. rewrite length_insert in B2.
  exists (set_heap s (list_inserts (offset s b) [c] (heap s))). split.
  - apply store_bytes_in_mapping; simpl; lia.
  - rewrite store_bytes_in_mapping; simpl; rewrite ?length_insert; try lia.
    f_equal. unfold set_heap, offset. simpl. f_equal.
    destruct (decide (a = b)) as [->|Hne]; [done|].
    apply list_insert_insert_ne. lia.
Qed.

(** X4. Two calls of [mm_free] can be swapped: freeing [p] then [q] leaves
    the state that freeing [q] then [p] leaves, whatever the two addresses
    are. *)
Theorem mm_free_commutes (s : state) (p q : Z) (s1 s2 : state) :
  mm_free p s = Ok s1 -> mm_free q s1 = Ok s2 ->
  exists s1', mm_free q s = Ok s1' /\ mm_free p s1' = Ok s2.
Proof. unfold mm_free, store_status. apply store_byte_commute. Qed.

Lemma mm_free_commutes_witness :
  exists s1',
    mm_free (base0 + 48) arena_free30_occ5 = Ok s1' /\
    mm_free (base0 + 9) s1'
    = Ok (after_free (base0 + 48) (after_free (base0 + 9) arena_free30_occ5)).
Proof.
  apply (mm_free_commutes arena_free30_occ5 (base0 + 9) (base0 + 48)
           (after_free (base0 + 9) arena_free30_occ5)).
  - vm_compute. reflexivity.
  - vm_compute. reflexivity.
Defined.

(** ** mm_malloc *)

Lemma store_size_globals s a v s' : store_size s a v = Ok s' -> same_globals s s'.
Proof. apply store_bytes_globals. Qed.

Lemma store_status_globals s a c s' : store_status s a c = Ok s' -> same_globals s s'.
Proof. apply store_bytes_globals. Qed.

Lemma mm_malloc_take_globals size cur s p s' :
  mm_malloc_take size cur s = Ok (p, s') -> same_globals s s'.
Proof.
  unfold mm_malloc_take. bind_step sp Esplit. destruct sp.
  - bind_step s3 E3'. revert E3'. bind_step sz Esz. bind_step s1 E1. bind_step s2 E2.
    intros E3. bind_step s4 E4. intros [= _ <-].
    apply store_size_globals in E1, E3. apply store_status_globals in E2, E4.
    eauto using same_globals_trans.
  - rewrite bind_Ok. bind_step s4 E4. intros [= _ <-].
    by apply store_status_globals in E4.
Qed.

Lemma arena_ok_stores s s1 s2 :
  arena_ok s1 -> heap_start s1 = heap_start s -> heap_end s1 = heap_end s ->
  length (heap s1) = length (heap s) ->
  same_globals s1 s2 ->
  arena_ok s2 /\ heap_start s2 = heap_start s /\ heap_end s2 = heap_end s /\
  length (heap s2) = length (heap s).
Proof.
  intros Hok E1 E2 E3 G. split; [by eapply arena_ok_same_globals|].
  destruct G as (?&?&?&?). repeat split; congruence.
Qed.

Lemma mm_sbrk_globals d s :
  heap_start (mm_sbrk d s).2 = heap_start s /\ heap_end (mm_sbrk d s).2 = heap_end s /\
  heap (mm_sbrk d s).2 = heap s.
Proof.
  unfold mm_sbrk.
  repeat match goal with |- context [if ?c then _ else _] => destruct c end; done.
Qed.

Lemma mm_malloc_grow_arena_ok size lastBlock s p s' :
  arena_ok s -> mm_malloc_grow size lastBlock s = Ok (p, s') ->
  arena_ok s' /\ heap_start s' = heap_start s /\ heap_end s' = heap_end s /\
  length (heap s') = length (heap s).
Proof.
  intros Hok. unfold mm_malloc_grow. bind_step occupied Eocc. destruct occupied.
  - pose proof (mm_sbrk_arena_ok s (to_int (size_add size meta_data_size)) Hok
                  (to_int_range _)) as Hok1.
    pose proof (mm_sbrk_globals (to_int (size_add size meta_data_size)) s)
      as (G1 & G2 & G3).
    destruct (mm_sbrk _ s) as [start s1]. simpl in *.
    bind_step s2 E2. bind_step s3 E3.
    intros [= _ <-]. apply store_size_globals in E2. apply store_status_globals in E3.
    apply (arena_ok_stores s s1 s3); eauto using same_globals_trans. by rewrite G3.
  - bind_step lsz Elsz. cbv zeta.
    pose proof (mm_sbrk_arena_ok s (to_int (size_sub size lsz)) Hok (to_int_range _))
      as Hok1.
    pose proof (mm_sbrk_globals (to_int (size_sub size lsz)) s) as (G1 & G2 & G3).
    destruct (mm_sbrk _ s) as [start s1]. simpl in *.
    bind_step s2 E2. bind_step s3 E3.
    intros [= _ <-]. apply store_size_globals in E2. apply store_status_globals in E3.
    apply (arena_ok_stores s s1 s3); eauto using same_globals_trans. by rewrite G3.
Qed.

Lemma mm_malloc_loop_arena_ok size brk s fuel : forall cur lastBlock p s',
  arena_ok s -> mm_malloc_loop fuel size brk cur lastBlock s = Ok (p, s') ->
  arena_ok s' /\ heap_start s' = heap_start s /\ heap_end s' = heap_end s /\
  length (heap s') = length (heap s).
Proof.
  induction fuel as [|fuel IH]; intros cur lastBlock p s' Hok; [done|].
  rewrite mm_malloc_loop_S.
  destruct (cur <? brk).
  - bind_step st Est. bind_step fit Efit. destruct fit.
    + intros H. apply mm_malloc_take_globals in H.
      by apply (arena_ok_stores s s s').
    + bind_step sz Esz. by apply IH.
  - by apply mm_malloc_grow_arena_ok.
Qed.

(** X6. Whatever is requested and whatever bytes the arena holds, a call
    of [mm_malloc] that returns leaves the break between [heap_start] and
    [heap_end] and does not change the two bounds or the length of the
    arena. *)
Theorem mm_malloc_keeps_arena (s : state) (n : Z) (fuel : nat) (p : Z) (s' : state) :
  arena_ok s -> mm_malloc fuel n s = Ok (p, s') ->
  arena_ok s' /\ heap_start s' = heap_start s /\ heap_end s' = heap_end s /\
  length (heap s') = length (heap s).
Proof. intros Hok. unfold mm_malloc. by apply mm_malloc_loop_arena_ok. Qed.

Lemma mm_malloc_keeps_arena_witness :
  arena_ok arena_free2 /\
  mm_malloc 2 8000 arena_free2 = Ok (base0 + 9, after_malloc 2 8000 arena_free2) /\
  arena_ok (after_malloc 2 8000 arena_free2).
Proof.
  assert (arena_ok arena_free2) as Hok by evaluate.
  assert (mm_malloc 2 8000 arena_free2 = Ok (base0 + 9, after_malloc 2 8000 arena_free2))
    as E by (vm_compute; reflexivity).
  split; [exact Hok|]. split; [exact E|].
  exact (proj1 (mm_malloc_keeps_arena arena_free2 8000 2 _ _ Hok E)).
Defined.

(** X7. When no block satisfies the request and the list is empty or ends
    with a block that is not free, and the arena has room for a header and
    the payload, [mm_malloc] puts a new occupied block of the requested size
    at the old break, moves the break up by the size plus
    [meta_data_size], returns the old break plus [meta_data_size], and
    leaves every byte below the old break as it was. *)
Theorem mm_malloc_appends (s : state) (bl : list block) (n : Z) (fuel : nat) :
  wf s bl -> Forall (fun b => fits n b = false) bl ->
  bl = [] \/ (exists pre b, bl = pre ++ [b] /\ is_free b = false) ->
  0 <= n -> heap_current_break s + n + meta_data_size <= heap_end s ->
  (length bl < fuel)%nat ->
  exists s',
    mm_malloc fuel n s = Ok (heap_current_break s + meta_data_size, s') /\
    wf s' (bl ++ [mkBlock n META_DATA_STATUS_OCCUPIED]) /\
    heap_current_break s' = heap_current_break s + n + meta_data_size /\
    same_bytes s s' (heap_start s) (heap_current_break s).
Proof.
  intros Hwf Hno Hlast Hn Hroom Hfuel.
  rewrite (mm_malloc_nofit s bl) by done.
  assert (last_header (heap_start s) NULL bl = NULL \/
          load_status s (last_header (heap_start s) NULL bl)
          = Ok META_DATA_STATUS_OCCUPIED) as Hlb.
  { destruct Hlast as [->|(pre & b & -> & Hb)]; [by left|right].
    rewrite last_header_app.
    destruct Hwf as (_ & (Hl & _) & Hst).
    apply layout_app in Hl as [_ [(Hbst & _) _]]. rewrite Hbst.
    apply Forall_app in Hst as [_ Hst]. apply Forall_cons in Hst as [Hst _].
    destruct (status_ok_free_or_occupied _ Hst) as [?|[_ ->]]; [congruence|done]. }
  destruct (mm_malloc_grow_new s bl n _ Hwf Hn Hlb Hroom)
    as (s' & E & Hwf' & _ & _ & Hbrk & F).
  exists s'. split; [exact E|]. split; [exact Hwf'|]. split; [exact Hbrk|].
  apply F. left. lia.
Qed.

Lemma mm_malloc_appends_witness :
  wf arena_free30_occ5 [FREE 30; OCCUPIED 5] /\
  exists s',
    mm_malloc 3 64 arena_free30_occ5 = Ok (base0 + 53 + 9, s') /\
    wf s' [FREE 30; OCCUPIED 5; OCCUPIED 64] /\
    heap_current_break s' = base0 + 53 + 64 + 9.
Proof.
  split; [evaluate|].
  destruct (mm_malloc_appends arena_free30_occ5 [FREE 30; OCCUPIED 5] 64 3)
    as (s' & E & Hwf & Hbrk & _);
    [evaluate|repeat constructor| |lia|evaluate|simpl; lia|].
  - right. exists [FREE 30], (OCCUPIED 5). split; reflexivity.
  - exists s'. split; [exact E|]. split; [exact Hwf|]. exact Hbrk.
Defined.

(** ** What mm_malloc writes *)

Lemma mm_sbrk_frame d s lo hi : frame s (mm_sbrk d s).2 lo hi.
Proof. intros l h _ b n _ _. apply mm_sbrk_same_bytes. Qed.

Lemma store_header_frame s a v c s1 s2 :
  is_size v -> store_size s a v = Ok s1 -> store_status s1 a c = Ok s2 ->
  frame s s2 a (a + meta_data_size).
Proof.
  intros Hv E1 E2.
  destruct (store_size_frame _ _ _ _ E1 Hv) as (_ & F1 & _).
  destruct (store_status_frame _ _ _ _ E2) as (_ & F2 & _).
  unfold meta_data_size.
  eapply frame_trans; eapply frame_mono; [exact F1| | |exact F2| |]; lia.
Qed.

(** The code after the loop of [mm_malloc] writes one header: at the old
    break when the last block is missing or occupied, over the last block
    otherwise. *)
Lemma mm_malloc_grow_writes size lastBlock s p s' :
  arena_ok s -> is_size size -> mm_malloc_grow size lastBlock s = Ok (p, s') ->
  ((lastBlock = NULL \/ load_status s lastBlock = Ok META_DATA_STATUS_OCCUPIED) /\
   frame s s' (heap_current_break s) (heap_current_break s + meta_data_size) /\
   p = heap_current_break s + meta_data_size /\
   heap_current_break s + meta_data_size
   <= heap_start s + Z.of_nat (length (heap s))) \/
  ((exists st, load_status s lastBlock = Ok st /\ st <> META_DATA_STATUS_OCCUPIED) /\
   frame s s' lastBlock (lastBlock + meta_data_size) /\
   p = ptr_add lastBlock meta_data_size /\
   heap_start s <= lastBlock /\
   lastBlock + meta_data_size <= heap_start s + Z.of_nat (length (heap s))).
Proof.
  intros Hok Hsize. pose proof Hok as (A1 & A2 & A3 & A4 & A5).
  unfold mm_malloc_grow. bind_step occupied Eocc. destruct occupied.
  - intros H. left. split.
    { destruct (lastBlock =? NULL) eqn:EN; [left; lia|right].
      revert Eocc. bind_step st Est. intros [= E]. f_equal. lia. }
    revert H.
    destruct (mm_sbrk_cases s (to_int (size_add size meta_data_size)) Hok (to_int_range _))
      as [[E _]|[E B]]; rewrite E.
    + rewrite store_size_outside; [done|]. unfold MAP_FAILED, modulus64 in *. lia.
    + bind_step s2 E2. bind_step s3 E3. intros [= <- <-]. split; [|split].
      * eapply frame_trans; [|exact (store_header_frame _ _ _ _ _ _ Hsize E2 E3)].
        intros l h _. apply same_bytes_set_break.
      * apply ptr_add_small. unfold meta_data_size, modulus64 in *. lia.
      * apply store_size_globals in E2 as (G1 & _ & _ & G4).
        apply store_bytes_Ok in E3 as (_ & _ & E3). rewrite G1, G4 in E3.
        simpl in E3. unfold meta_data_size. lia.
  - intros H. right. split.
    { destruct (lastBlock =? NULL) eqn:EN; [done|].
      revert Eocc. bind_step st Est. intros [= E]. exists st. split; [done|lia]. }
    revert H. bind_step lsz Elsz. cbv zeta.
    pose proof (mm_sbrk_frame (to_int (size_sub size lsz)) s) as F1.
    pose proof (mm_sbrk_globals (to_int (size_sub size lsz)) s) as (K1 & K2 & K3).
    destruct (mm_sbrk _ s) as [start s1]. simpl in F1, K1, K2, K3.
    bind_step s2 E2. bind_step s3 E3. intros [= <- <-]. split; [|split; [done|]].
    { eapply frame_trans; [apply F1|exact (store_header_frame _ _ _ _ _ _ Hsize E2 E3)]. }
    pose proof (store_size_globals _ _ _ _ E2) as (G1 & _ & _ & G4).
    apply store_bytes_Ok in E2 as (_ & E2 & _).
    apply store_bytes_Ok in E3 as (_ & _ & E3). rewrite G1, G4, K1, K3 in E3.
    rewrite K1 in E2. simpl in E3. unfold meta_data_size. lia.
Qed.

Lemma addressed_app_cases a0 pre b0 post a b :
  In (a, b) (addressed a0 (pre ++ b0 :: post)) ->
  In (a, b) (addressed a0 pre) \/ (a = a0 + span pre /\ b = b0) \/
  In (a, b) (addressed (a0 + span pre + footprint b0) post).
Proof.
  rewrite addressed_app. intros H. apply in_app_or in H as [H|H]; [by left|right].
  cbn [addressed] in H. destruct H as [[= <- <-]|H]; [by left|by right].
Qed.

(** X8. A call of [mm_malloc] that returns leaves every block that is not
    free as it was, header and payload: whatever the request and however
    the call ends (a block taken or split, a block appended, the last block
    grown, or the break left where it was because the arena is exhausted),
    the bytes of the blocks in use are not written. *)
Theorem mm_malloc_spares_occupied (s : state) (bl : list block) (n : Z) (fuel : nat)
    (p : Z) (s' : state) (a : Z) (b : block) :
  wf s bl -> is_size n -> mm_malloc fuel n s = Ok (p, s') ->
  In (a, b) (addressed (heap_start s) bl) -> is_free b = false ->
  same_bytes s s' a (a + footprint b).
Proof.
  intros Hwf Hn E Hin Hb.
  apply (mm_malloc_mono _ (fuel + S (length bl))) in E; [|lia].
  pose proof Hwf as (Hok & (Hl & Hbrk) & Hst).
  destruct (first_fit_split n bl) as [Hno|(pre & b0 & post & -> & Hpre & Hb0)].
  - rewrite (mm_malloc_nofit s bl) in E by (done || lia).
    pose proof (addressed_bounds _ _ _ _ Hl Hin) as [B1 B2]. simpl in B1, B2.
    destruct (mm_malloc_grow_writes _ _ _ _ _ Hok Hn E) as [(_ & F & _)|((st & Est & Hst') & F & _)].
    + apply F. left. lia.
    + destruct bl as [|bL pre _] using rev_ind.
      { destruct Hin. }
      rewrite last_header_app in *.
      apply layout_app in Hl as [Hl1 [(HbL & _) _]].
      apply addressed_app_cases in Hin as [Hin|[[-> ->]|Hin]]; [| |done].
      * pose proof (addressed_bounds _ _ _ _ Hl1 Hin) as [_ B3]. simpl in B3.
        apply F. left. lia.
      * apply Forall_app in Hst as [_ Hst]. apply Forall_cons in Hst as [Hst _].
        destruct (status_ok_free_or_occupied _ Hst) as [?|[_ Ho]]; [congruence|].
        rewrite HbL in Est. congruence.
  - destruct (mm_malloc_fit s pre b0 post n (fuel + S (length (pre ++ b0 :: post))))
      as (s'' & E' & _ & F & _); [done|done|done|apply Hn|rewrite length_app; lia|].
    rewrite E' in E. injection E as _ <-.
    apply layout_app in Hl as [Hl1 [_ Hl2]].
    apply addressed_app_cases in Hin as [Hin|[[-> ->]|Hin]].
    + pose proof (addressed_bounds _ _ _ _ Hl1 Hin) as [_ B3]. simpl in B3.
      apply F. left. lia.
    + unfold fits in Hb0. rewrite Hb in Hb0. done.
    + pose proof (addressed_bounds _ _ _ _ Hl2 Hin) as [B3 _]. simpl in B3.
      apply F. right. lia.
Qed.

Lemma mm_malloc_spares_occupied_witness :
  wf arena_free30_occ5 [FREE 30; OCCUPIED 5] /\
  mm_malloc 1 3 arena_free30_occ5 = Ok (base0 + 9, after_malloc 1 3 arena_free30_occ5) /\
  same_bytes arena_free30_occ5 (after_malloc 1 3 arena_free30_occ5)
    (base0 + 39) (base0 + 39 + footprint (OCCUPIED 5)).
Proof.
  assert (wf arena_free30_occ5 [FREE 30; OCCUPIED 5]) as Hwf by evaluate.
  assert (mm_malloc 1 3 arena_free30_occ5
          = Ok (base0 + 9, after_malloc 1 3 arena_free30_occ5)) as E
    by (vm_compute; reflexivity).
  split; [exact Hwf|]. split; [exact E|].
  apply (mm_malloc_spares_occupied arena_free30_occ5 [FREE 30; OCCUPIED 5] 3 1
           (base0 + 9) _ (base0 + 39) (OCCUPIED 5) Hwf); [evaluate|exact E| |reflexivity].
  vm_compute. right. left. reflexivity.
Defined.

(** ** Freeing a block and asking for it again *)

Lemma store_status_twice s a c c' s1 :
  store_status s a c = Ok s1 -> store_status s1 a c' = store_status s a c'.
Proof.
  unfold store_status. intros H. apply store_bytes_Ok in H as (-> & H1 & H2).
  simpl in H2.
  rewrite (store_bytes_in_mapping s) by (simpl; lia).
  rewrite store_bytes_in_mapping; [|simpl; lia|simpl; rewrite length_insert; lia].
  unfold set_heap, offset. simpl. by rewrite list_insert_insert_eq.
Qed.

(** With a block that fits after [pre], the loop of [mm_malloc] ends in the
    code that takes that block. *)
Lemma mm_malloc_fit_take s pre b post size fuel :
  wf s (pre ++ b :: post) ->
  Forall (fun x => fits size x = false) pre -> fits size b = true ->
  0 <= size -> (length pre < fuel)%nat ->
  mm_malloc fuel size s = mm_malloc_take size (heap_start s + span pre) s.
Proof.
  intros Hwf Hpre Hb Hsize Hfuel.
  pose proof (wf_bounds _ _ Hwf) as (B1 & B2 & B3 & B4).
  destruct Hwf as (Hok & (Hl & Hsp) & Hst).
  pose proof Hl as Hl'. apply layout_app in Hl' as [Hlpre [Hhb Hlpost]].
  pose proof (span_nonneg _ _ _ Hlpre) as Npre.
  pose proof (span_nonneg _ _ _ Hlpost) as Npost.
  rewrite span_app in Hsp. simpl in Hsp.
  assert (0 <= block_size b) as Nb by (destruct Hhb as (_ & _ & ?); done).
  unfold mm_malloc. rewrite mm_sbrk_zero by done. simpl.
  replace fuel with (length pre + S (fuel - S (length pre)))%nat by lia.
  rewrite mm_malloc_loop_skip; [|done|lia| |lia|done].
  2:{ unfold footprint, meta_data_size in *. lia. }
  erewrite mm_malloc_loop_hit; [done|exact Hhb| |done].
  unfold footprint, meta_data_size in *. lia.
Qed.

(** X9. Freeing an occupied block and at once asking for its size again
    gives the same payload address back and restores the arena byte for
    byte, when no free block before it is large enough for that size. *)
Theorem mm_free_then_malloc (s : state) (pre post : list block) (b : block)
    (fuel : nat) :
  wf s (pre ++ b :: post) -> is_free b = false ->
  Forall (fun x => fits (block_size b) x = false) pre -> (length pre < fuel)%nat ->
  exists s1,
    mm_free (heap_start s + span pre + meta_data_size) s = Ok s1 /\
    mm_malloc fuel (block_size b) s1
    = Ok (heap_start s + span pre + meta_data_size, s).
Proof.
  intros Hwf Hb Hpre Hfuel.
  destruct (mm_free_block s pre b post Hwf) as (s1 & E1 & G1 & _ & Hwf1 & _).
  exists s1. split; [exact E1|].
  pose proof (wf_bounds _ _ Hwf) as (B1 & B2 & B3 & B4).
  pose proof Hwf as (Hok & (Hl & Hsp) & Hst).
  apply layout_app in Hl as [Hlpre [Hhb Hlpost]].
  pose proof (span_nonneg _ _ _ Hlpre) as Npre.
  pose proof (span_nonneg _ _ _ Hlpost) as Npost.
  rewrite span_app in Hsp. simpl in Hsp.
  pose proof (header_at_in_mapping _ _ _ Hhb) as [I1 I2].
  destruct Hhb as (Hbst & Hbsz & Nb).
  assert (load_status s (heap_start s + span pre) = Ok META_DATA_STATUS_OCCUPIED) as Hocc.
  { apply Forall_app in Hst as [_ Hst]. apply Forall_cons in Hst as [Hst _].
    destruct (status_ok_free_or_occupied _ Hst) as [?|[_ <-]]; [congruence|done]. }
  assert (store_status s (heap_start s + span pre) META_DATA_STATUS_FREE = Ok s1) as E1'.
  { revert E1. unfold mm_free, meta_data_size in *.
    rewrite ptr_add_small by lia.
    by replace (heap_start s + span pre + 9 + - (9)) with (heap_start s + span pre) by lia. }
  destruct (store_status_frame _ _ _ _ E1') as (_ & _ & _ & Lz).
  rewrite (mm_malloc_fit_take s1 pre (mkBlock (block_size b) META_DATA_STATUS_FREE) post);
    [|done|done| |done|done].
  2:{ unfold fits. simpl. apply Z.leb_refl. }
  destruct G1 as (-> & _).
  unfold mm_malloc_take, enoughToSplit. rewrite Lz, Hbsz, !bind_Ok.
  unfold footprint, meta_data_size in *.
  rewrite (size_add_small (block_size b) 9) by lia.
  rewrite (proj2 (Z.ltb_ge _ _)) by lia. rewrite bind_Ok.
  rewrite (store_status_twice _ _ _ _ _ E1'), (store_status_id _ _ _ Hocc), bind_Ok.
  by rewrite ptr_add_small by lia.
Qed.

Lemma mm_free_then_malloc_witness :
  wf arena_scenario ([OCCUPIED 10] ++ OCCUPIED 5 :: []) /\
  exists s1,
    mm_free (base0 + 28) arena_scenario = Ok s1 /\
    mm_malloc 2 5 s1 = Ok (base0 + 28, arena_scenario).
Proof.
  split; [evaluate|].
  destruct (mm_free_then_malloc arena_scenario [OCCUPIED 10] [] (OCCUPIED 5) 2)
    as (s1 & E1 & E2); [evaluate|reflexivity|repeat constructor|simpl; lia|].
  exists s1. split; [exact E1|exact E2].
Defined.

(** ** What mm_combine_nearby_free writes *)

Lemma free_size_fields_app a l1 l2 :
  free_size_fields a (l1 ++ l2)
  = free_size_fields a l1 ++ free_size_fields (a + span l1) l2.
Proof.
  revert a. induction l1 as [|b l1 IH]; intros a; simpl.
  - f_equal. lia.
  - rewrite IH, <- app_assoc. do 3 f_equal. lia.
Qed.

Lemma combine_outer_writes brk : forall gs s cur fuel s' lo hi,
  Forall is_run gs -> maximal gs ->
  layout s cur (flatten gs) -> cur + span (flatten gs) = brk ->
  0 <= heap_start s -> heap_start s <= cur -> brk < modulus64 ->
  (length (flatten gs) < fuel)%nat ->
  combine_outer fuel brk cur s = Ok s' ->
  Forall (fun a => hi <= a \/ a + 8 <= lo) (free_size_fields cur (flatten gs)) ->
  same_bytes s s' lo hi.
Proof.
  induction gs as [|[b g] gs IH];
    intros s cur fuel s' lo hi Hruns Hmax Hl Hsp Hst0 Hcur Hmod Hfuel E Hw.
  - destruct fuel as [|fuel]; [simpl in Hfuel; lia|].
    simpl in Hsp. rewrite combine_outer_S in E.
    assert ((cur <? brk) = false) as Hge by (apply Z.ltb_ge; lia).
    rewrite Hge in E. injection E as <-. apply same_bytes_refl.
  - destruct fuel as [|fuel]; [simpl in Hfuel; lia|].
    rewrite length_flatten_cons in Hfuel. simpl in Hfuel.
    apply Forall_cons in Hruns as [Hrun Hruns].
    rewrite flatten_cons in Hl, Hsp, Hw. simpl in Hl, Hsp.
    cbn [free_size_fields fst snd] in Hw. rewrite free_size_fields_app in Hw.
    apply Forall_app in Hw as [Hw1 Hw]. apply Forall_app in Hw as [_ Hw].
    destruct Hl as [Hb Hl].
    pose proof (span_nonneg _ _ _ Hl) as Nrest.
    pose proof Hb as (Hbst & Hbsz & Nb).
    assert (cur < brk) as Hlt by (unfold footprint, meta_data_size in *; lia).
    rewrite combine_outer_S in E.
    assert ((cur <? brk) = true) as Hin by (apply Z.ltb_lt; lia).
    rewrite Hin in E.
    destruct (is_free b) eqn:Hfree.
    + apply Forall_cons in Hw1 as [Hw1 _].
      assert (Forall (fun r => is_free r = true) g) as Hg.
      { eapply Forall_impl; [exact Hrun|]. simpl. tauto. }
      destruct (combine_inner_run brk (flatten gs) g b s cur (S fuel))
        as (s1 & E1 & G1 & F1 & H1 & Same1); try done; try lia.
      { eapply flatten_stops; eauto. }
      rewrite E1, bind_Ok in E.
      destruct gs as [|r2 gs].
      * simpl in E. injection E as <-. by apply F1.
      * change (exit_for (flatten (r2 :: gs))) with ExitBreak in E. cbv iota beta in E.
        destruct H1 as (Hmst & Hmsz & Nm).
        rewrite Hmsz, bind_Ok in E.
        rewrite span_app in Hsp.
        pose proof Hl as Hl'. apply layout_app in Hl' as [Hlg Hlrest].
        pose proof (span_nonneg _ _ _ Hlg) as Ng.
        pose proof (span_nonneg _ _ _ Hlrest) as Nr.
        assert (ptr_add cur (size_add meta_data_size (block_size (merge_run (b, g))))
                = cur + footprint b + span g) as Hnext.
        { unfold merge_run, footprint, meta_data_size in *. simpl in *.
          rewrite (size_add_small 9) by lia. rewrite ptr_add_small by lia. lia. }
        rewrite Hnext in E.
        eapply same_bytes_trans; [by apply F1|].
        eapply (IH s1 (cur + footprint b + span g) fuel s'); try done.
        -- by destruct Hmax.
        -- eapply layout_same_bytes; [|exact Hlrest].
           apply F1. right. unfold footprint, meta_data_size. lia.
        -- lia.
        -- globals_lia.
        -- unfold footprint, meta_data_size in *. globals_lia.
        -- lia.
    + assert (g = []) as ->.
      { destruct g as [|x g]; [done|]. apply Forall_cons in Hrun as [[Hx _] _].
        simpl in Hx. congruence. }
      erewrite combine_inner_occupied in E; [|exact Hb|done|done].
      rewrite bind_Ok in E. cbv iota beta in E. rewrite Hbsz, bind_Ok in E.
      simpl in Hl, Hsp, Hw.
      destruct (next_header cur brk b (flatten gs) s _ Hl) as (_ & Hnext & _); try lia.
      rewrite Hnext in E. rewrite Z.add_0_r in Hw.
      eapply (IH s (cur + footprint b) fuel s'); try done; try lia.
      * by destruct Hmax.
      * unfold footprint, meta_data_size in *. lia.
Qed.

(** X10. [mm_combine_nearby_free] writes nothing but size fields of free
    blocks: every range of bytes that meets no size field of a block that
    was free holds after the call what it held before.  So the payloads of
    all blocks, the status bytes of all headers and the headers of the
    blocks in use are as they were. *)
Theorem mm_combine_writes_free_sizes (s : state) (bl : list block) (fuel : nat)
    (s' : state) (lo hi : Z) :
  wf s bl -> mm_combine_nearby_free fuel s = Ok s' ->
  Forall (fun a => hi <= a \/ a + 8 <= lo) (free_size_fields (heap_start s) bl) ->
  same_bytes s s' lo hi.
Proof.
  intros Hwf E Hw.
  apply (mm_combine_mono _ (fuel + S (length bl))) in E; [|lia].
  pose proof (wf_bounds _ _ Hwf) as (B1 & B2 & B3 & B4).
  destruct Hwf as (Hok & (Hl & Hsp) & Hst).
  unfold mm_combine_nearby_free in E. rewrite mm_sbrk_zero in E by done. simpl in E.
  eapply (combine_outer_writes _ (runs bl)); try exact E;
    rewrite ?flatten_runs; try done; try lia.
  - apply is_run_runs.
  - apply maximal_runs.
Qed.

Lemma mm_combine_writes_free_sizes_witness :
  wf arena_free_3_4_5 [FREE 3; FREE 4; FREE 5] /\
  exists s',
    mm_combine_nearby_free 4 arena_free_3_4_5 = Ok s' /\
    wf s' [FREE 30] /\
    same_bytes arena_free_3_4_5 s' (base0 + 8) (base0 + 12).
Proof.
  assert (wf arena_free_3_4_5 [FREE 3; FREE 4; FREE 5]) as Hwf by evaluate.
  split; [exact Hwf|].
  destruct (mm_combine_wf arena_free_3_4_5 [FREE 3; FREE 4; FREE 5] 4 Hwf)
    as (s' & E & _ & _ & Hwf' & _); [simpl; lia|].
  exists s'. split; [exact E|]. split; [exact Hwf'|].
  apply (mm_combine_writes_free_sizes arena_free_3_4_5 [FREE 3; FREE 4; FREE 5] 4 s'
           (base0 + 8) (base0 + 12) Hwf E).
  assert (heap_start arena_free_3_4_5 = base0) as -> by (vm_compute; reflexivity).
  cbn [free_size_fields]. unfold is_free, FREE, footprint, base0, meta_data_size.
  simpl. repeat constructor; lia.
Defined.

(** ** When mm_combine_nearby_free changes nothing *)

Lemma runs_head b rest : exists g gs, runs (b :: rest) = (b, g) :: gs.
Proof.
  cbn [runs]. destruct (runs rest) as [|[r g] gs]; [by eexists _, _|].
  destruct (is_free b && is_free r); by eexists _, _.
Qed.

Lemma no_free_neighbours_runs bl :
  no_free_neighbours bl <-> Forall (fun r : run => r.2 = []) (runs bl).
Proof.
  induction bl as [|b1 bl IH]; [by split|].
  destruct bl as [|b2 rest].
  - simpl. split; [by repeat constructor|done].
  - destruct (runs_head b2 rest) as (g & gs & Eruns).
    change (no_free_neighbours (b1 :: b2 :: rest))
      with (~ (is_free b1 = true /\ is_free b2 = true) /\ no_free_neighbours (b2 :: rest)).
    change (runs (b1 :: b2 :: rest))
      with (match runs (b2 :: rest) with
            | (r, g) :: gs =>
                if is_free b1 && is_free r then (b1, r :: g) :: gs
                else (b1, []) :: (r, g) :: gs
            | [] => [(b1, [])]
            end).
    rewrite IH, Eruns.
    destruct (is_free b1), (is_free b2); simpl; split.
    + intros [H _]. by destruct H.
    + intros H. by apply Forall_cons in H as [H _].
    + intros [_ H]. by constructor.
    + intros H. apply Forall_cons in H as [_ H]. split; [|done]. by intros [_ ?].
    + intros [_ H]. by constructor.
    + intros H. apply Forall_cons in H as [_ H]. split; [|done]. by intros [? _].
    + intros [_ H]. by constructor.
    + intros H. apply Forall_cons in H as [_ H]. split; [|done]. by intros [? _].
Qed.

Lemma length_flatten_single gs :
  (length gs <= length (flatten gs))%nat /\
  (length (flatten gs) = length gs -> Forall (fun r : run => r.2 = []) gs).
Proof.
  induction gs as [|r gs [IH1 IH2]]; [by split|].
  rewrite length_flatten_cons. simpl. split; [lia|].
  intros H. constructor.
  - destruct (r.2); [done|]. simpl in H. lia.
  - apply IH2. lia.
Qed.

(** X11. [mm_combine_nearby_free] leaves the arena exactly as it is, byte
    for byte, if and only if no two neighbouring blocks are both free. *)
Theorem mm_combine_unchanged_iff (s : state) (bl : list block) (fuel : nat) :
  wf s bl -> (length bl < fuel)%nat ->
  (mm_combine_nearby_free fuel s = Ok s <-> no_free_neighbours bl).
Proof.
  intros Hwf Hfuel.
  destruct (mm_combine_wf s bl fuel Hwf Hfuel) as (s' & E & _ & _ & Hwf' & Same).
  rewrite no_free_neighbours_runs. split.
  - intros E'. rewrite E' in E. injection E as <-.
    pose proof (wf_unique _ _ _ Hwf Hwf') as Hbl.
    apply length_flatten_single. rewrite flatten_runs.
    rewrite Hbl at 1. unfold coalesce. by rewrite length_map.
  - intros H. by rewrite E, (Same H).
Qed.

Lemma mm_combine_unchanged_iff_witness :
  wf arena_free30_occ5 [FREE 30; OCCUPIED 5] /\
  mm_combine_nearby_free 3 arena_free30_occ5 = Ok arena_free30_occ5 /\
  no_free_neighbours [FREE 30; OCCUPIED 5].
Proof.
  assert (wf arena_free30_occ5 [FREE 30; OCCUPIED 5]) as Hwf by evaluate.
  split; [exact Hwf|].
  assert (no_free_neighbours [FREE 30; OCCUPIED 5]) as Hn.
  { simpl. split; [|done]. by intros [_ ?]. }
  split; [|exact Hn].
  apply (mm_combine_unchanged_iff arena_free30_occ5 [FREE 30; OCCUPIED 5] 3 Hwf);
    [simpl; lia|exact Hn].
Defined.

(** ** The block a successful allocation returns *)

Lemma addressed_inside s a0 bl a b :
  layout s a0 bl -> In (a, b) (addressed a0 bl) ->
  a0 <= a /\ a + meta_data_size <= a + footprint b /\ a + footprint b <= a0 + span bl.
Proof.
  revert a0. induction bl as [|x bl IH]; intros a0 Hl Hin; [done|].
  destruct Hl as [(_ & _ & Nx) Hl]. pose proof (span_nonneg _ _ _ Hl) as Ns.
  cbn [addressed span] in *. destruct Hin as [[= <- <-]|Hin].
  - unfold footprint, meta_data_size in *. lia.
  - destruct (IH _ Hl Hin) as (H1 & H2 & H3).
    unfold footprint, meta_data_size in *. lia.
Qed.

Lemma addressed_prefix a0 pre rest x : In x (addressed a0 pre) -> In x (addressed a0 (pre ++ rest)).
Proof. rewrite addressed_app. intros H. apply in_or_app. by left. Qed.

Lemma addressed_suffix a0 pre mid post x :
  In x (addressed (a0 + span pre + span mid) post) ->
  In x (addressed a0 (pre ++ mid ++ post)).
Proof.
  rewrite !addressed_app. intros H. apply in_or_app. right. apply in_or_app. by right.
Qed.

(** After a successful allocation the pointer returned is the payload of a
    block of the new list that is not free and holds the request, and every
    block that was not free is still there, at another address. *)
Lemma mm_malloc_allocated_blocks s bl fuel n p s' :
  wf s bl -> is_size n ->
  mm_malloc fuel n s = Ok (p, s') -> allocated p n s' ->
  exists pre b post,
    wf s' (pre ++ b :: post) /\ heap_start s' = heap_start s /\
    p = heap_start s + span pre + meta_data_size /\
    is_free b = false /\ n <= block_size b /\
    (forall a x, In (a, x) (addressed (heap_start s) bl) -> is_free x = false ->
       In (a, x) (addressed (heap_start s) (pre ++ b :: post)) /\
       a <> heap_start s + span pre) /\
    (length (pre ++ b :: post) <= S (length bl))%nat /\
    heap_end s' = heap_end s /\ heap_current_break s <= heap_current_break s'.
Proof.
  intros Hwf Hsize H Hroom. unfold allocated in Hroom.
  assert (0 <= n) as Hn by (unfold is_size in Hsize; lia).
  apply (mm_malloc_mono _ (fuel + S (length bl))) in H; [|lia].
  pose proof Hwf as (Hok & (Hl & Hsp) & Hst).
  assert (forall a x, In (a, x) (addressed (heap_start s) bl) ->
            a + meta_data_size <= heap_start s + span bl) as Hin_bl.
  { intros a x Hin. destruct (addressed_inside _ _ _ _ _ Hl Hin) as (_ & ? & ?). lia. }
  assert (forall (s2 : state),
            mm_malloc_grow n (last_header (heap_start s) NULL bl) s
            = Ok (heap_current_break s + meta_data_size, s2) ->
            wf s2 (bl ++ [mkBlock n META_DATA_STATUS_OCCUPIED]) ->
            heap_start s2 = heap_start s -> heap_end s2 = heap_end s ->
            heap_current_break s2 = heap_current_break s + n + meta_data_size ->
            mm_malloc_grow n (last_header (heap_start s) NULL bl) s = Ok (p, s') ->
            exists pre b post,
              wf s' (pre ++ b :: post) /\ heap_start s' = heap_start s /\
              p = heap_start s + span pre + meta_data_size /\
              is_free b = false /\ n <= block_size b /\
              (forall a x, In (a, x) (addressed (heap_start s) bl) -> is_free x = false ->
                 In (a, x) (addressed (heap_start s) (pre ++ b :: post)) /\
                 a <> heap_start s + span pre) /\
              (length (pre ++ b :: post) <= S (length bl))%nat /\
              heap_end s' = heap_end s /\
              heap_current_break s <= heap_current_break s') as Hnew.
  { intros s2 E Hwf2 Hs2 He2 Hb2 H'. rewrite E in H'. injection H' as <- <-.
    exists bl, (mkBlock n META_DATA_STATUS_OCCUPIED), [].
    split; [done|]. split; [done|]. split; [lia|]. split; [done|]. split; [simpl; lia|].
    split; [|split; [rewrite length_app; simpl; lia|unfold meta_data_size in *; lia]].
    intros a x Hin _. split; [by apply addressed_prefix|].
    specialize (Hin_bl a x Hin). unfold meta_data_size in *. lia. }
  destruct (first_fit_split n bl) as [Hno|(pre & b & post & -> & Hpre & Hb)].
  - rewrite (mm_malloc_nofit s bl) in H by (done || lia).
    destruct bl as [|b bl _] using rev_ind.
    + pose proof (mm_malloc_grow_new_room _ _ _ _ _ Hok Hsize (or_introl eq_refl) H Hroom)
        as Hr.
      destruct (mm_malloc_grow_new s [] n NULL Hwf)
        as (s2 & E & Hwf2 & Hs2 & He2 & Hb2 & _); [done|by left|done|].
      by apply (Hnew s2).
    + rewrite last_header_app in *.
      pose proof Hst as Hst'. pose proof Hno as Hno'. pose proof Hl as Hl'.
      apply Forall_app in Hst' as [_ Hstb]. apply Forall_cons in Hstb as [Hstb _].
      apply Forall_app in Hno' as [_ Hnob]. apply Forall_cons in Hnob as [Hnob _].
      apply layout_app in Hl' as [Hlpre [Hhb _]].
      rewrite span_app in Hsp. simpl in Hsp.
      destruct (status_ok_free_or_occupied _ Hstb) as [Hfree|[Hfree Hocc]].
      * pose proof (nofit_free _ _ Hnob Hfree) as Hsmall.
        assert (heap_current_break s + (n - block_size b) <= heap_end s) as Hr.
        { eapply mm_malloc_grow_last_room; eauto. lia. }
        destruct (mm_malloc_grow_last s bl b n Hwf)
          as (s2 & E & Hwf2 & Hs2 & He2 & Hb2 & _); try done.
        rewrite E in H. injection H as <- <-.
        exists bl, (mkBlock n META_DATA_STATUS_OCCUPIED), [].
        split; [done|]. split; [done|]. split; [done|]. split; [done|].
        split; [simpl; lia|].
        split; [|split; [rewrite !length_app; simpl; lia|lia]].
        intros a x Hin Hx.
        apply addressed_app_cases in Hin as [Hin|[[-> ->]|Hin]];
          [|congruence|destruct Hin].
        split; [by apply addressed_prefix|].
        destruct (addressed_inside _ _ _ _ _ Hlpre Hin) as (_ & ? & ?).
        unfold meta_data_size in *. lia.
      * assert (load_status s (heap_start s + span bl) = Ok META_DATA_STATUS_OCCUPIED)
          as Hld by (destruct Hhb as (-> & _); by rewrite Hocc).
        pose proof (mm_malloc_grow_new_room _ _ _ _ _ Hok Hsize (or_intror Hld) H Hroom)
          as Hr.
        destruct (mm_malloc_grow_new s (bl ++ [b]) n (heap_start s + span bl) Hwf)
          as (s2 & E & Hwf2 & Hs2 & He2 & Hb2 & _); [done|by right|done|].
        by apply (Hnew s2).
  - clear Hnew.
    destruct (mm_malloc_fit s pre b post n (fuel + S (length (pre ++ b :: post))) Hwf)
      as (s2 & E & (Hs2 & He2 & Hb2 & _) & _ & Hwf2); try done.
    { rewrite length_app. lia. }
    rewrite E in H. injection H as <- <-.
    apply layout_app in Hl as [Hlpre [Hhb Hlpost]].
    assert (is_free b = true /\ n <= block_size b) as [Hfree Hle].
    { unfold fits in Hb. apply andb_true_iff in Hb as [? Hb]. by apply Z.leb_le in Hb. }
    assert (exists b' post',
              take_blocks n b ++ post = b' :: post' /\ is_free b' = false /\
              n <= block_size b' /\ (length post' <= S (length post))%nat)
      as (b' & post' & Etake & Hb' & Hle' & Hlen').
    { unfold take_blocks. destruct (n + meta_data_size <? block_size b).
      - eexists _, _. split; [done|]. split; [done|simpl; lia].
      - eexists _, _. split; [done|]. split; [done|simpl; lia]. }
    exists pre, b', post'.
    split; [by rewrite <- Etake|]. split; [done|]. split; [done|]. split; [done|].
    split; [done|]. split; [|split; [rewrite !length_app; simpl; lia|lia]].
    rewrite <- Etake. intros a x Hin Hx.
    apply addressed_app_cases in Hin as [Hin|[[-> ->]|Hin]]; [|congruence|].
    + split; [by apply addressed_prefix|].
      destruct (addressed_inside _ _ _ _ _ Hlpre Hin) as (_ & ? & ?).
      unfold meta_data_size in *. lia.
    + split.
      * apply addressed_suffix. by rewrite span_take_blocks.
      * destruct (addressed_inside _ _ _ _ _ Hlpost Hin) as (? & _).
        destruct Hhb as (_ & _ & ?). unfold footprint, meta_data_size in *. lia.
Qed.

(** ** The loop of main that fills a payload *)

Lemma store_bytes_nil s a :
  heap_start s <= a <= heap_start s + Z.of_nat (length (heap s)) ->
  store_bytes s a [] = Ok s.
Proof.
  intros H. rewrite store_bytes_in_mapping by (simpl; lia). by destruct s.
Qed.

Lemma store_bytes_cons s a x xs s1 s' :
  store_bytes s a [x] = Ok s1 -> store_bytes s1 (a + 1) xs = Ok s' ->
  store_bytes s a (x :: xs) = Ok s'.
Proof.
  intros E1 E2.
  apply store_bytes_Ok in E1 as (-> & A1 & A2).
  apply store_bytes_Ok in E2 as (-> & B1 & B2).
  simpl in *. rewrite length_insert in B2.
  rewrite store_bytes_in_mapping by (simpl; lia).
  unfold set_heap, offset. simpl. do 2 f_equal.
  replace (Z.to_nat (a + 1 - heap_start s)) with (S (Z.to_nat (a - heap_start s))) by lia.
  rewrite list_insert_inserts_lt by lia. done.
Qed.

(** A run of the loop that ends has stayed within the mapped pages, and has
    written [block_size - j] spaces from [target + j] on. *)
Lemma fill_loop_Ok target n : forall fuel j s s',
  0 <= heap_start s -> heap_start s + Z.of_nat (length (heap s)) < modulus64 ->
  Z.of_nat (length (heap s)) < 2 ^ 31 ->
  heap_start s <= target -> 0 <= j <= n ->
  target + j <= heap_start s + Z.of_nat (length (heap s)) ->
  fill_loop fuel target n j s = Ok s' ->
  target + n <= heap_start s + Z.of_nat (length (heap s)) /\
  store_bytes s (target + j) (replicate (Z.to_nat (n - j)) CHAR_SPACE) = Ok s'.
Proof.
  induction fuel as [|fuel IH]; intros j s s' H0 Hmod Hlen Ht Hj Hin; [done|].
  cbn [fill_loop]. unfold modulus64 in *.
  rewrite (wrap64_small j) by (unfold modulus64; lia).
  destruct (j <? n) eqn:Hlt.
  - apply Z.ltb_lt in Hlt.
    rewrite ptr_add_small by (unfold modulus64; lia).
    bind_step s1 E1. intros E.
    pose proof (store_bytes_Ok _ _ _ _ E1) as (_ & A1 & A2). simpl in A2.
    pose proof (store_bytes_globals _ _ _ _ E1) as (G1 & _ & _ & G4).
    rewrite to_int_small in E by (unfold is_int; lia).
    destruct (IH (j + 1) s1 s') as [B1 B2]; rewrite ?G1, ?G4; try done; try lia.
    rewrite G1, G4 in B1. split; [done|].
    replace (Z.to_nat (n - j)) with (S (Z.to_nat (n - (j + 1)))) by lia.
    cbn [replicate]. eapply store_bytes_cons; [exact E1|].
    by replace (target + j + 1) with (target + (j + 1)) by lia.
  - apply Z.ltb_ge in Hlt. intros [= <-]. split; [lia|].
    replace (Z.to_nat (n - j)) with 0%nat by lia. apply store_bytes_nil. lia.
Qed.


(** ** Where the pointer of mm_malloc lies *)

Lemma mm_malloc_ptr_mapped s bl fuel n p s' :
  wf s bl -> is_size n -> mm_malloc fuel n s = Ok (p, s') ->
  heap_start s + meta_data_size <= p <= heap_start s + Z.of_nat (length (heap s)).
Proof.
  intros Hwf Hn E.
  pose proof Hwf as (Hok & (Hl & Hsp) & Hst). pose proof Hok as (A1 & A2 & A3 & A4 & A5).
  apply (mm_malloc_mono _ (fuel + S (length bl))) in E; [|lia].
  destruct (first_fit_split n bl) as [Hno|(pre & b & post & -> & Hpre & Hb)].
  - rewrite (mm_malloc_nofit s bl) in E by (done || lia).
    destruct (mm_malloc_grow_writes _ _ _ _ _ Hok Hn E)
      as [(_ & _ & -> & Hin)|(_ & _ & -> & Hin1 & Hin2)].
    + unfold meta_data_size in *. lia.
    + rewrite ptr_add_small by (unfold meta_data_size, modulus64 in *; lia).
      unfold meta_data_size in *. lia.
  - destruct (mm_malloc_fit s pre b post n (fuel + S (length (pre ++ b :: post))) Hwf)
      as (s2 & E' & _); [done|done|apply Hn|rewrite length_app; lia|].
    rewrite E' in E. injection E as <- <-.
    apply layout_app in Hl as [Hlpre [(_ & _ & Nb) Hlpost]].
    apply span_nonneg in Hlpre, Hlpost. rewrite span_app in Hsp. cbn [span] in Hsp.
    unfold footprint, meta_data_size in *. lia.
Qed.

(** ** The table of pointers *)

Lemma get_pointer_Ok pointers c p :
  get_pointer pointers c = Ok p ->
  0 <= c - CHAR_a < MAX_POINTERS /\ pointers !! Z.to_nat (c - CHAR_a) = Some p.
Proof.
  unfold get_pointer. cbv zeta.
  destruct ((0 <=? c - CHAR_a) && (c - CHAR_a <? MAX_POINTERS)) eqn:Hi; [|done].
  apply andb_true_iff in Hi as [H1 H2].
  destruct (pointers !! Z.to_nat (c - CHAR_a)); [|done].
  intros [= <-]. split; [lia|done].
Qed.

Lemma set_pointer_Ok pointers c v pointers' :
  set_pointer pointers c v = Ok pointers' ->
  pointers' = <[Z.to_nat (c - CHAR_a) := v]> pointers.
Proof.
  unfold set_pointer. cbv zeta.
  by destruct ((0 <=? c - CHAR_a) && (c - CHAR_a <? MAX_POINTERS)
               && (c - CHAR_a <? Z.of_nat (length pointers))); intros [= <-].
Qed.

Lemma get_pointer_insert pointers c v p :
  get_pointer pointers c = Ok p ->
  get_pointer (<[Z.to_nat (c - CHAR_a) := v]> pointers) c = Ok v.
Proof.
  intros H. destruct (get_pointer_Ok _ _ _ H) as [Hi Hk].
  apply lookup_lt_Some in Hk. unfold get_pointer. cbv zeta.
  assert ((0 <=? c - CHAR_a) && (c - CHAR_a <? MAX_POINTERS) = true) as ->.
  { rewrite andb_true_iff. lia. }
  by rewrite list_lookup_insert_eq.
Qed.


Lemma table_ok_transfer s bl pointers s' bl' :
  table_ok s bl pointers -> heap_start s' = heap_start s ->
  (forall a x, In (a, x) (addressed (heap_start s) bl) -> is_free x = false ->
     In (a, x) (addressed (heap_start s) bl')) ->
  table_ok s' bl' pointers.
Proof.
  intros (Hlen & Hblk & Hdis) Hs Hkeep. split; [done|]. split; [|done].
  intros k p Hk Hp. destruct (Hblk k p Hk Hp) as (b & Hin & Hb).
  exists b. rewrite Hs. auto.
Qed.

Lemma table_ok_update s bl pointers s' bl' (i : nat) v :
  table_ok s bl pointers -> heap_start s' = heap_start s ->
  (forall (k : nat) p, k <> i -> pointers !! k = Some p -> p <> NULL ->
     exists b, In (p - meta_data_size, b) (addressed (heap_start s) bl') /\
               is_free b = false) ->
  (v <> NULL ->
     (exists b, In (v - meta_data_size, b) (addressed (heap_start s) bl') /\
                is_free b = false) /\
     forall k : nat, k <> i -> pointers !! k <> Some v) ->
  table_ok s' bl' (<[i := v]> pointers).
Proof.
  intros (Hlen & Hblk & Hdis) Hs Hold Hnew. split; [by rewrite length_insert|]. split.
  - intros k p Hk Hp. rewrite Hs.
    apply list_lookup_insert_Some in Hk as [(<- & <- & _)|[Hne Hk]].
    + by apply Hnew.
    + by apply (Hold k).
  - intros k1 k2 p Hne H1 H2.
    apply list_lookup_insert_Some in H1 as [(<- & <- & _)|[Hne1 H1]];
      apply list_lookup_insert_Some in H2 as [(<- & E2 & _)|[Hne2 H2]].
    + done.
    + destruct (decide (v = NULL)) as [|Hv]; [done|].
      destruct (Hnew Hv) as [_ Hfresh]. by destruct (Hfresh k2).
    + subst p. destruct (decide (v = NULL)) as [|Hv]; [done|].
      destruct (Hnew Hv) as [_ Hfresh]. by destruct (Hfresh k1).
    + by apply (Hdis k1 k2).
Qed.

(** ** What one turn of the loop of main does *)

Lemma mm_print_loop_mono s brk : forall fuel fuel' cur i r,
  mm_print_loop fuel s brk cur i = Ok r -> (fuel <= fuel')%nat ->
  mm_print_loop fuel' s brk cur i = Ok r.
Proof.
  induction fuel as [|fuel IH]; intros fuel' cur i r H Hle; [done|].
  destruct fuel' as [|fuel']; [lia|].
  rewrite mm_print_loop_S in *. destruct (cur <? brk); [|done].
  revert H. bind_step st Est. bind_step sz Esz. cbv zeta. bind_step r0 Er.
  intros [= <-]. rewrite !bind_Ok. rewrite (IH fuel' _ _ _ Er) by lia. done.
Qed.

Lemma mm_print_Ok s bl fuel ls :
  wf s bl -> mm_print fuel s = Ok ls -> ls = lines_of 1 bl.
Proof.
  intros Hwf H.
  assert (mm_print (fuel + S (length bl)) s = Ok ls) as H'.
  { revert H. unfold mm_print. cbv zeta. bind_step r Er. intros [= <-].
    rewrite (mm_print_loop_mono _ _ _ _ _ _ _ Er) by lia. done. }
  rewrite (mm_print_wf s bl) in H' by (done || lia). congruence.
Qed.

Lemma print_blocks_Ok s bl fuel out :
  wf s bl -> print_blocks fuel s = Ok out -> out = map PrintBlock (lines_of 1 bl).
Proof.
  intros Hwf. unfold print_blocks. bind_step ls Els. intros [= <-].
  by rewrite (mm_print_Ok _ _ _ _ Hwf Els).
Qed.

(** A turn for malloc with a name that points nowhere, when it ends:
    [mm_malloc] returned, the loop that fills the payload stayed within the
    mapped pages, and the blocks were printed. *)
Lemma run_malloc_turn fuel op s bl pointers out s' pointers' :
  wf s bl -> operation_type op = OPERATION_TYPE_MALLOC ->
  get_pointer pointers (pointer_char op) = Ok NULL ->
  run_operation fuel op s pointers = Ok (out, s', pointers') ->
  exists target s1 ls,
    mm_malloc fuel (wrap64 (malloc_size op)) s = Ok (target, s1) /\
    arena_ok s1 /\ heap_start s1 = heap_start s /\ heap_end s1 = heap_end s /\
    length (heap s1) = length (heap s) /\
    heap_start s + meta_data_size <= target /\
    target + wrap64 (malloc_size op) <= heap_start s + Z.of_nat (length (heap s)) /\
    store_bytes s1 target (replicate (Z.to_nat (wrap64 (malloc_size op))) CHAR_SPACE)
    = Ok s' /\
    pointers' = <[Z.to_nat (pointer_char op - CHAR_a) := target]> pointers /\
    mm_print fuel s' = Ok ls /\
    out = PrintMalloc (pointer_char op) (to_long (wrap64 (malloc_size op)))
          :: map PrintBlock ls.
Proof.
  intros Hwf Hty Hget. unfold run_operation. rewrite Hty, Z.eqb_refl. cbv zeta.
  rewrite Hget, bind_Ok. change (negb (NULL =? NULL)) with false. cbv iota.
  pose proof (wrap64_range (malloc_size op)) as Hn.
  remember (wrap64 (malloc_size op)) as n eqn:En. clear En.
  bind_step r Er. destruct r as [target s1].
  pose proof Hwf as (Hok & _).
  destruct (mm_malloc_ptr_mapped _ _ _ _ _ _ Hwf Hn Er) as [Hlo Hhi].
  destruct (mm_malloc_loop_arena_ok n (mm_sbrk 0 s).1 s fuel (heap_start s) NULL
              target s1 Hok Er) as (Hok1 & G1 & G2 & G4).
  pose proof Hok as (A1 & A2 & A3 & A4 & A5).
  assert ((target =? NULL) = false) as ->.
  { unfold NULL, meta_data_size in *. lia. }
  change (negb false) with true. cbv iota.
  bind_step s2 Efill. bind_step ptrs Eset. bind_step evs Eprint. intros [= <- <- <-].
  destruct (fill_loop_Ok target n fuel 0 s1 s2) as [Hin Hstore];
    rewrite ?G1, ?G4; unfold is_size, modulus64, meta_data_size in *; try done; try lia.
  rewrite Z.add_0_r, Z.sub_0_r in Hstore. rewrite G1, G4 in Hin.
  revert Eprint. unfold print_blocks. bind_step ls Els. intros [= <-].
  exists target, s1, ls. rewrite (set_pointer_Ok _ _ _ _ Eset).
  do 10 (split; [done || lia|]). done.
Qed.

Lemma turn_served_allocated fuel op s pointers target s1 :
  turn_served fuel op s pointers = true ->
  operation_type op = OPERATION_TYPE_MALLOC ->
  get_pointer pointers (pointer_char op) = Ok NULL ->
  mm_malloc fuel (wrap64 (malloc_size op)) s = Ok (target, s1) ->
  allocated target (wrap64 (malloc_size op)) s1.
Proof.
  unfold turn_served. intros H Hty Hget E. revert H.
  rewrite Hty, Z.eqb_refl, Hget. change (NULL =? NULL) with true. cbv iota.
  rewrite E. intros H. apply Z.leb_le in H. exact H.
Qed.

Lemma addressed_mid a0 pre b post :
  In (a0 + span pre, b) (addressed a0 (pre ++ b :: post)).
Proof. rewrite addressed_app. apply in_or_app. right. by left. Qed.

(** A served turn for malloc, when it ends. *)
Lemma run_malloc_spec fuel op s pointers bl out s' pointers' :
  wf s bl -> operation_type op = OPERATION_TYPE_MALLOC ->
  get_pointer pointers (pointer_char op) = Ok NULL ->
  turn_served fuel op s pointers = true ->
  run_operation fuel op s pointers = Ok (out, s', pointers') ->
  exists target s1 pre b post,
    mm_malloc fuel (wrap64 (malloc_size op)) s = Ok (target, s1) /\
    allocated target (wrap64 (malloc_size op)) s1 /\
    wf s1 (pre ++ b :: post) /\ wf s' (pre ++ b :: post) /\
    heap_start s1 = heap_start s /\ heap_start s' = heap_start s /\
    target = heap_start s + span pre + meta_data_size /\
    is_free b = false /\ wrap64 (malloc_size op) <= block_size b /\
    store_bytes s1 target (replicate (Z.to_nat (wrap64 (malloc_size op))) CHAR_SPACE)
    = Ok s' /\
    pointers' = <[Z.to_nat (pointer_char op - CHAR_a) := target]> pointers /\
    out = PrintMalloc (pointer_char op) (to_long (wrap64 (malloc_size op)))
          :: map PrintBlock (lines_of 1 (pre ++ b :: post)) /\
    (forall a x, In (a, x) (addressed (heap_start s) bl) -> is_free x = false ->
       In (a, x) (addressed (heap_start s) (pre ++ b :: post)) /\
       a <> heap_start s + span pre).
Proof.
  intros Hwf Hty Hget Hserved H.
  destruct (run_malloc_turn _ _ _ _ _ _ _ _ Hwf Hty Hget H)
    as (target & s1 & ls & Er & _ & _ & _ & _ & _ & _ & Hstore & -> & Els & ->).
  pose proof (turn_served_allocated _ _ _ _ _ _ Hserved Hty Hget Er) as Halloc.
  pose proof (wrap64_range (malloc_size op)) as Hn.
  destruct (mm_malloc_allocated_blocks _ _ _ _ _ _ Hwf Hn Er Halloc)
    as (pre & b & post & Hwf1 & Hs1 & Hp & Hb & Hle & Hold & _).
  pose proof (store_bytes_globals _ _ _ _ Hstore) as (G1 & _).
  assert (wf s' (pre ++ b :: post)) as Hwf2.
  { apply (store_payload_wf s1 pre b post
             (replicate (Z.to_nat (wrap64 (malloc_size op))) CHAR_SPACE));
      [done|rewrite length_replicate; unfold is_size in Hn; lia|].
    by rewrite Hs1, <- Hp. }
  exists target, s1, pre, b, post. rewrite (mm_print_Ok _ _ _ _ Hwf2 Els).
  do 12 (split; [done || congruence || lia|]).
  exact Hold.
Qed.

(** A turn for free with a name that points somewhere, when it ends. *)
Lemma run_free_spec fuel op s pointers bl out s' pointers' p :
  wf s bl -> table_ok s bl pointers ->
  operation_type op = OPERATION_TYPE_FREE ->
  get_pointer pointers (pointer_char op) = Ok p -> p <> NULL ->
  run_operation fuel op s pointers = Ok (out, s', pointers') ->
  exists pre b post,
    bl = pre ++ b :: post /\ p = heap_start s + span pre + meta_data_size /\
    is_free b = false /\
    mm_free p s = Ok s' /\ same_globals s s' /\
    wf s' (pre ++ mkBlock (block_size b) META_DATA_STATUS_FREE :: post) /\
    pointers' = <[Z.to_nat (pointer_char op - CHAR_a) := NULL]> pointers /\
    out = PrintFree (pointer_char op)
          :: map PrintBlock
               (lines_of 1 (pre ++ mkBlock (block_size b) META_DATA_STATUS_FREE :: post)).
Proof.
  intros Hwf Htab Hty Hget Hp. unfold run_operation. rewrite Hty.
  change (OPERATION_TYPE_FREE =? OPERATION_TYPE_MALLOC) with false.
  change (OPERATION_TYPE_FREE =? OPERATION_TYPE_FREE) with true. cbv iota zeta.
  rewrite Hget, bind_Ok.
  assert ((p =? NULL) = false) as -> by lia.
  bind_step s1 Efree. bind_step ptrs Eset. bind_step evs Eprint. intros [= <- <- <-].
  destruct (get_pointer_Ok _ _ _ Hget) as [_ Hk].
  destruct Htab as (_ & Hblk & _).
  destruct (Hblk _ _ Hk Hp) as (b & Hin & Hb).
  destruct (addressed_In _ _ _ _ Hin) as (pre & post & -> & Ha).
  destruct (mm_free_block s pre b post Hwf) as (s2 & E & G & _ & Hwf2 & _).
  replace (heap_start s + span pre + meta_data_size) with p in E by lia.
  rewrite E in Efree. injection Efree as <-.
  exists pre, b, post.
  rewrite (set_pointer_Ok _ _ _ _ Eset), (print_blocks_Ok _ _ _ _ Hwf2 Eprint).
  do 7 (split; [done || lia|]). done.
Qed.

(** A turn for combine_nearby_free, when it ends. *)
Lemma run_combine_spec fuel op s pointers bl out s' pointers' :
  wf s bl -> operation_type op = OPERATION_TYPE_COMBINE_NEARBY_FREE ->
  run_operation fuel op s pointers = Ok (out, s', pointers') ->
  mm_combine_nearby_free fuel s = Ok s' /\ same_globals s s' /\
  wf s' (coalesce bl) /\ pointers' = pointers /\
  out = PrintCombine :: map PrintBlock (lines_of 1 (coalesce bl)).
Proof.
  intros Hwf Hty. unfold run_operation. rewrite Hty.
  change (OPERATION_TYPE_COMBINE_NEARBY_FREE =? OPERATION_TYPE_MALLOC) with false.
  change (OPERATION_TYPE_COMBINE_NEARBY_FREE =? OPERATION_TYPE_FREE) with false.
  change (OPERATION_TYPE_COMBINE_NEARBY_FREE =? OPERATION_TYPE_COMBINE_NEARBY_FREE)
    with true.
  cbv iota. bind_step s1 Ecomb. bind_step evs Eprint. intros [= <- <- <-].
  pose proof (mm_combine_mono _ (fuel + S (length bl)) _ _ Ecomb) as E.
  destruct (mm_combine_wf s bl (fuel + S (length bl)) Hwf) as (s2 & E2 & G & _ & Hwf2 & _);
    [lia|].
  rewrite E2 in E. specialize (E ltac:(lia)). injection E as ->.
  rewrite (print_blocks_Ok _ _ _ _ Hwf2 Eprint). done.
Qed.

(** A served turn keeps what holds between two turns. *)
Lemma run_operation_inv fuel op s pointers out s' pointers' :
  main_inv s pointers ->
  turn_served fuel op s pointers = true ->
  run_operation fuel op s pointers = Ok (out, s', pointers') ->
  main_inv s' pointers'.
Proof.
  intros (Hreach & bl & Hwf & Htab) Hserved H.
  destruct (operation_type op =? OPERATION_TYPE_MALLOC) eqn:HM;
    [|destruct (operation_type op =? OPERATION_TYPE_FREE) eqn:HF;
      [|destruct (operation_type op =? OPERATION_TYPE_COMBINE_NEARBY_FREE) eqn:HC]].
  - (* malloc *)
    apply Z.eqb_eq in HM.
    pose proof H as H'. revert H'. unfold run_operation.
    rewrite HM, Z.eqb_refl. cbv zeta. bind_step p Hget.
    destruct (p =? NULL) eqn:Hp.
    2:{ change (negb false) with true. cbv iota. intros [= <- <- <-].
        split; [done|]. by exists bl. }
    intros _. apply Z.eqb_eq in Hp. subst p.
    destruct (run_malloc_spec _ _ _ _ _ _ _ _ Hwf HM Hget Hserved H)
      as (target & s1 & pre & b & post & Er & Halloc & Hwf1 & Hwf2 & Hs1 & Hs2 & Ht & Hb
          & Hle & Hstore & -> & _ & Hold).
    pose proof (wrap64_range (malloc_size op)) as Hn.
    split.
    + eapply (reach_fill s1 (pre ++ b :: post) (heap_start s1 + span pre) b
                (replicate (Z.to_nat (wrap64 (malloc_size op))) CHAR_SPACE)).
      * eapply reach_malloc; eauto.
      * apply Hwf1.
      * apply addressed_mid.
      * rewrite length_replicate. unfold is_size in Hn. lia.
      * rewrite Hs1, <- Ht. exact Hstore.
    + exists (pre ++ b :: post). split; [done|].
      apply (table_ok_update s bl); [done|done| |].
      * intros k p _ Hk Hp. destruct Htab as (_ & Hblk & _).
        destruct (Hblk k p Hk Hp) as (x & Hin & Hx).
        exists x. split; [|done]. by apply Hold.
      * intros _. split.
        -- exists b. split; [|done].
           replace (target - meta_data_size) with (heap_start s + span pre) by lia.
           apply addressed_mid.
        -- intros k _ Hk. destruct Htab as (_ & Hblk & _).
           assert (target <> NULL) as Hnn.
           { destruct Hwf as ((_ & ? & _) & (Hl & _) & _).
             destruct Hwf1 as (_ & (Hl1 & _) & _). apply layout_app in Hl1 as [Hl1 _].
             apply span_nonneg in Hl1. unfold NULL, meta_data_size in *. lia. }
           destruct (Hblk k target Hk Hnn) as (x & Hin & Hx).
           destruct (Hold _ _ Hin Hx) as [_ Hne]. lia.
  - (* free *)
    apply Z.eqb_eq in HF.
    pose proof H as H'. revert H'. unfold run_operation.
    rewrite HM, HF, Z.eqb_refl. cbv iota zeta. bind_step p Hget.
    destruct (p =? NULL) eqn:Hp.
    { intros [= <- <- <-]. split; [done|]. by exists bl. }
    intros _. apply Z.eqb_neq in Hp.
    destruct (run_free_spec _ _ _ _ _ _ _ _ _ Hwf Htab HF Hget Hp H)
      as (pre & b & post & -> & Hp' & Hb & Efree & G & Hwf2 & -> & _).
    split.
    + eapply (reach_free s (pre ++ b :: post) (heap_start s + span pre) b);
        [done|apply Hwf|apply addressed_mid|by rewrite <- Hp'].
    + eexists. split; [exact Hwf2|].
      destruct G as (Hs2 & _).
      apply (table_ok_update s (pre ++ b :: post)); [done|done| |done].
      intros k q Hne Hk Hq. pose proof Htab as (_ & Hblk & Hdis).
      destruct (Hblk k q Hk Hq) as (x & Hin & Hx). exists x. split; [|done].
      destruct (get_pointer_Ok _ _ _ Hget) as [_ Hi].
      apply addressed_app_cases in Hin as [Hin|[[Hin ->]|Hin]].
      * by apply addressed_prefix.
      * assert (q = p) as -> by lia.
        destruct Hq. by apply (Hdis k (Z.to_nat (pointer_char op - CHAR_a))).
      * apply (addressed_suffix _ pre [_] post).
        cbn [span]. unfold footprint in *. simpl.
        by replace (heap_start s + span pre + (meta_data_size + block_size b + 0))
          with (heap_start s + span pre + (meta_data_size + block_size b)) by lia.
  - (* combine_nearby_free *)
    apply Z.eqb_eq in HC.
    destruct (run_combine_spec _ _ _ _ _ _ _ _ Hwf HC H) as (E & G & Hwf2 & -> & _).
    split; [by eapply reach_combine|].
    exists (coalesce bl). split; [done|].
    destruct G as (Hs2 & _).
    apply (table_ok_transfer s bl); [done|done|].
    intros a x Hin Hx. unfold coalesce.
    apply addressed_coalesce; [apply is_run_runs|by rewrite flatten_runs|done].
  - (* another character: nothing is done *)
    revert H. unfold run_operation. rewrite HM, HF, HC. cbv iota. intros [= <- <- <-].
    split; [done|]. by exists bl.
Qed.

Lemma run_operations_inv fuel ops : forall s pointers out s' pointers',
  main_inv s pointers ->
  served fuel ops s pointers = true ->
  run_operations fuel ops s pointers = Ok (out, s', pointers') ->
  main_inv s' pointers'.
Proof.
  induction ops as [|op ops IH]; intros s pointers out s' pointers' Hinv.
  - by intros _ [= <- <- <-].
  - cbn [run_operations served]. intros Hserved.
    apply andb_true_iff in Hserved as [Ht Hs].
    bind_step r Er. destruct r as [[out1 s1] pointers1].
    bind_step r' Er'. destruct r' as [[out2 s2] pointers2]. intros [= <- <- <-].
    eapply IH; [|exact Hs|exact Er']. eapply run_operation_inv; eauto.
Qed.

Lemma main_inv_initial page base :
  0 < page -> mapped_size page HEAP_SIZE < 2 ^ 31 ->
  2 ^ 31 <= base -> base + mapped_size page HEAP_SIZE + 2 ^ 31 < modulus64 ->
  main_inv (initial_paged page base) (replicate (Z.to_nat MAX_POINTERS) NULL).
Proof.
  intros Hp Hm H1 H2. split; [by constructor|]. exists [].
  split; [by apply wf_initial_paged|].
  split; [by rewrite length_replicate|]. split.
  - intros k p Hk Hnn. apply lookup_replicate in Hk as [-> _]. done.
  - intros k1 k2 p _ Hk _. by apply lookup_replicate in Hk as [-> _].
Qed.

(** ** main *)

(** X12. Whatever operations [main] runs and whatever the size of a page, if
    it gets to the end of them and every request on the way was served (the
    payload [mm_malloc] returned lay below the break), then: the arena is
    one the calls can produce, so its blocks tile it from [heap_start] to
    the break; every entry of [pointers] that is not NULL is the payload of
    a block that is not free; and no two names hold the same pointer. *)
Theorem main_keeps_invariant (fuel : nat) (page base : Z) (ops : list operation)
    (out : list event) (s : state) (pointers : list Z) :
  0 < page -> mapped_size page HEAP_SIZE < 2 ^ 31 ->
  2 ^ 31 <= base -> base + mapped_size page HEAP_SIZE + 2 ^ 31 < modulus64 ->
  main_run fuel page base ops = Ok (out, s, pointers) ->
  served fuel ops (initial_paged page base) (replicate (Z.to_nat MAX_POINTERS) NULL)
  = true ->
  reachable s /\ exists bl, wf s bl /\ table_ok s bl pointers.
Proof.
  intros Hp Hm H1 H2. unfold main_run.
  assert ((base =? MAP_FAILED) = false) as ->.
  { pose proof (mapped_size_covers page HEAP_SIZE Hp).
    unfold MAP_FAILED, HEAP_SIZE, modulus64 in *. lia. }
  intros H Hserved. eapply run_operations_inv; [|exact Hserved|exact H].
  by apply main_inv_initial.
Qed.

Lemma main_keeps_invariant_witness :
  served 12 scenario_ops (initial base0) no_pointers = true /\
  match main_run 12 PAGE_SIZE base0 scenario_ops with
  | Ok (_, s, pointers) =>
      reachable s /\ exists bl, wf s bl /\ table_ok s bl pointers
  | _ => False
  end.
Proof.
  assert (served 12 scenario_ops (initial base0) no_pointers = true) as Hserved
    by (vm_compute; reflexivity).
  split; [exact Hserved|].
  destruct (main_run 12 PAGE_SIZE base0 scenario_ops) as [[[out s] pointers]| |] eqn:E.
  - apply (main_keeps_invariant 12 PAGE_SIZE base0 scenario_ops out s pointers);
      [reflexivity|reflexivity|vm_compute; discriminate|reflexivity|exact E|exact Hserved].
  - vm_compute in E. discriminate E.
  - vm_compute in E. discriminate E.
Defined.





(** X15. A name that [main] has freed holds NULL: whatever the arena and
    the table hold, when a turn for free ends, the same turn run again
    changes nothing and prints the error that the name points to NULL. *)
Theorem main_free_twice (fuel : nat) (op : operation) (s : state) (pointers : list Z)
    (out : list event) (s' : state) (pointers' : list Z) :
  operation_type op = OPERATION_TYPE_FREE ->
  run_operation fuel op s pointers = Ok (out, s', pointers') ->
  get_pointer pointers' (pointer_char op) = Ok NULL /\
  run_operation fuel op s' pointers'
  = Ok ([PrintFree (pointer_char op); PrintFreeError (pointer_char op)], s', pointers').
Proof.
  intros Hty.
  assert (forall s0 pointers0,
            get_pointer pointers0 (pointer_char op) = Ok NULL ->
            run_operation fuel op s0 pointers0
            = Ok ([PrintFree (pointer_char op); PrintFreeError (pointer_char op)],
                  s0, pointers0)) as Hnull.
  { intros s0 pointers0 Hget. unfold run_operation. rewrite Hty.
    change (OPERATION_TYPE_FREE =? OPERATION_TYPE_MALLOC) with false.
    change (OPERATION_TYPE_FREE =? OPERATION_TYPE_FREE) with true. cbv iota zeta.
    by rewrite Hget, bind_Ok. }
  unfold run_operation at 1. rewrite Hty.
  change (OPERATION_TYPE_FREE =? OPERATION_TYPE_MALLOC) with false.
  change (OPERATION_TYPE_FREE =? OPERATION_TYPE_FREE) with true. cbv iota zeta.
  bind_step p Hget. destruct (p =? NULL) eqn:Hp.
  - apply Z.eqb_eq in Hp. subst p. intros [= <- <- <-]. split; [done|by apply Hnull].
  - bind_step s1 Efree. bind_step ptrs Eset. bind_step evs Eprint. intros [= <- <- <-].
    rewrite (set_pointer_Ok _ _ _ _ Eset).
    pose proof (get_pointer_insert _ _ NULL _ Hget) as Hget'.
    split; [done|by apply Hnull].
Qed.

Lemma main_free_twice_witness :
  match run_operation 12 (op_free 98) scenario_state scenario_pointers with
  | Ok (out, s', pointers') =>
      get_pointer pointers' 98 = Ok NULL /\
      run_operation 12 (op_free 98) s' pointers'
      = Ok ([PrintFree 98; PrintFreeError 98], s', pointers')
  | _ => False
  end.
Proof.
  destruct (run_operation 12 (op_free 98) scenario_state scenario_pointers)
    as [[[out s'] pointers']| |] eqn:E.
  - exact (main_free_twice 12 (op_free 98) scenario_state scenario_pointers
             out s' pointers' eq_refl E).
  - vm_compute in E. discriminate E.
  - vm_compute in E. discriminate E.
Defined.

(** ** A request that is not served *)

Lemma layout_prefix s : forall l1 a l2,
  layout s a l1 -> layout s a l2 -> span l1 <= span l2 -> exists l3, l2 = l1 ++ l3.
Proof.
  induction l1 as [|b1 l1 IH]; intros a l2 H1 H2 Hs; [by exists l2|].
  destruct H1 as [(Hs1 & Hz1 & N1) Hl1]. pose proof (span_nonneg _ _ _ Hl1) as Nl1.
  destruct l2 as [|b2 l2].
  - cbn [span] in Hs. unfold footprint, meta_data_size in Hs. lia.
  - destruct H2 as [(Hs2 & Hz2 & N2) Hl2].
    assert (b1 = b2) as ->.
    { destruct b1, b2; simpl in *. congruence. }
    cbn [span] in Hs.
    destruct (IH _ l2 Hl1 Hl2) as [l3 ->]; [lia|]. by exists l3.
Qed.

(** The growth for a new block is refused: the header is stored through
    MAP_FAILED. *)
Lemma mm_malloc_grow_new_refused s n lastBlock :
  arena_ok s -> 0 <= n -> n + meta_data_size < 2 ^ 31 ->
  lastBlock = NULL \/ load_status s lastBlock = Ok META_DATA_STATUS_OCCUPIED ->
  heap_end s < heap_current_break s + n + meta_data_size ->
  mm_malloc_grow n lastBlock s = Fault.
Proof.
  intros Hok Hn Hint Hlast Hfull. pose proof Hok as (A1 & A2 & A3 & A4 & A5).
  unfold mm_malloc_grow.
  assert ((if lastBlock =? NULL then Ok true
           else st ← load_status s lastBlock; Ok (st =? META_DATA_STATUS_OCCUPIED))
          = Ok true) as ->.
  { destruct Hlast as [->|E]; [done|]. destruct (lastBlock =? NULL); [done|].
    by rewrite E. }
  rewrite bind_Ok. unfold meta_data_size in *.
  rewrite (size_add_small n 9) by (unfold modulus64; lia).
  rewrite to_int_small by (unfold is_int; lia).
  rewrite mm_sbrk_grow_fail; [|done|unfold is_int; lia|lia|lia].
  rewrite store_size_outside; [done|]. unfold MAP_FAILED, modulus64 in *. lia.
Qed.

(** The growth for the free last block is refused: its header is written
    all the same, and the break stays. *)
Lemma mm_malloc_grow_last_refused s bl b n :
  wf s (bl ++ [b]) -> is_free b = true -> block_size b < n -> n < 2 ^ 31 ->
  heap_end s < heap_current_break s + (n - block_size b) ->
  exists s',
    mm_malloc_grow n (heap_start s + span bl) s
      = Ok (heap_start s + span bl + meta_data_size, s') /\
    same_globals s s' /\
    frame s s' (heap_start s + span bl) (heap_start s + span bl + meta_data_size) /\
    header_at s' (heap_start s + span bl) (mkBlock n META_DATA_STATUS_OCCUPIED).
Proof.
  intros Hwf Hfree Hsmall Hint Hfull.
  pose proof (wf_bounds _ _ Hwf) as (B1 & B2 & B3 & B4).
  destruct Hwf as (Hok & (Hl & Hsp) & Hst).
  pose proof Hok as (A1 & A2 & A3 & A4 & A5).
  apply layout_app in Hl as [Hl [Hb _]].
  pose proof (span_nonneg _ _ _ Hl) as Nbl.
  pose proof (header_at_in_mapping _ _ _ Hb) as [I1 I2].
  destruct Hb as (Hbst & Hbsz & Nb).
  rewrite span_app in Hsp. simpl in Hsp.
  unfold footprint, meta_data_size in *. unfold modulus64 in *.
  unfold is_free in Hfree. apply Z.eqb_eq in Hfree.
  unfold mm_malloc_grow.
  assert ((heap_start s + span bl =? NULL) = false) as ->
    by (apply Z.eqb_neq; unfold NULL; lia).
  rewrite Hbst, !bind_Ok, Hfree.
  change (META_DATA_STATUS_FREE =? META_DATA_STATUS_OCCUPIED) with false.
  cbv iota. rewrite Hbsz, bind_Ok.
  rewrite (size_sub_small n (block_size b)) by (unfold modulus64; lia).
  rewrite to_int_small by (unfold is_int; lia).
  rewrite mm_sbrk_grow_fail; [|done|unfold is_int; lia|lia|lia].
  destruct (store_header s (heap_start s + span bl) n META_DATA_STATUS_OCCUPIED)
    as (s2 & s3 & E2 & E3 & G & F & H); [lia..|unfold is_size, modulus64; lia|].
  rewrite E2, bind_Ok, E3, bind_Ok.
  rewrite (ptr_add_small _ meta_data_size) by (unfold meta_data_size, modulus64; lia).
  exists s3. done.
Qed.

(** X16. [main] does not notice a request that cannot be satisfied.  When
    no free block is large enough and the arena has no room for the growth
    that is needed, a turn for malloc can still get to its end, and if it
    does then: the last block was free, the break has not moved, the header
    of the last block says the requested size, occupied, the name holds the
    payload of that block, the payload that was filled runs over
    [heap_end], and the walk from [heap_start] runs over the break: the
    arena has no block list any more. *)
Theorem main_unserved_request (fuel : nat) (op : operation) (s : state)
    (bl : list block) (pointers : list Z) (out : list event) (s' : state)
    (pointers' : list Z) :
  wf s bl -> operation_type op = OPERATION_TYPE_MALLOC ->
  get_pointer pointers (pointer_char op) = Ok NULL ->
  ~ (Exists (fun b => fits (wrap64 (malloc_size op)) b = true) bl \/
     heap_current_break s + needed_growth (wrap64 (malloc_size op)) bl <= heap_end s) ->
  run_operation fuel op s pointers = Ok (out, s', pointers') ->
  exists pre b,
    bl = pre ++ [b] /\ is_free b = true /\ block_size b < wrap64 (malloc_size op) /\
    heap_current_break s' = heap_current_break s /\
    header_at s' (heap_start s + span pre)
      (mkBlock (wrap64 (malloc_size op)) META_DATA_STATUS_OCCUPIED) /\
    get_pointer pointers' (pointer_char op)
    = Ok (heap_start s + span pre + meta_data_size) /\
    heap_end s < heap_start s + span pre + meta_data_size + wrap64 (malloc_size op) /\
    ~ (exists bl', blocks_of s' bl').
Proof.
  intros Hwf Hty Hget Hunsat H.
  destruct (run_malloc_turn _ _ _ _ _ _ _ _ Hwf Hty Hget H)
    as (target & s1 & ls & Er & _ & _ & _ & _ & Hlo & Hhi & Hstore & -> & _ & _).
  pose proof (wrap64_range (malloc_size op)) as Hn.
  remember (wrap64 (malloc_size op)) as n eqn:En. clear En.
  pose proof Hwf as (Hok & (Hl & Hsp) & Hst). pose proof Hok as (A1 & A2 & A3 & A4 & A5).
  unfold is_size in Hn.
  assert (n + meta_data_size < 2 ^ 31) as Hint by (unfold meta_data_size in *; lia).
  apply (mm_malloc_mono _ (fuel + S (length bl))) in Er; [|lia].
  destruct (first_fit_split n bl) as [Hno|(pre & b & post & -> & Hpre & Hb)].
  2:{ destruct Hunsat. left. apply Exists_app. right. by constructor. }
  rewrite (mm_malloc_nofit s bl) in Er by (done || lia).
  assert (heap_end s < heap_current_break s + needed_growth n bl) as Hfull
    by (apply Z.nle_gt; tauto).
  destruct bl as [|b pre _] using rev_ind.
  { unfold needed_growth in Hfull. cbn [last] in Hfull. cbn [last_header] in Er.
    rewrite mm_malloc_grow_new_refused in Er; [done|done|lia|done|by left|lia]. }
  unfold needed_growth in Hfull. rewrite last_snoc in Hfull.
  rewrite last_header_app in Er.
  pose proof Hl as Hl'. apply layout_app in Hl' as [Hlpre [Hhb _]].
  pose proof (span_nonneg _ _ _ Hlpre) as Npre.
  pose proof Hhb as (Hbst & Hbsz & Nb).
  pose proof Hst as Hst'. apply Forall_app in Hst' as [_ Hstb].
  apply Forall_cons in Hstb as [Hstb _].
  apply Forall_app in Hno as [_ Hnob]. apply Forall_cons in Hnob as [Hnob _].
  rewrite span_app in Hsp. cbn [span] in Hsp.
  destruct (status_ok_free_or_occupied _ Hstb) as [Hfree|[Hfree Hocc]];
    rewrite Hfree in Hfull.
  2:{ rewrite mm_malloc_grow_new_refused in Er; [done|done|lia|done| |lia].
      right. by rewrite Hbst, Hocc. }
  pose proof (nofit_free _ _ Hnob Hfree) as Hsmall.
  destruct (mm_malloc_grow_last_refused s pre b n Hwf Hfree Hsmall)
    as (s1' & E1 & (G1 & G2 & G3 & G4) & F1 & Hh1); [unfold meta_data_size in *; lia|lia|].
  rewrite E1 in Er. injection Er as <- <-.
  pose proof (store_bytes_globals _ _ _ _ Hstore) as (K1 & K2 & K3 & K4).
  assert (header_at s' (heap_start s + span pre) (mkBlock n META_DATA_STATUS_OCCUPIED))
    as Hh'.
  { eapply header_at_same_bytes; [|exact Hh1].
    eapply same_bytes_store; [exact Hstore|]. left. lia. }
  assert (layout s' (heap_start s) pre) as Hlpre'.
  { eapply layout_same_bytes; [|exact Hlpre].
    eapply same_bytes_trans; [apply F1; left; lia|].
    eapply same_bytes_store; [exact Hstore|]. left. unfold meta_data_size. lia. }
  exists pre, b.
  split; [done|]. split; [done|]. split; [done|]. split; [congruence|].
  split; [done|]. split; [by eapply get_pointer_insert|].
  split; [unfold footprint, meta_data_size in *; lia|].
  intros (bl' & Hl' & Hsp'). rewrite K1, G1 in Hl'. rewrite K1, K3, G1, G3 in Hsp'.
  assert (layout s' (heap_start s) (pre ++ [mkBlock n META_DATA_STATUS_OCCUPIED])) as HL.
  { apply layout_app. split; [done|]. by split. }
  destruct (layout_prefix s' bl' (heap_start s) _ Hl' HL) as [l3 E3].
  { rewrite span_app. cbn [span]. unfold footprint in *. simpl. lia. }
  destruct l3 as [|z l3 _] using rev_ind.
  - rewrite app_nil_r in E3. subst bl'. rewrite span_app in Hsp'. cbn [span] in Hsp'.
    unfold footprint in *. simpl in Hsp'. lia.
  - rewrite app_assoc in E3. apply app_inj_tail in E3 as [-> _].
    apply layout_app in Hlpre' as [_ Hl3]. apply span_nonneg in Hl3.
    rewrite span_app in Hsp. unfold footprint, meta_data_size in *. lia.
Qed.

Lemma main_unserved_request_witness :
  wf arena_tail_free5 [OCCUPIED 7970; FREE 5] /\
  match run_operation 30 (op_malloc 99 20) arena_tail_free5 no_pointers with
  | Ok (out, s', pointers') =>
      exists pre b,
        [OCCUPIED 7970; FREE 5] = pre ++ [b] /\ is_free b = true /\
        block_size b < wrap64 (malloc_size (op_malloc 99 20)) /\
        heap_current_break s' = heap_current_break arena_tail_free5 /\
        header_at s' (heap_start arena_tail_free5 + span pre)
          (mkBlock (wrap64 (malloc_size (op_malloc 99 20))) META_DATA_STATUS_OCCUPIED) /\
        get_pointer pointers' (pointer_char (op_malloc 99 20))
        = Ok (heap_start arena_tail_free5 + span pre + meta_data_size) /\
        heap_end arena_tail_free5
        < heap_start arena_tail_free5 + span pre + meta_data_size
          + wrap64 (malloc_size (op_malloc 99 20)) /\
        ~ (exists bl', blocks_of s' bl')
  | _ => False
  end.
Proof.
  assert (wf arena_tail_free5 [OCCUPIED 7970; FREE 5]) as Hwf by evaluate.
  split; [exact Hwf|].
  destruct (run_operation 30 (op_malloc 99 20) arena_tail_free5 no_pointers)
    as [[[out s'] pointers']| |] eqn:E.
  - apply (main_unserved_request 30 (op_malloc 99 20) arena_tail_free5
             [OCCUPIED 7970; FREE 5] no_pointers out s' pointers' Hwf);
      [reflexivity|reflexivity| |exact E].
    intros [Hx|Hroom].
    + rewrite !Exists_cons, Exists_nil in Hx. vm_compute in Hx.
      destruct Hx as [Hx|[Hx|[]]]; discriminate Hx.
    + vm_compute in Hroom. by apply Hroom.
  - vm_compute in E. discriminate E.
  - vm_compute in E. discriminate E.
Defined.
